(** * Blackjack-Revamped: a shallow embedding of the round engine of main.cpp

    The development follows the source file top to bottom: cards and hand
    valuation, the shoe ([Deck]), the computer players' decision helpers,
    the flat-file persistence of [PlayerStats], and the phases of
    [BlackjackGame::play_round].

    Conventions.
    - A C++ [int] is a [Z].  Every quantity of the game (hand totals, chips,
      counters) stays far inside the 32-bit range in any run of the program,
      and signed overflow is undefined in C++, so no wrap-around is written
      out; the text parser is the one place where the range is checked,
      because the stream library itself checks it.
    - [std::string] is [string], [std::list], [std::deque], [std::queue] and
      [std::stack] are [list]s (a stack keeps its top at the head),
      [std::map<std::string,_>] is a [gmap string _] and
      [std::set<std::string>] a [gset string]; where the source iterates over
      a map or a set the entries are visited in increasing key order, as the
      C++ containers do.
    - Terminal output, pacing delays and the dialogue lines are not part of
      the state. *)

From Stdlib Require Import ZArith Lia List Ascii String Permutation.
From Stdlib Require Import Decimal DecimalString DecimalZ.
From stdpp Require Import base decidable option list gmap strings fin_maps sorting.

Local Open Scope string_scope.
Local Open Scope Z_scope.

(** ** Card, rank table *)

Inductive Suit := Clubs | Diamonds | Hearts | Spades.

#[global] Instance Suit_eq_dec : EqDecision Suit.
Proof. solve_decision. Defined.

Definition suit_index (s : Suit) : Z :=
  match s with Clubs => 0 | Diamonds => 1 | Hearts => 2 | Spades => 3 end.

Definition all_suits : list Suit := [Clubs; Diamonds; Hearts; Spades].

Definition RankNames : list string :=
  ["2"; "3"; "4"; "5"; "6"; "7"; "8"; "9"; "10"; "J"; "Q"; "K"; "A"].

Definition RankValue_entries : list (string * Z) :=
  [("2", 2); ("3", 3); ("4", 4); ("5", 5); ("6", 6); ("7", 7); ("8", 8);
   ("9", 9); ("10", 10); ("J", 10); ("Q", 10); ("K", 10); ("A", 11)].

Definition RankValue : gmap string Z := list_to_map RankValue_entries.

Record Card := mkCard { rank : string; suit : Suit }.

#[global] Instance Card_eq_dec : EqDecision Card.
Proof. solve_decision. Defined.

(** ** Hand valuation *)

(** The accumulation loop of [compute_hand_value]: a card whose rank is in the
    table adds its value, and counts as an ace when its rank is "A". *)
Definition value_step (acc : Z * Z) (c : Card) : Z * Z :=
  let '(total, aces) := acc in
  match RankValue !! rank c with
  | Some v => (total + v, if decide (rank c = "A") then aces + 1 else aces)
  | None => (total, aces)
  end.

(** [while (total > 21 && aces > 0) { total -= 10; --aces; }] *)
Fixpoint reduce_aces (fuel : nat) (total aces : Z) : Z * Z :=
  match fuel with
  | O => (total, aces)
  | S fuel' =>
      if (21 <? total) && (0 <? aces)
      then reduce_aces fuel' (total - 10) (aces - 1)
      else (total, aces)
  end.

(** Total and number of aces still counted as 11 when the loop exits; the loop
    runs at most [aces] times. *)
Definition adjusted_hand (hand : list Card) : Z * Z :=
  let '(total, aces) := fold_left value_step hand (0, 0) in
  reduce_aces (Z.to_nat aces) total aces.

Definition compute_hand_value (hand : list Card) : Z := fst (adjusted_hand hand).

Definition is_blackjack (hand : list Card) : bool :=
  bool_decide (length hand = 2%nat) && (compute_hand_value hand =? 21).

(** The loop of [is_soft_hand]: here the ace test is outside the table test. *)
Definition soft_step (acc : Z * Z) (c : Card) : Z * Z :=
  let '(total, aces) := acc in
  let total' := match RankValue !! rank c with Some v => total + v | None => total end in
  (total', if decide (rank c = "A") then aces + 1 else aces).

Definition is_soft_hand (hand : list Card) : bool :=
  let '(total, aces) := fold_left soft_step hand (0, 0) in
  (0 <? aces) && (total <=? 21).

(** The spec's reading of a soft hand: after the ace adjustment of the value
    computation at least one ace is still counted as 11. *)
Definition aces_counted_as_11 (hand : list Card) : Z := snd (adjusted_hand hand).

Definition spec_is_soft (hand : list Card) : bool := 0 <? aces_counted_as_11 hand.

(** ** Player *)

Record Player := mkPlayer {
  name : string;
  is_human : bool;
  chips : Z;
  hand : list Card;
  active : bool;
  stood : bool;
  busted : bool;
  wager_history : list Z;
  last_bet : Z
}.

Definition new_player (n : string) (human : bool) (starting_chips : Z) : Player :=
  {| name := n; is_human := human; chips := starting_chips; hand := [];
     active := true; stood := false; busted := false;
     wager_history := []; last_bet := 0 |}.

Definition clear_hand (p : Player) : Player :=
  {| name := name p; is_human := is_human p; chips := chips p; hand := [];
     active := true; stood := false; busted := false;
     wager_history := wager_history p; last_bet := last_bet p |}.

Definition receive_card (c : Card) (p : Player) : Player :=
  {| name := name p; is_human := is_human p; chips := chips p;
     hand := hand p ++ [c];
     active := active p; stood := stood p; busted := busted p;
     wager_history := wager_history p; last_bet := last_bet p |}.

Definition hand_value (p : Player) : Z := compute_hand_value (hand p).

(** ** Decision helpers of the computer players *)

Definition cautious_carl_should_hit (p : Player) : bool := hand_value p <? 13.
Definition reckless_randy_should_hit (p : Player) : bool := hand_value p <? 20.

Definition visible_step (self_name : string) (highest : Z) (pl : Player) : Z :=
  if decide (name pl = self_name) then highest
  else match hand pl with
       | [] => highest
       | c :: _ =>
           match RankValue !! rank c with
           | Some v => Z.max highest v
           | None => highest
           end
       end.

Definition get_visible_highest_card_value (players : list Player) (self_name : string) : Z :=
  fold_left (visible_step self_name) players 2.

Definition smart_samantha_should_hit (p : Player) (all_players : list Player) : bool :=
  let hv := hand_value p in
  let soft := is_soft_hand (hand p) in
  let up := get_visible_highest_card_value all_players (name p) in
  if soft then
    if hv <=? 17 then true
    else if hv =? 18 then (if 9 <=? up then true else false)
    else false
  else
    if hv <=? 11 then true
    else if 17 <=? hv then false
    else if (12 <=? hv) && (hv <=? 16) then
      (if (2 <=? up) && (up <=? 6) then false else true)
    else hv <? 12.

(** The Analytical rule in the spec's words, on a softness flag, a hand value
    and the highest visible opposing card. *)
Definition spec_analytical_should_hit (soft : bool) (hv up : Z) : bool :=
  if soft then (hv <=? 17) || ((hv =? 18) && (9 <=? up))
  else (hv <=? 11) || ((12 <=? hv) && (hv <=? 16) && negb ((2 <=? up) && (up <=? 6))).

(** ** Random engines

    [std::mt19937] together with [std::shuffle] and
    [std::uniform_int_distribution] is a library interface: a shuffle returns
    some rearrangement of its argument and a new engine state, a draw returns
    some integer of the requested closed range. *)

Class RandomEngine (G : Type) := {
  std_shuffle : G → list Card → list Card * G;
  uniform_int : Z → Z → G → Z * G;
  std_shuffle_perm : ∀ g l, Permutation (std_shuffle g l).1 l;
  uniform_int_range : ∀ a b g, a ≤ b → a ≤ (uniform_int a b g).1 ≤ b
}.

(** A small engine to run the model on concrete tables: its state is a
    counter, a shuffle reverses the sequence, a draw walks through the range. *)
#[global] Program Instance counter_engine : RandomEngine nat := {|
  std_shuffle g l := (rev l, S g);
  uniform_int a b g := (a + (Z.of_nat g) `mod` (Z.max 1 (b - a + 1)), S g)
|}.
Next Obligation. intros g l; simpl. symmetry. apply Permutation_rev. Qed.
Next Obligation.
  intros a b g Hab; simpl.
  assert (0 ≤ Z.of_nat g `mod` Z.max 1 (b - a + 1) < Z.max 1 (b - a + 1))
    by (apply Z.mod_pos_bound; lia).
  lia.
Qed.

(** ** Deck *)

Record Deck (G : Type) := mkDeck {
  container : list Card;
  discard : list Card;
  seen_cards : gset string;
  rng : G;
  decks : Z
}.
Arguments mkDeck {G} _ _ _ _ _.
Arguments container {G} _.
Arguments discard {G} _.
Arguments seen_cards {G} _.
Arguments rng {G} _.
Arguments decks {G} _.

Definition suit_digit (s : Suit) : string :=
  match s with Clubs => "0" | Diamonds => "1" | Hearts => "2" | Spades => "3" end.

Definition canonical (c : Card) : string := rank c ++ "-" ++ suit_digit (suit c).

(** The thirteen ranks of one suit, then the four suits, in the order of the
    nested loops of [build_new_deck]. *)
Definition one_deck : list Card :=
  s ← all_suits; r ← RankNames; [mkCard r s].

Fixpoint repeat_deck (n : nat) : list Card :=
  match n with
  | O => []
  | S n' => one_deck ++ repeat_deck n'
  end.

Section deck.
Context {G : Type} `{!RandomEngine G}.

Definition build_new_deck (d : Deck G) : Deck G :=
  {| container := repeat_deck (Z.to_nat (decks d)); discard := discard d;
     seen_cards := ∅; rng := rng d; decks := decks d |}.

Definition shuffle_deck (d : Deck G) : Deck G :=
  let '(tmp, g) := std_shuffle (rng d) (container d) in
  {| container := tmp; discard := discard d;
     seen_cards := seen_cards d; rng := g; decks := decks d |}.

(** The refill of [deal_one] when [container] is empty. *)
Definition refill (d : Deck G) : Deck G :=
  match discard d with
  | top :: below =>
      shuffle_deck
        {| container := container d ++ below; discard := [top];
           seen_cards := seen_cards d; rng := rng d; decks := decks d |}
  | [] => shuffle_deck (build_new_deck d)
  end.

(** [container.front()] on an empty deque has no defined behaviour: the
    model returns [None] there. *)
Definition deal_one (d : Deck G) : option (Card * Deck G) :=
  let d1 := match container d with [] => refill d | _ :: _ => d end in
  match container d1 with
  | [] => None
  | c :: rest =>
      Some (c, {| container := rest; discard := discard d1;
                  seen_cards := {[canonical c]} ∪ seen_cards d1;
                  rng := rng d1; decks := decks d1 |})
  end.

Definition discard_card (c : Card) (d : Deck G) : Deck G :=
  {| container := container d; discard := c :: discard d;
     seen_cards := seen_cards d; rng := rng d; decks := decks d |}.

Definition size (d : Deck G) : Z := Z.of_nat (length (container d)).

(** The check of [prepare_round] before a round is dealt:
    [if (deck.size() < 15) { deck.build_new_deck(); deck.shuffle_deck(); }] *)
Definition low_card_reshuffle (d : Deck G) : Deck G :=
  if size d <? 15 then shuffle_deck (build_new_deck d) else d.

(** *** The shoe together with the cards held in hands

    A shoe state pairs the deck with the cards that were dealt and are still
    held.  Its steps are the three ways the round engine touches the deck: a
    deal into a hand, the discard of a held card, and the check before a
    round. *)
Inductive shoe_op := Deal | Discard (i : nat) | PreDealCheck.

Definition cards_in_play (s : Deck G * list Card) : list Card :=
  container s.1 ++ discard s.1 ++ s.2.

Definition total_cards (s : Deck G * list Card) : nat := length (cards_in_play s).

Definition shoe_step (op : shoe_op) (s : Deck G * list Card) : option (Deck G * list Card) :=
  let '(d, held) := s in
  match op with
  | Deal => '(c, d') ← deal_one d; Some (d', (held ++ [c])%list)
  | Discard i => c ← held !! i; Some (discard_card c d, delete i held)
  | PreDealCheck => Some (low_card_reshuffle d, held)
  end.

(** Whether a step builds a fresh shoe. *)
Definition rebuilds (op : shoe_op) (d : Deck G) : bool :=
  match op with
  | Deal => bool_decide (container d = []) && bool_decide (discard d = [])
  | Discard _ => false
  | PreDealCheck => size d <? 15
  end.

(** Runs of the shoe in which no step builds a fresh shoe. *)
Inductive conserving_run : Deck G * list Card → list shoe_op → Deck G * list Card → Prop :=
  | run_done s : conserving_run s [] s
  | run_step s op s1 ops s2 :
      rebuilds op s.1 = false →
      shoe_step op s = Some s1 →
      conserving_run s1 ops s2 →
      conserving_run s (op :: ops) s2.
End deck.

(** ** Player statistics and their text form *)

Record PlayerStats := mkStats {
  wins : Z;
  losses : Z;
  ties : Z;
  best_streak : Z;
  current_streak : Z;
  biggest_win : Z;
  total_games : Z;
  blackjacks : Z;
  achievements : gset string
}.

(** [PlayerStats{}] *)
Definition no_stats : PlayerStats :=
  {| wins := 0; losses := 0; ties := 0; best_streak := 0; current_streak := 0;
     biggest_win := 0; total_games := 0; blackjacks := 0; achievements := ∅ |}.

Definition INT_MIN : Z := - 2 ^ 31.
Definition INT_MAX : Z := 2 ^ 31 - 1.

(** *** Characters and streams *)

(** [std::isspace] in the classic locale. *)
Definition isspace (c : ascii) : bool :=
  let n := nat_of_ascii c in
  bool_decide (n = 32 ∨ n = 9 ∨ n = 10 ∨ n = 11 ∨ n = 12 ∨ n = 13)%nat.

Definition isdigit (c : ascii) : bool :=
  let n := nat_of_ascii c in bool_decide (48 ≤ n ∧ n ≤ 57)%nat.

Fixpoint skip_ws (s : string) : string :=
  match s with
  | String c s' => if isspace c then skip_ws s' else s
  | EmptyString => s
  end.

(** The longest prefix without white space, and what follows it. *)
Fixpoint read_word (s : string) : string * string :=
  match s with
  | String c s' =>
      if isspace c then (EmptyString, s)
      else let '(w, r) := read_word s' in (String c w, r)
  | EmptyString => (EmptyString, EmptyString)
  end.

(** [iss >> word] for a [std::string]: it fails when no character is left. *)
Definition extract_word (s : string) : option (string * string) :=
  let '(w, r) := read_word (skip_ws s) in
  if decide (w = EmptyString) then None else Some (w, r).

(** The longest prefix of decimal digits, most significant first. *)
Fixpoint read_digits (s : string) : string * string :=
  match s with
  | String c s' =>
      if isdigit c then let '(w, r) := read_digits s' in (String c w, r)
      else (EmptyString, s)
  | EmptyString => (EmptyString, EmptyString)
  end.

Definition digits_value (w : string) : option Z :=
  Z.of_uint <$> NilZero.uint_of_string w.

(** [iss >> n] for an [int], also the conversion done by [std::stoi]: white
    space, an optional sign, at least one digit; a value outside the range of
    [int] is an error. *)
Definition extract_int (s : string) : option (Z * string) :=
  let s1 := skip_ws s in
  let '(neg, s2) :=
    match s1 with
    | String "-" r => (true, r)
    | String "+" r => (false, r)
    | _ => (false, s1)
    end in
  let '(w, r) := read_digits s2 in
  v ← digits_value w;
  let n := if neg then - v else v in
  if decide (INT_MIN ≤ n ≤ INT_MAX) then Some (n, r) else None.

(** [out << n] for an [int], also [std::to_string]. *)
Definition to_string (n : Z) : string := NilZero.string_of_int (Z.to_int n).

(** The successive results of [std::getline (in, line, delim)] until it fails:
    the pieces between delimiters, without an empty piece after a final
    delimiter. *)
Fixpoint getlines (delim : ascii) (s : string) : list string :=
  match s with
  | EmptyString => []
  | String c s' =>
      if Ascii.eqb c delim then EmptyString :: getlines delim s'
      else match getlines delim s' with
           | [] => [String c EmptyString]
           | l :: ls => String c l :: ls
           end
  end.

Definition string_map (f : ascii → ascii) (s : string) : string :=
  string_of_list_ascii (f <$> list_ascii_of_string s).

Definition escape_name (n : string) : string :=
  string_map (λ c, if Ascii.eqb c " " then "_"%char else c) n.

Definition unescape_name (n : string) : string :=
  string_map (λ c, if Ascii.eqb c "_" then " "%char else c) n.

(** *** Ordered iteration *)

Definition string_le (a b : string) : Prop := String.leb a b = true.

#[global] Instance string_le_dec : RelDecision string_le.
Proof. intros a b. unfold string_le. apply _. Defined.

Definition key_le {A : Type} (a b : string * A) : Prop := string_le a.1 b.1.

#[global] Instance key_le_dec {A : Type} : RelDecision (@key_le A).
Proof. intros a b. unfold key_le. apply _. Defined.

(** The elements of a [std::set<std::string>] in iteration order. *)
Definition set_in_order (s : gset string) : list string :=
  merge_sort string_le (elements s).

(** The entries of a [std::map<std::string,_>] in iteration order. *)
Definition map_in_order {A : Type} (m : gmap string A) : list (string * A) :=
  merge_sort key_le (map_to_list m).

(** *** Achievements lists *)

Definition join_achievements (s : gset string) : string :=
  String.concat "," (set_in_order s).

Definition split_achievements (s : string) : gset string :=
  list_to_set (filter (λ token, token ≠ EmptyString) (getlines "," s)).

(** *** The stats file *)

(** [if (!achievements.empty()) out << " " << join_achievements(achievements);] *)
Definition achievements_field (s : gset string) : string :=
  if decide (s = ∅) then "" else " " ++ join_achievements s.

(** The text written for one entry, before the end of line. *)
Definition stats_record (entry : string * PlayerStats) : string :=
  let '(n, ps) := entry in
  escape_name n ++ " "
  ++ to_string (wins ps) ++ " " ++ to_string (losses ps) ++ " "
  ++ to_string (ties ps) ++ " "
  ++ to_string (best_streak ps) ++ " " ++ to_string (current_streak ps) ++ " "
  ++ to_string (biggest_win ps) ++ " " ++ to_string (total_games ps) ++ " "
  ++ to_string (blackjacks ps)
  ++ achievements_field (achievements ps).

Definition stats_line (entry : string * PlayerStats) : string :=
  stats_record entry ++ String "010" "".

(** *** Records that the text form can carry

    A name is written with its spaces replaced by underscores and read back as
    one word; the counters are read back as [int]s; the achievements are read
    back from the rest of the line, split at commas. *)

Definition chars (s : string) : list ascii := list_ascii_of_string s.

Definition storable_name (n : string) : Prop :=
  n ≠ EmptyString
  ∧ Forall (λ c, c ≠ "_"%char ∧ (isspace c = true → c = " "%char)) (chars n).

Definition storable_id (a : string) : Prop :=
  a ≠ EmptyString
  ∧ Forall (λ c, c ≠ ","%char ∧ c ≠ "010"%char) (chars a)
  ∧ isspace (match a with String c _ => c | EmptyString => Ascii.zero end) = false.

Definition is_int (z : Z) : Prop := INT_MIN ≤ z ≤ INT_MAX.

Definition storable_stats (ps : PlayerStats) : Prop :=
  is_int (wins ps) ∧ is_int (losses ps) ∧ is_int (ties ps)
  ∧ is_int (best_streak ps) ∧ is_int (current_streak ps)
  ∧ is_int (biggest_win ps) ∧ is_int (total_games ps) ∧ is_int (blackjacks ps)
  ∧ set_Forall storable_id (achievements ps).

Definition storable (m : gmap string PlayerStats) : Prop :=
  map_Forall (λ n ps, storable_name n ∧ storable_stats ps) m.

#[global] Instance storable_name_dec (n : string) : Decision (storable_name n).
Proof. unfold storable_name. apply _. Defined.

#[global] Instance storable_id_dec (a : string) : Decision (storable_id a).
Proof. unfold storable_id. apply _. Defined.

#[global] Instance storable_stats_dec (ps : PlayerStats) : Decision (storable_stats ps).
Proof. unfold storable_stats, is_int. apply _. Defined.

#[global] Instance storable_dec (m : gmap string PlayerStats) : Decision (storable m).
Proof. unfold storable. apply _. Defined.

Definition starts_without_digit (s : string) : Prop :=
  match s with String c _ => isdigit c = false | EmptyString => True end.

(** What [save_stats_to_file] writes: the file is rewritten from scratch. *)
Definition save_stats_to_file (persistent_stats : gmap string PlayerStats) : string :=
  String.concat "" (stats_line <$> map_in_order persistent_stats).

(** One line of the file, or [None] when the line is skipped. *)
Definition parse_stats_line (line : string) : option (string * PlayerStats) :=
  '(rawname, s) ← extract_word line;
  '(w, s) ← extract_int s;
  '(l, s) ← extract_int s;
  '(t, s) ← extract_int s;
  '(bs, s) ← extract_int s;
  '(cs, s) ← extract_int s;
  '(bw, s) ← extract_int s;
  '(tg, s) ← extract_int s;
  '(bj, rest) ← extract_int s;
  let tail := skip_ws rest in
  let ach := if decide (tail = EmptyString) then ∅ else split_achievements tail in
  Some (unescape_name rawname,
        {| wins := w; losses := l; ties := t; best_streak := bs;
           current_streak := cs; biggest_win := bw; total_games := tg;
           blackjacks := bj; achievements := ach |}).

Definition load_line (m : gmap string PlayerStats) (line : string) : gmap string PlayerStats :=
  if decide (line = EmptyString) then m
  else match parse_stats_line line with
       | Some (n, ps) => <[n := ps]> m
       | None => m
       end.

(** [load_stats_from_file] on the content of the file, into the current map. *)
Definition load_stats_from_file (file : string) (persistent_stats : gmap string PlayerStats)
  : gmap string PlayerStats :=
  fold_left load_line (getlines "010" file) persistent_stats.

(** ** The game

    Of the members of [BlackjackGame] the model keeps those that the round
    engine reads back: the shoe, the persistent statistics, the roster, the
    pot, the transaction log, the two chip settings, the game's own random
    engine, and the two files the process talks to (the stats file and
    standard input).  [in_avail] stands for [std::cin.rdbuf()->in_avail() > 0],
    which depends on the buffering of the stream: it is given as a function of
    the lines not yet read. *)

Record BlackjackGame (G : Type) := mkGame {
  deck : Deck G;
  persistent_stats : gmap string PlayerStats;
  players : list Player;
  turn_queue : list string;
  betting_pot : list (string * Z);
  chip_transactions : list Z;
  starting_chips : Z;
  bet_amount : Z;
  game_rng : G;
  stats_file : string;
  cin : list string;
  in_avail : list string → bool
}.
Arguments mkGame {G} _ _ _ _ _ _ _ _ _ _ _ _.
Arguments deck {G} _.
Arguments persistent_stats {G} _.
Arguments players {G} _.
Arguments turn_queue {G} _.
Arguments betting_pot {G} _.
Arguments chip_transactions {G} _.
Arguments starting_chips {G} _.
Arguments bet_amount {G} _.
Arguments game_rng {G} _.
Arguments stats_file {G} _.
Arguments cin {G} _.
Arguments in_avail {G} _.

(** How a call ends. *)
Inductive outcome (S : Type) : Type :=
  | Ok (s : S)       (* it returns *)
  | Exited (s : S)   (* the process left through [exit(0)] *)
  | Undefined        (* [front()] was taken of an empty deque *)
  | Hang             (* the prompt loop spins on an exhausted input *)
  | OutOfFuel.       (* the bound given to the model was too small *)
Arguments Ok {S} _.
Arguments Exited {S} _.
Arguments Undefined {S}.
Arguments Hang {S}.
Arguments OutOfFuel {S}.

Definition obind {S : Type} (o : outcome S) (k : S → outcome S) : outcome S :=
  match o with
  | Ok s => k s
  | Exited s => Exited s
  | Undefined => Undefined
  | Hang => Hang
  | OutOfFuel => OutOfFuel
  end.

Notation "x ←! o ; k" := (obind o (λ x, k))
  (at level 20, o at level 100, k at level 200, only parsing, right associativity).

(** Player updates. *)
Definition set_chips (v : Z) (p : Player) : Player :=
  {| name := name p; is_human := is_human p; chips := v; hand := hand p;
     active := active p; stood := stood p; busted := busted p;
     wager_history := wager_history p; last_bet := last_bet p |}.

Definition set_hand (h : list Card) (p : Player) : Player :=
  {| name := name p; is_human := is_human p; chips := chips p; hand := h;
     active := active p; stood := stood p; busted := busted p;
     wager_history := wager_history p; last_bet := last_bet p |}.

(** [p.stood = true; p.active = false;] *)
Definition mark_stood (p : Player) : Player :=
  {| name := name p; is_human := is_human p; chips := chips p; hand := hand p;
     active := false; stood := true; busted := busted p;
     wager_history := wager_history p; last_bet := last_bet p |}.

(** [p.busted = true; p.active = false;] *)
Definition mark_busted (p : Player) : Player :=
  {| name := name p; is_human := is_human p; chips := chips p; hand := hand p;
     active := false; stood := stood p; busted := true;
     wager_history := wager_history p; last_bet := last_bet p |}.

(** [p.last_bet = bet; p.chips -= bet; p.wager_history.push_back(bet);] *)
Definition place_bet (bet : Z) (p : Player) : Player :=
  {| name := name p; is_human := is_human p; chips := chips p - bet; hand := hand p;
     active := active p; stood := stood p; busted := busted p;
     wager_history := wager_history p ++ [bet]; last_bet := bet |}.

(** A profile reset as the menu does it to one player. *)
Definition reset_chips (v : Z) (clear_wagers : bool) (p : Player) : Player :=
  {| name := name p; is_human := is_human p; chips := v; hand := hand p;
     active := active p; stood := stood p; busted := busted p;
     wager_history := if clear_wagers then [] else wager_history p;
     last_bet := last_bet p |}.

(** Statistics updates; [persistent_stats[n]] creates an empty record when
    there is none. *)
Definition stats_of (m : gmap string PlayerStats) (n : string) : PlayerStats :=
  default no_stats (m !! n).

Definition update_stats (n : string) (f : PlayerStats → PlayerStats)
    (m : gmap string PlayerStats) : gmap string PlayerStats :=
  <[n := f (stats_of m n)]> m.

Definition touch_stats (n : string) (m : gmap string PlayerStats) : gmap string PlayerStats :=
  update_stats n id m.

Definition count_blackjack (ps : PlayerStats) : PlayerStats :=
  {| wins := wins ps; losses := losses ps; ties := ties ps;
     best_streak := best_streak ps; current_streak := current_streak ps;
     biggest_win := biggest_win ps; total_games := total_games ps;
     blackjacks := blackjacks ps + 1; achievements := achievements ps |}.

(** [losses++; current_streak = 0; total_games++;] *)
Definition count_loss (ps : PlayerStats) : PlayerStats :=
  {| wins := wins ps; losses := losses ps + 1; ties := ties ps;
     best_streak := best_streak ps; current_streak := 0;
     biggest_win := biggest_win ps; total_games := total_games ps + 1;
     blackjacks := blackjacks ps; achievements := achievements ps |}.

(** [wins++; current_streak++; total_games++;] then the best streak. *)
Definition count_win (ps : PlayerStats) : PlayerStats :=
  let cs := current_streak ps + 1 in
  {| wins := wins ps + 1; losses := losses ps; ties := ties ps;
     best_streak := if best_streak ps <? cs then cs else best_streak ps;
     current_streak := cs;
     biggest_win := biggest_win ps; total_games := total_games ps + 1;
     blackjacks := blackjacks ps; achievements := achievements ps |}.

Definition add_achievement (key : string) (ps : PlayerStats) : PlayerStats :=
  {| wins := wins ps; losses := losses ps; ties := ties ps;
     best_streak := best_streak ps; current_streak := current_streak ps;
     biggest_win := biggest_win ps; total_games := total_games ps;
     blackjacks := blackjacks ps; achievements := {[key]} ∪ achievements ps |}.

(** [name.find(pat) != std::string::npos] *)
Definition contains (pat s : string) : bool :=
  match String.index 0 pat s with Some _ => true | None => false end.

Section game.
Context {G : Type} `{!RandomEngine G}.
Implicit Types g : BlackjackGame G.

Definition set_deck (d : Deck G) g : BlackjackGame G :=
  mkGame d (persistent_stats g) (players g) (turn_queue g) (betting_pot g)
    (chip_transactions g) (starting_chips g) (bet_amount g) (game_rng g)
    (stats_file g) (cin g) (in_avail g).
Definition set_stats (m : gmap string PlayerStats) g : BlackjackGame G :=
  mkGame (deck g) m (players g) (turn_queue g) (betting_pot g)
    (chip_transactions g) (starting_chips g) (bet_amount g) (game_rng g)
    (stats_file g) (cin g) (in_avail g).
Definition set_players (l : list Player) g : BlackjackGame G :=
  mkGame (deck g) (persistent_stats g) l (turn_queue g) (betting_pot g)
    (chip_transactions g) (starting_chips g) (bet_amount g) (game_rng g)
    (stats_file g) (cin g) (in_avail g).
Definition set_turn_queue (q : list string) g : BlackjackGame G :=
  mkGame (deck g) (persistent_stats g) (players g) q (betting_pot g)
    (chip_transactions g) (starting_chips g) (bet_amount g) (game_rng g)
    (stats_file g) (cin g) (in_avail g).
Definition set_pot (pot : list (string * Z)) g : BlackjackGame G :=
  mkGame (deck g) (persistent_stats g) (players g) (turn_queue g) pot
    (chip_transactions g) (starting_chips g) (bet_amount g) (game_rng g)
    (stats_file g) (cin g) (in_avail g).
Definition set_transactions (t : list Z) g : BlackjackGame G :=
  mkGame (deck g) (persistent_stats g) (players g) (turn_queue g) (betting_pot g)
    t (starting_chips g) (bet_amount g) (game_rng g)
    (stats_file g) (cin g) (in_avail g).
Definition set_rng (r : G) g : BlackjackGame G :=
  mkGame (deck g) (persistent_stats g) (players g) (turn_queue g) (betting_pot g)
    (chip_transactions g) (starting_chips g) (bet_amount g) r
    (stats_file g) (cin g) (in_avail g).
Definition set_file (f : string) g : BlackjackGame G :=
  mkGame (deck g) (persistent_stats g) (players g) (turn_queue g) (betting_pot g)
    (chip_transactions g) (starting_chips g) (bet_amount g) (game_rng g)
    f (cin g) (in_avail g).
Definition set_cin (l : list string) g : BlackjackGame G :=
  mkGame (deck g) (persistent_stats g) (players g) (turn_queue g) (betting_pot g)
    (chip_transactions g) (starting_chips g) (bet_amount g) (game_rng g)
    (stats_file g) l (in_avail g).

Definition alter_player (i : nat) (f : Player → Player) g : BlackjackGame G :=
  set_players (alter f i (players g)) g.

Definition alter_stats (n : string) (f : PlayerStats → PlayerStats) g : BlackjackGame G :=
  set_stats (update_stats n f (persistent_stats g)) g.

Definition push_transaction (amount : Z) g : BlackjackGame G :=
  set_transactions (chip_transactions g ++ [amount]) g.

(** [std::getline(std::cin, line)]: at the end of the input the line read is
    empty. *)
Definition getline_cin g : string * BlackjackGame G :=
  match cin g with
  | [] => (EmptyString, g)
  | l :: ls => (l, set_cin ls g)
  end.

(** The whole map is written to the file. *)
Definition save_stats g : BlackjackGame G :=
  set_file (save_stats_to_file (persistent_stats g)) g.

Definition unlock_achievement_for (player_name ach_key : string) g : BlackjackGame G :=
  match persistent_stats g !! player_name with
  | None => g
  | Some ps =>
      if decide (ach_key ∈ achievements ps) then g
      else save_stats (set_stats (<[player_name := add_achievement ach_key ps]> (persistent_stats g)) g)
  end.

Definition unlock_if (b : bool) (player_name ach_key : string) g : BlackjackGame G :=
  if b then unlock_achievement_for player_name ach_key g else g.

(** The indices of the roster, for the loops that change the players they
    visit. *)
Definition roster g : list nat := seq 0 (length (players g)).

(** *** Round preparation and bets *)

Definition prepare_round g : BlackjackGame G :=
  let g := set_pot [] g in
  let g := set_players (clear_hand <$> players g) g in
  let g := set_deck (low_card_reshuffle (deck g)) g in
  set_turn_queue (name <$> filter (λ p, 0 < chips p) (players g)) g.

Definition default_bet_of g (p : Player) : Z :=
  if 0 <? last_bet p then last_bet p else bet_amount g.

Definition human_bet (p : Player) g : Z * BlackjackGame G :=
  let default_bet := default_bet_of g p in
  let g := if in_avail g (cin g) then (getline_cin g).2 else g in
  let '(line, g) := getline_cin g in
  let bet :=
    if decide (line = EmptyString) then Z.min (chips p) default_bet
    else match extract_int line with
         | Some (parsed, _) =>
             let parsed := if parsed <? 1 then 1 else parsed in
             if chips p <? parsed then chips p else parsed
         | None => Z.min (chips p) default_bet
         end in
  (bet, g).

Definition npc_extra (p : Player) (roll : Z) g : Z * BlackjackGame G :=
  let ba := bet_amount g in
  if contains "Cautious" (name p) then
    ((if (90 <? roll) && (ba <? chips p) then ba `quot` 2 else 0), g)
  else if contains "Reckless" (name p) then
    ((if (40 <? roll) && (ba <? chips p) then ba else 0), g)
  else if contains "Smart" (name p) then
    let g := set_stats (touch_stats (name p) (persistent_stats g)) g in
    let ps := stats_of (persistent_stats g) (name p) in
    let extra := if (1 <? current_streak ps) && (ba <? chips p) then ba `quot` 2 else 0 in
    let extra := if (95 <? roll) && (ba * 2 <? chips p) then ba * 2 else extra in
    (extra, g)
  else if contains "Chaotic" (name p) then
    ((if roll `rem` 2 =? 0 then roll `rem` (ba + 1) else 0), g)
  else (0, g).

Definition npc_bet (p : Player) g : Z * BlackjackGame G :=
  let '(roll, r) := uniform_int 0 99 (game_rng g) in
  let g := set_rng r g in
  let '(extra, g) := npc_extra p roll g in
  let bet := Z.min (chips p) (bet_amount g + extra) in
  let bet := if (roll <? 6) && (1 <=? chips p) then Z.max 1 (bet_amount g `quot` 2) else bet in
  (bet, g).

Definition collect_bet (g : BlackjackGame G) (i : nat) : BlackjackGame G :=
  match players g !! i with
  | None => g
  | Some p =>
      if chips p <=? 0 then g
      else
        let '(bet, g) := if is_human p then human_bet p g else npc_bet p g in
        let g := alter_player i (place_bet bet) g in
        let g := set_pot (betting_pot g ++ [(name p, bet)]) g in
        push_transaction (- bet) g
  end.

Definition collect_bets g : BlackjackGame G := fold_left collect_bet (roster g) g.
End game.

Section round.
Context {G : Type} `{!RandomEngine G}.
Implicit Types g : BlackjackGame G.

(** *** Dealing *)

(** [Card c = deck.deal_one(); p.receive_card(c);] for the player at [i]. *)
Definition deal_card_to (i : nat) g : outcome (BlackjackGame G) :=
  match deal_one (deck g) with
  | None => Undefined
  | Some (c, d) => Ok (alter_player i (receive_card c) (set_deck d g))
  end.

Definition initial_deal_step (o : outcome (BlackjackGame G)) (i : nat)
  : outcome (BlackjackGame G) :=
  g ←! o;
  match players g !! i with
  | None => Ok g
  | Some p => if chips p <? 0 then Ok g else deal_card_to i g
  end.

Definition deal_pass g : outcome (BlackjackGame G) :=
  fold_left initial_deal_step (roster g) (Ok g).

Definition initial_deal_animated g : outcome (BlackjackGame G) :=
  g ←! deal_pass g; deal_pass g.

(** *** Natural blackjacks after the deal *)

Definition detect_blackjack (g : BlackjackGame G) (i : nat) : BlackjackGame G :=
  match players g !! i with
  | None => g
  | Some p =>
      if chips p <? 0 then g
      else if is_blackjack (hand p) then
        let g := alter_player i mark_stood g in
        let g := alter_stats (name p) count_blackjack g in
        unlock_if (is_human p) (name p) "BLACKJACK" g
      else g
  end.

Definition detect_blackjacks g : BlackjackGame G :=
  fold_left detect_blackjack (roster g) g.

(** *** A computer player's turn *)

Definition npc_should_hit (p : Player) g : bool * BlackjackGame G :=
  let hv := hand_value p in
  if contains "Cautious" (name p) then (cautious_carl_should_hit p, g)
  else if contains "Reckless" (name p) then (reckless_randy_should_hit p, g)
  else if contains "Smart" (name p) then (smart_samantha_should_hit p (players g), g)
  else if contains "Chaotic" (name p) then
    let '(v, r) := uniform_int 0 1 (game_rng g) in (v =? 1, set_rng r g)
  else (hv <? 16, g).

Fixpoint npc_turn (fuel : nat) (i : nat) g : outcome (BlackjackGame G) :=
  match players g !! i with
  | None => Ok g
  | Some npc =>
      if busted npc || stood npc then Ok g
      else
        match fuel with
        | O => OutOfFuel
        | S fuel' =>
            let '(should_hit, g) := npc_should_hit npc g in
            if should_hit then
              g ←! deal_card_to i g;
              match players g !! i with
              | None => Ok g
              | Some npc' =>
                  if 21 <? hand_value npc' then Ok (alter_player i mark_busted g)
                  else npc_turn fuel' i g
              end
            else Ok (alter_player i mark_stood g)
        end
  end.

(** *** The profiles menu *)

Definition blank (l : string) : bool := bool_decide (skip_ws l = EmptyString).

(** [std::cin >> choice] followed by the [getline] that drops the rest of the
    line, read or not: [None] at the end of the input, otherwise the number
    read, if any, and the lines that remain. *)
Fixpoint read_choice (lines : list string) : option (option Z * list string) :=
  match lines with
  | [] => None
  | l :: ls =>
      if blank l then read_choice ls
      else Some (fst <$> extract_int l, ls)
  end.

Definition reset_profile (n : string) g : BlackjackGame G :=
  match persistent_stats g !! n with
  | None => g
  | Some _ =>
      let g := set_stats (<[n := no_stats]> (persistent_stats g)) g in
      let g := set_players
                 ((λ p, if decide (name p = n) then reset_chips (starting_chips g) false p else p)
                    <$> players g) g in
      save_stats g
  end.

Definition reset_all_profiles g : BlackjackGame G :=
  let g := set_stats ((λ _, no_stats) <$> persistent_stats g) g in
  let g := set_players (reset_chips (starting_chips g) true <$> players g) g in
  save_stats g.

Fixpoint display_profiles_menu (fuel : nat) g : outcome (BlackjackGame G) :=
  match fuel with
  | O => OutOfFuel
  | S fuel' =>
      match read_choice (cin g) with
      | None => Hang
      | Some (None, ls) => display_profiles_menu fuel' (set_cin ls g)
      | Some (Some choice, ls) =>
          let g := set_cin ls g in
          if choice =? 5 then Ok g
          else if choice =? 3 then
            let '(n, g) := getline_cin g in
            display_profiles_menu fuel' (reset_profile n g)
          else if choice =? 4 then display_profiles_menu fuel' (reset_all_profiles g)
          else if (choice =? 2) || (choice =? 6) || (choice =? 8) then
            display_profiles_menu fuel' (getline_cin g).2
          else display_profiles_menu fuel' g
      end
  end.

(** *** The human player's turn *)

Definition first_char (s : string) : ascii :=
  match s with String c _ => c | EmptyString => Ascii.zero end.

Definition human_hit (i : nat) g : outcome (BlackjackGame G) :=
  g ←! deal_card_to i g;
  match players g !! i with
  | None => Ok g
  | Some p =>
      if 21 <? hand_value p then
        let g := alter_player i mark_busted g in
        Ok (unlock_if (22 <=? hand_value p) (name p) "IT_HAPPENS" g)
      else Ok g
  end.

Definition human_discard (i : nat) g : BlackjackGame G :=
  match players g !! i with
  | None => g
  | Some p =>
      match last (hand p) with
      | None => g
      | Some top =>
          let g := alter_player i (set_hand (removelast (hand p))) g in
          set_deck (discard_card top (deck g)) g
      end
  end.

Fixpoint human_turn (fuel : nat) (i : nat) g : outcome (BlackjackGame G) :=
  match players g !! i with
  | None => Ok g
  | Some p =>
      if stood p || busted p then Ok g
      else
        match fuel with
        | O => OutOfFuel
        | S fuel' =>
            match cin g with
            | [] => Hang
            | _ :: _ =>
                let '(line, g) := getline_cin g in
                let '(line, g) := if decide (line = EmptyString) then getline_cin g else (line, g) in
                let c := first_char line in
                if Ascii.eqb c "h" then g ←! human_hit i g; human_turn fuel' i g
                else if Ascii.eqb c "s" then human_turn fuel' i (alter_player i mark_stood g)
                else if Ascii.eqb c "d" then human_turn fuel' i (human_discard i g)
                else if Ascii.eqb c "v" then
                  g ←! display_profiles_menu fuel' g; human_turn fuel' i g
                else if Ascii.eqb c "q" then Exited (save_stats g)
                else human_turn fuel' i g
            end
        end
  end.

Definition action_step (fuel : nat) (o : outcome (BlackjackGame G)) (i : nat)
  : outcome (BlackjackGame G) :=
  g ←! o;
  match players g !! i with
  | None => Ok g
  | Some p =>
      if chips p <? 0 then Ok g
      else if is_human p then
        (if negb (stood p || busted p) then human_turn fuel i g else Ok g)
      else
        (if negb (stood p || busted p) then npc_turn fuel i g else Ok g)
  end.

Definition action_loop (fuel : nat) g : outcome (BlackjackGame G) :=
  fold_left (action_step fuel) (roster g) (Ok g).
End round.

Section settlement.
Context {G : Type} `{!RandomEngine G}.
Implicit Types g : BlackjackGame G.

(** *** Winners *)

Definition best_step (best_value : Z) (p : Player) : Z :=
  if busted p then best_value
  else
    let hv := hand_value p in
    if (best_value <? hv) && (hv <=? 21) then hv else best_value.

Definition best_value_of (ps : list Player) : Z := fold_left best_step ps 0.

(** The second loop: the positions, from [i] on, of the players kept as
    winners; a position stands for the reference the source stores. *)
Fixpoint winners_from (best_value : Z) (i : nat) (ps : list Player) : list nat :=
  match ps with
  | [] => []
  | p :: ps' =>
      if busted p then winners_from best_value (S i) ps'
      else if hand_value p =? best_value then i :: winners_from best_value (S i) ps'
      else winners_from best_value (S i) ps'
  end.

Definition evaluate_winners (ps : list Player) : list nat :=
  winners_from (best_value_of ps) 0 ps.

(** *** Payouts *)

Definition pot_total g : Z := fold_left (λ tot e, tot + e.2) (betting_pot g) 0.

Definition bet_by_player_of (pot : list (string * Z)) : gmap string Z :=
  fold_left (λ m e, <[e.1 := default 0 (m !! e.1) + e.2]> m) pot ∅.

Definition payout_of (total_pot : Z) (n_winners : nat) (player_bet : Z) (winp : Player) : Z :=
  if player_bet <=? 0 then total_pot `quot` Z.of_nat n_winners
  else if is_blackjack (hand winp) then player_bet + (player_bet * 3) `quot` 2
  else player_bet * 2.

Definition pay_winner (total_pot : Z) (n_winners : nat) (bet_by_player : gmap string Z)
    (g : BlackjackGame G) (w : nat) : BlackjackGame G :=
  match players g !! w with
  | None => g
  | Some winp =>
      let player_bet := default 0 (bet_by_player !! name winp) in
      let payout := payout_of total_pot n_winners player_bet winp in
      let g := alter_player w (λ p, set_chips (chips p + payout) p) g in
      push_transaction payout g
  end.

(** A player after [winp.chips += payout]. *)
Definition paid (total_pot : Z) (n_winners : nat) (bet_by_player : gmap string Z)
    (p : Player) : Player :=
  set_chips
    (chips p + payout_of total_pot n_winners (default 0 (bet_by_player !! name p)) p) p.

Definition resolve_payouts_and_update_stats (winners : list nat) g : BlackjackGame G :=
  let total_pot := pot_total g in
  if total_pot <=? 0 then g
  else match winners with
       | [] => g
       | _ :: _ =>
           fold_left
             (pay_winner total_pot (length winners) (bet_by_player_of (betting_pot g)))
             winners g
       end.

(** *** Statistics after the round *)

Definition record_all_bust (g : BlackjackGame G) (p : Player) : BlackjackGame G :=
  if 0 <=? chips p then alter_stats (name p) count_loss g else g.

(** The body of the loop over the winners, for the winner [winp]. *)
Definition record_winner (g : BlackjackGame G) (winp : Player) : BlackjackGame G :=
  let g := alter_stats (name winp) count_win g in
  if is_blackjack (hand winp) then alter_stats (name winp) count_blackjack g else g.

Definition record_win (g : BlackjackGame G) (w : nat) : BlackjackGame G :=
  match players g !! w with
  | None => g
  | Some winp => record_winner g winp
  end.

Definition winner_names (winners : list nat) g : list string :=
  omap (λ w, name <$> players g !! w) winners.

Definition record_loss (names : list string) (g : BlackjackGame G) (p : Player)
  : BlackjackGame G :=
  if bool_decide (name p ∈ names) then g else alter_stats (name p) count_loss g.

Definition human_won (winners : list nat) g : bool :=
  existsb (λ w, match players g !! w with Some p => is_human p | None => false end) winners.

Definition you_stats g : BlackjackGame G * PlayerStats :=
  let g := set_stats (touch_stats "You" (persistent_stats g)) g in
  (g, stats_of (persistent_stats g) "You").

Definition human_win_achievements g : BlackjackGame G :=
  let g := unlock_if (existsb (λ v, 40 <=? v) (chip_transactions g)) "You" "HIGH_ROLLER" g in
  let '(g, you) := you_stats g in
  let g := unlock_if (10 <=? wins you) "You" "CARD_SHARK" g in
  let '(g, you) := you_stats g in
  let g := unlock_if (3 <=? current_streak you) "You" "HOT_STREAK" g in
  let human_post_chips :=
    fold_left (λ acc p, if is_human p then chips p else acc) (players g) 0 in
  let g := unlock_if (200 <=? human_post_chips) "You" "SURVIVOR" g in
  let g := unlock_if (300 <=? human_post_chips) "You" "UNSTOPPABLE" g in
  let opponent_had_20_or_21 :=
    existsb (λ p, negb (is_human p) && ((hand_value p =? 20) || (hand_value p =? 21)))
      (players g) in
  unlock_if opponent_had_20_or_21 "You" "AGAINST_ODDS" g.

Definition close_call (g : BlackjackGame G) (p : Player) : BlackjackGame G :=
  unlock_if (is_human p && stood p && (hand_value p =? 20)) (name p) "CLOSE_CALL" g.

(** What the three loops over players do to the record of the player they
    visit. *)
Definition win_update (p : Player) (s : PlayerStats) : PlayerStats :=
  if is_blackjack (hand p) then count_blackjack (count_win s) else count_win s.

Definition bust_update (p : Player) (s : PlayerStats) : PlayerStats :=
  if 0 <=? chips p then count_loss s else s.

Definition loss_update (names : list string) (p : Player) (s : PlayerStats) : PlayerStats :=
  if bool_decide (name p ∈ names) then s else count_loss s.

(** Two games in which a counter [π] reads the same under every name. *)
Definition same_counter (π : PlayerStats → Z) (g g' : BlackjackGame G) : Prop :=
  ∀ n, π (stats_of (persistent_stats g') n) = π (stats_of (persistent_stats g) n).

(** From "evaluate winners" to the last statistics update. *)
Definition settle g : BlackjackGame G :=
  let winners := evaluate_winners (players g) in
  match winners with
  | [] => fold_left record_all_bust (players g) g
  | _ :: _ =>
      let g := fold_left record_win winners g in
      let g := resolve_payouts_and_update_stats winners g in
      let g := if human_won winners g then human_win_achievements g
               else fold_left close_call (players g) g in
      fold_left (record_loss (winner_names winners g)) (players g) g
  end.

Definition post_round_achievements g : BlackjackGame G :=
  let '(g, you) := you_stats g in
  let g := unlock_if (20 <=? total_games you) "You" "MARATHONER" g in
  let '(g, you) := you_stats g in
  unlock_if (50 <=? total_games you) "You" "GAMBLER_SPIRIT" g.

(** *** One round *)

Definition play_round (fuel : nat) g : outcome (BlackjackGame G) :=
  let g := prepare_round g in
  let g := collect_bets g in
  g ←! initial_deal_animated g;
  let g := detect_blackjacks g in
  g ←! action_loop fuel g;
  Ok (save_stats (post_round_achievements (settle g))).
End settlement.

(** ** Hands as sums

    The two quantities that the loops of [compute_hand_value] accumulate,
    written as sums over the hand. *)

(** The value a card adds to the total: its table value, or nothing for a rank
    that is not in the table. *)
Definition card_value (c : Card) : Z := default 0 (RankValue !! rank c).

Definition raw_total (h : list Card) : Z := foldr (λ c t, card_value c + t) 0 h.

Definition ace_count (h : list Card) : Z :=
  Z.of_nat (length (filter (λ c, rank c = "A") h)).

(** The chips on the table. *)
Definition total_chips (ps : list Player) : Z := foldr (λ p t, chips p + t) 0 ps.

(** ** Relations between the states of a round *)

(** The ties counter under every name is as before, or is 0. *)
Definition ties_kept_or_reset {G : Type} (g g' : BlackjackGame G) : Prop :=
  ∀ n, ties (stats_of (persistent_stats g') n) = ties (stats_of (persistent_stats g) n)
       ∨ ties (stats_of (persistent_stats g') n) = 0.

(** A relation between a state and the state in which a call ends, when it
    ends: by returning or by leaving the process. *)
Definition outcome_rel {S : Type} (P : S → S → Prop) (s : S) (o : outcome S) : Prop :=
  match o with
  | Ok s' | Exited s' => P s s'
  | Undefined | Hang | OutOfFuel => True
  end.

(** What reading from standard input or drawing a random number leaves alone. *)
Definition same_table {G : Type} (g g' : BlackjackGame G) : Prop :=
  players g' = players g ∧ betting_pot g' = betting_pot g
  ∧ chip_transactions g' = chip_transactions g ∧ deck g' = deck g
  ∧ turn_queue g' = turn_queue g ∧ bet_amount g' = bet_amount g
  ∧ starting_chips g' = starting_chips g.

(** A player who is as before but for the hand. *)
Definition same_seat (p p' : Player) : Prop :=
  name p' = name p ∧ is_human p' = is_human p ∧ chips p' = chips p
  ∧ stood p' = stood p ∧ busted p' = busted p
  ∧ wager_history p' = wager_history p ∧ last_bet p' = last_bet p.

(** The cards of the pack: those [build_new_deck] makes. *)
Definition pack_card (c : Card) : Prop := rank c ∈ RankNames.

Definition pack_deck {G : Type} (d : Deck G) : Prop :=
  Forall pack_card (container d) ∧ Forall pack_card (discard d).

(** The total of a hand with every ace at 1. *)
Definition hard_total (h : list Card) : Z := raw_total h - 10 * ace_count h.

(** The [busted] flag says what the hand says. *)
Definition flags_agree (p : Player) : Prop := busted p = true ↔ 21 < hand_value p.

(** The cards of a player are pack cards and the flag agrees with them. *)
Definition sound_player (p : Player) : Prop := Forall pack_card (hand p) ∧ flags_agree p.

Definition sound_table {G : Type} (g : BlackjackGame G) : Prop :=
  pack_deck (deck g) ∧ Forall sound_player (players g).

(** A property of the state in which a call ends, when it ends. *)
Definition outcome_post {S : Type} (Q : S → Prop) (o : outcome S) : Prop :=
  match o with
  | Ok s' | Exited s' => Q s'
  | Undefined | Hang | OutOfFuel => True
  end.

(** What a step that only talks (reads input, writes statistics) leaves
    alone. *)
Definition same_play {G : Type} (g g' : BlackjackGame G) : Prop :=
  players g' = players g ∧ deck g' = deck g ∧ cin g' = cin g.

(** What the turn of the player at [i] leaves alone when it deals cards and
    sets flags only. *)
Definition turn_frame {G : Type} (i : nat) (g g' : BlackjackGame G) : Prop :=
  (∀ j, j ≠ i → players g' !! j = players g !! j)
  ∧ length (players g') = length (players g)
  ∧ persistent_stats g' = persistent_stats g ∧ betting_pot g' = betting_pot g
  ∧ chip_transactions g' = chip_transactions g ∧ stats_file g' = stats_file g
  ∧ cin g' = cin g.

(** A player at the end of a turn: the same seat, the former hand with the
    cards drawn after it, and one of the two flags set. *)
Definition played_on (p p' : Player) : Prop :=
  name p' = name p ∧ is_human p' = is_human p ∧ chips p' = chips p
  ∧ (∃ extra, hand p' = (hand p ++ extra)%list)
  ∧ (busted p' = true ∨ stood p' = true).

(** What the settlement does to the record of the player [p] at position
    [i]: the winners' update, the losers' update, or nothing for a player with
    a negative balance when everybody is busted. *)
Definition settle_update {G : Type} `{!RandomEngine G} (g : BlackjackGame G)
    (i : nat) (p : Player) (s : PlayerStats) : PlayerStats :=
  if decide (i ∈ evaluate_winners (players g)) then win_update p s
  else if decide (evaluate_winners (players g) = [] ∧ chips p < 0) then s
  else count_loss s.

(** The counters of a record: everything but the achievements. *)
Definition counters (s : PlayerStats) : list Z :=
  [wins s; losses s; ties s; best_streak s; current_streak s; biggest_win s;
   total_games s; blackjacks s].

(** No achievement is lost from the first state to the second. *)
Definition achievements_kept {G : Type} (g g' : BlackjackGame G) : Prop :=
  ∀ n, achievements (stats_of (persistent_stats g) n)
       ⊆ achievements (stats_of (persistent_stats g') n).

(** The statistics file holds the statistics in memory. *)
Definition synced {G : Type} (g : BlackjackGame G) : Prop :=
  stats_file g = save_stats_to_file (persistent_stats g).

(** ** Tables used in the examples *)

Definition cards (l : list (string * Suit)) : list Card := (λ x, mkCard x.1 x.2) <$> l.

Definition no_lookahead : list string → bool := λ _, false.

(** Two players with 100 chips each, table minimum 20, and a shoe of fifteen
    cards that deals an ace and a king to the first player. *)
Definition blackjack_table : BlackjackGame nat :=
  mkGame
    (mkDeck
       (cards [("A", Spades); ("10", Hearts); ("K", Hearts); ("9", Clubs);
               ("2", Clubs); ("3", Clubs); ("4", Clubs); ("5", Clubs); ("6", Clubs);
               ("7", Clubs); ("8", Clubs); ("2", Hearts); ("3", Hearts); ("4", Hearts);
               ("5", Hearts)])
       [] ∅ 0%nat 1)
    (<["You" := no_stats]> (<["Cautious Carl" := no_stats]> ∅))
    [new_player "You" true 100; new_player "Cautious Carl" false 100]
    [] [] [] 100 20 0%nat "" [""] no_lookahead.

(** The same table with a second player who starts the round without chips;
    the human player accepts the default bet and stands. *)
Definition zero_chip_table : BlackjackGame nat :=
  mkGame
    (mkDeck
       (cards [("10", Spades); ("5", Hearts); ("9", Hearts); ("4", Clubs);
               ("8", Clubs); ("3", Clubs); ("4", Diamonds); ("5", Clubs); ("6", Clubs);
               ("7", Clubs); ("8", Diamonds); ("2", Hearts); ("3", Hearts); ("4", Hearts);
               ("5", Diamonds)])
       [] ∅ 0%nat 1)
    (<["You" := no_stats]> (<["Cautious Carl" := no_stats]> ∅))
    [new_player "You" true 100; new_player "Cautious Carl" false 0]
    [] [] [] 100 20 0%nat "" [""; "s"] no_lookahead.

(** A player as the action loop leaves it. *)
Definition seated (n : string) (human : bool) (balance : Z) (h : list (string * Suit))
    (is_busted : bool) : Player :=
  {| name := n; is_human := human; chips := balance; hand := cards h;
     active := false; stood := negb is_busted; busted := is_busted;
     wager_history := []; last_bet := 0 |}.

Definition table_with (ps : list Player) (pot : list (string * Z)) : BlackjackGame nat :=
  mkGame (mkDeck [] [] ∅ 0%nat 1) ∅ ps [] pot [] 100 20 0%nat "" [] no_lookahead.

(** The settlement example of the spec: 18 standing, a natural blackjack, and
    a player marked busted, each with a stake of 20. *)
Definition settlement_table : BlackjackGame nat :=
  table_with
    [seated "Cautious Carl" false 80 [("10", Clubs); ("8", Hearts)] false;
     seated "You" true 80 [("A", Spades); ("K", Hearts)] false;
     seated "Reckless Randy" false 80 [("10", Diamonds); ("9", Hearts)] true]
    [("Cautious Carl", 20); ("You", 20); ("Reckless Randy", 20)].

(** A natural blackjack on a stake of 5. *)
Definition odd_stake_table : BlackjackGame nat :=
  table_with
    [seated "You" true 95 [("A", Spades); ("K", Hearts)] false;
     seated "Cautious Carl" false 95 [("10", Clubs); ("8", Hearts)] false]
    [("You", 5); ("Cautious Carl", 5)].

(** Everybody is busted. *)
Definition all_bust_table : BlackjackGame nat :=
  table_with
    [seated "You" true 80 [("10", Clubs); ("8", Hearts); ("5", Clubs)] true;
     seated "Cautious Carl" false 80 [("9", Spades); ("7", Hearts); ("K", Clubs)] true]
    [("You", 20); ("Cautious Carl", 20)].

(** Statistics of two players, one of them with achievements. *)
Definition sample_stats : gmap string PlayerStats :=
  <["You" := mkStats 12 7 0 4 2 0 19 3 {["BLACKJACK"; "CARD_SHARK"; "HOT_STREAK"]}]>
    (<["Cautious Carl" := mkStats 5 14 0 2 0 0 19 1 ∅]> ∅).

(** A record under a name that contains the placeholder character. *)
Definition underscore_stats : gmap string PlayerStats := {["a_b" := no_stats]}.

(** * Properties *)

(** ** Hand valuation *)

Lemma RankValue_lookup (r : string) (v : Z) :
  RankValue !! r = Some v → (r, v) ∈ RankValue_entries.
Proof. intros H. by apply elem_of_list_to_map_2 in H. Qed.

Lemma RankValue_cases (r : string) (v : Z) :
  RankValue !! r = Some v → 2 ≤ v ≤ 11 ∧ (r = "A" ↔ v = 11).
Proof.
  intros H%RankValue_lookup. unfold RankValue_entries in H.
  repeat (apply elem_of_cons in H as [H|H];
          [ injection H as -> ->;
            split; [lia | split; intros ?; first [done | lia | discriminate]] | ]).
  by apply elem_of_nil in H.
Qed.

Lemma RankValue_ace : RankValue !! "A" = Some 11.
Proof. reflexivity. Qed.

Lemma soft_step_value_step (acc : Z * Z) (c : Card) : soft_step acc c = value_step acc c.
Proof.
  destruct acc as [t a]. unfold soft_step, value_step.
  destruct (RankValue !! rank c) as [v|] eqn:E; [done|].
  destruct (decide (rank c = "A")) as [e|]; [|done].
  rewrite e, RankValue_ace in E. discriminate.
Qed.

Lemma fold_soft_step (h : list Card) (acc : Z * Z) :
  fold_left soft_step h acc = fold_left value_step h acc.
Proof.
  revert acc. induction h as [|c h IH]; intros acc; simpl; [done|].
  by rewrite soft_step_value_step, IH.
Qed.

(** Each counted ace brought 11 into the raw total. *)
Lemma fold_value_step_bounds (h : list Card) (t a : Z) :
  0 ≤ a → 11 * a ≤ t →
  0 ≤ (fold_left value_step h (t, a)).2
  ∧ 11 * (fold_left value_step h (t, a)).2 ≤ (fold_left value_step h (t, a)).1.
Proof.
  revert t a. induction h as [|c h IH]; intros t a Ha Ht; simpl; [done|].
  destruct (RankValue !! rank c) as [v|] eqn:E; [|by apply IH].
  apply RankValue_cases in E as [Hv Hace].
  destruct (decide (rank c = "A")) as [e|ne].
  - apply IH; [lia|]. apply Hace in e. lia.
  - apply IH; lia.
Qed.

Lemma reduce_aces_spec (fuel : nat) (t a : Z) :
  0 ≤ a → (Z.to_nat a ≤ fuel)%nat →
  let r := reduce_aces fuel t a in
  0 ≤ r.2 ≤ a ∧ r.1 = t - 10 * (a - r.2) ∧ (r.1 ≤ 21 ∨ r.2 = 0)
  ∧ (t ≤ 21 → r = (t, a)) ∧ (0 ≤ t → 0 ≤ r.1).
Proof.
  revert t a. induction fuel as [|fuel IH]; intros t a Ha Hf; simpl.
  - assert (a = 0) by lia. subst. repeat split; try lia; auto.
  - destruct (21 <? t) eqn:Et; simpl.
    + destruct (0 <? a) eqn:Ea; simpl.
      * apply Z.ltb_lt in Et, Ea.
        destruct (IH (t - 10) (a - 1)) as (H1 & H2 & H3 & H4 & H5); [lia | lia |].
        repeat split; try lia; auto.
      * apply Z.ltb_ge in Ea. assert (a = 0) by lia. subst.
        repeat split; try lia; auto.
    + apply Z.ltb_ge in Et. repeat split; try lia; auto.
Qed.

Lemma adjusted_hand_spec (h : list Card) :
  let raw := fold_left value_step h (0, 0) in
  let r := adjusted_hand h in
  0 ≤ raw.2 ∧ 11 * raw.2 ≤ raw.1
  ∧ 0 ≤ r.2 ≤ raw.2 ∧ r.1 = raw.1 - 10 * (raw.2 - r.2) ∧ (r.1 ≤ 21 ∨ r.2 = 0)
  ∧ (raw.1 ≤ 21 → r = raw) ∧ 0 ≤ r.1.
Proof.
  intros raw r. subst r. unfold adjusted_hand. fold raw.
  destruct (fold_value_step_bounds h 0 0) as [Ha Ht]; [lia | lia |].
  fold raw in Ha, Ht. destruct raw as [t a]; simpl in *.
  destruct (reduce_aces_spec (Z.to_nat a) t a) as (H1 & H2 & H3 & H4 & H5); [lia | lia |].
  repeat split; try lia; auto.
Qed.

Lemma compute_hand_value_nonneg (h : list Card) : 0 ≤ compute_hand_value h.
Proof. unfold compute_hand_value. apply (adjusted_hand_spec h). Qed.

(** What [is_soft_hand] computes: an ace is present and the raw total, with
    every ace at 11, is at most 21. *)
Lemma is_soft_hand_raw (h : list Card) :
  is_soft_hand h = true ↔
  0 < (fold_left value_step h (0, 0)).2 ∧ (fold_left value_step h (0, 0)).1 ≤ 21.
Proof.
  unfold is_soft_hand. rewrite fold_soft_step.
  destruct (fold_left value_step h (0, 0)) as [t a]; simpl.
  rewrite andb_true_iff, Z.ltb_lt, Z.leb_le. done.
Qed.

(** [is_soft_hand] never calls a hard hand soft. *)
Lemma is_soft_hand_sound (h : list Card) :
  is_soft_hand h = true → spec_is_soft h = true.
Proof.
  intros [Ha Ht]%is_soft_hand_raw.
  unfold spec_is_soft, aces_counted_as_11.
  destruct (adjusted_hand_spec h) as (_ & _ & _ & _ & _ & Heq & _).
  rewrite Heq by done. by apply Z.ltb_lt.
Qed.

(** With at most one ace in the hand the two notions agree. *)
Lemma is_soft_hand_one_ace (h : list Card) :
  (fold_left value_step h (0, 0)).2 ≤ 1 → is_soft_hand h = spec_is_soft h.
Proof.
  intros Hone. destruct (is_soft_hand h) eqn:E.
  - symmetry. by apply is_soft_hand_sound.
  - symmetry. apply not_true_is_false. intros Hs. apply not_true_iff_false in E. apply E.
    apply is_soft_hand_raw.
    unfold spec_is_soft, aces_counted_as_11 in Hs. apply Z.ltb_lt in Hs.
    destruct (adjusted_hand_spec h) as (H0 & H1 & H2 & H3 & H4 & H5 & H6).
    split; [lia|]. destruct H4 as [H4|H4]; [|lia].
    assert ((adjusted_hand h).2 = (fold_left value_step h (0, 0)).2) as Hsame by lia.
    rewrite Hsame in H3. lia.
Qed.

(** The decision of [smart_samantha_should_hit] is the Analytical rule applied
    to what [is_soft_hand] answers. *)
Lemma smart_samantha_rule (p : Player) (all_players : list Player) :
  smart_samantha_should_hit p all_players =
  spec_analytical_should_hit (is_soft_hand (hand p)) (hand_value p)
    (get_visible_highest_card_value all_players (name p)).
Proof.
  unfold smart_samantha_should_hit, spec_analytical_should_hit.
  destruct (is_soft_hand (hand p));
    repeat match goal with
           | |- context [?a <=? ?b] => destruct (Z.leb_spec a b)
           | |- context [?a <? ?b] => destruct (Z.ltb_spec a b)
           | |- context [?a =? ?b] => destruct (Z.eqb_spec a b)
           end; simpl; try reflexivity; try lia.
Qed.

(** ** The shoe *)

Section deck_facts.
Context {G : Type} `{!RandomEngine G}.
Implicit Types d : Deck G.

Lemma std_shuffle_nil (g : G) : (std_shuffle g []).1 = [].
Proof. apply Permutation_nil. symmetry. apply std_shuffle_perm. Qed.

Lemma shuffle_deck_container d : Permutation (container (shuffle_deck d)) (container d).
Proof.
  unfold shuffle_deck. pose proof (std_shuffle_perm (rng d) (container d)) as Hp.
  destruct (std_shuffle (rng d) (container d)) as [tmp g]. exact Hp.
Qed.

Lemma shuffle_deck_discard d : discard (shuffle_deck d) = discard d.
Proof. unfold shuffle_deck. by destruct (std_shuffle (rng d) (container d)). Qed.

Lemma shuffle_deck_decks d : decks (shuffle_deck d) = decks d.
Proof. unfold shuffle_deck. by destruct (std_shuffle (rng d) (container d)). Qed.

Lemma length_one_deck : length one_deck = 52%nat.
Proof. reflexivity. Qed.

Lemma length_repeat_deck (n : nat) : length (repeat_deck n) = (52 * n)%nat.
Proof.
  induction n as [|n IH]; [reflexivity|].
  cbn [repeat_deck]. rewrite length_app, IH, length_one_deck. lia.
Qed.

(** A freshly built shoe holds 52 cards per deck. *)
Lemma build_new_deck_size d : size (build_new_deck d) = 52 * Z.max 0 (decks d).
Proof. unfold size, build_new_deck; simpl. rewrite length_repeat_deck. lia. Qed.

Lemma deal_one_nonempty d c rest :
  container d = c :: rest →
  deal_one d = Some (c, {| container := rest; discard := discard d;
                           seen_cards := {[canonical c]} ∪ seen_cards d;
                           rng := rng d; decks := decks d |}).
Proof. intros E. unfold deal_one. rewrite E. cbn. by rewrite E. Qed.

Lemma deal_one_empty d :
  container d = [] →
  deal_one d =
  match container (refill d) with
  | [] => None
  | c :: rest =>
      Some (c, {| container := rest; discard := discard (refill d);
                  seen_cards := {[canonical c]} ∪ seen_cards (refill d);
                  rng := rng (refill d); decks := decks (refill d) |})
  end.
Proof. intros E. unfold deal_one. by rewrite E. Qed.

(** The deal out of the folded-back discard pile. *)
Lemma deal_one_fold_back d top below c d' :
  container d = [] → discard d = top :: below → deal_one d = Some (c, d') →
  discard d' = [top] ∧ Permutation (c :: container d') below.
Proof.
  intros Ec Ed. rewrite (deal_one_empty d Ec). unfold refill. rewrite Ec, Ed. simpl.
  set (d0 := {| container := below; discard := [top]; seen_cards := seen_cards d;
                rng := rng d; decks := decks d |}).
  pose proof (shuffle_deck_container d0) as Hp.
  pose proof (shuffle_deck_discard d0) as Hd.
  destruct (container (shuffle_deck d0)) as [|c0 rest]; [done|].
  intros [= <- <-]. simpl. split; [exact Hd | exact Hp].
Qed.

(** The deal out of a freshly built shoe. *)
Lemma deal_one_rebuild d c d' :
  container d = [] → discard d = [] → deal_one d = Some (c, d') →
  discard d' = [] ∧ Permutation (c :: container d') (repeat_deck (Z.to_nat (decks d))).
Proof.
  intros Ec Ed. rewrite (deal_one_empty d Ec). unfold refill. rewrite Ed.
  pose proof (shuffle_deck_container (build_new_deck d)) as Hp.
  pose proof (shuffle_deck_discard (build_new_deck d)) as Hd.
  destruct (container (shuffle_deck (build_new_deck d))) as [|c0 rest]; [done|].
  intros [= <- <-]. simpl. split; [by rewrite Hd | exact Hp].
Qed.

(** Where [deal_one] returns a card. *)
Lemma deal_one_is_Some d :
  container d ≠ [] ∨ (2 ≤ length (discard d))%nat ∨ (discard d = [] ∧ 1 ≤ decks d) →
  is_Some (deal_one d).
Proof.
  intros Hcase.
  destruct (container d) as [|c rest] eqn:Ec;
    [|rewrite (deal_one_nonempty d c rest Ec); by eexists].
  rewrite (deal_one_empty d Ec). unfold refill.
  destruct (discard d) as [|top below] eqn:Ed.
  - destruct Hcase as [?|[?|[_ Hn]]]; [done | simpl in *; lia |].
    pose proof (shuffle_deck_container (build_new_deck d)) as Hp.
    destruct (container (shuffle_deck (build_new_deck d))) as [|c0 rest]; [|by eexists].
    apply Permutation_length in Hp. simpl in Hp.
    rewrite length_repeat_deck in Hp. lia.
  - destruct Hcase as [?|[Hl|[? _]]]; [done | | done].
    set (d0 := {| container := container d ++ below; discard := [top];
                  seen_cards := seen_cards d; rng := rng d; decks := decks d |}).
    pose proof (shuffle_deck_container d0) as Hp.
    destruct (container (shuffle_deck d0)) as [|c0 rest]; [|by eexists].
    apply Permutation_length in Hp. subst d0. simpl in Hp, Hl.
    rewrite Ec in Hp. simpl in Hp. lia.
Qed.

(** A step that builds no fresh shoe keeps the cards in play. *)
Lemma shoe_step_conserves op (s s1 : Deck G * list Card) :
  rebuilds op s.1 = false → shoe_step op s = Some s1 →
  Permutation (cards_in_play s1) (cards_in_play s).
Proof.
  destruct s as [d held]. unfold cards_in_play. simpl.
  destruct op as [|i|]; simpl; intros Hr Hs.
  - destruct (deal_one d) as [[c d']|] eqn:Hdeal; [|done].
    simpl in Hs. injection Hs as <-. simpl.
    destruct (container d) as [|c0 rest] eqn:Ec.
    + destruct (discard d) as [|top below] eqn:Ed.
      { by vm_compute in Hr. }
      destruct (deal_one_fold_back d top below c d' Ec Ed Hdeal) as [Hd Hp].
      rewrite Hd, <- Hp. simpl.
      rewrite <- Permutation_middle. apply perm_skip.
      rewrite app_assoc, <- Permutation_cons_append. done.
    + rewrite (deal_one_nonempty d c0 rest Ec) in Hdeal.
      injection Hdeal as <- <-. simpl.
      rewrite !app_assoc. rewrite <- Permutation_cons_append. done.
  - destruct (held !! i) as [c|] eqn:Hi; [|done].
    simpl in Hs. injection Hs as <-. simpl.
    apply Permutation_app_head. simpl.
    transitivity ((discard d ++ c :: delete i held)%list); [apply Permutation_middle|].
    apply Permutation_app_head. symmetry. by apply delete_Permutation.
  - injection Hs as <-. unfold low_card_reshuffle. simpl. by rewrite Hr.
Qed.
End deck_facts.

Section shoe_claims.
Context {G : Type} `{!RandomEngine G}.

(** C1. [deal_one] does not always return a card: with an empty undealt
    sequence and a discard pile of exactly one card, the fold-back moves
    nothing into the undealt sequence, that one card stays on the discard
    pile, and the front of an empty sequence is taken, whatever the card,
    the engine state and the number of decks are. *)
Theorem deal_one_single_discard_undefined
    (c : Card) (seen : gset string) (g : G) (n : Z) :
  deal_one (mkDeck [] [c] seen g n) = None.
Proof.
  rewrite deal_one_empty by done. unfold refill, shuffle_deck. simpl.
  pose proof (std_shuffle_nil g) as Hnil.
  destruct (std_shuffle g []) as [tmp g']. simpl in *. by rewrite Hnil.
Qed.

End shoe_claims.



(** C2. [is_soft_hand] answers no for a pair of aces, whose value is 12 with
    one ace still counted as 11. *)
Theorem is_soft_hand_pair_of_aces :
  let h := [mkCard "A" Spades; mkCard "A" Hearts] in
  compute_hand_value h = 12
  ∧ aces_counted_as_11 h = 1
  ∧ spec_is_soft h = true
  ∧ is_soft_hand h = false.
Proof. vm_compute. done. Qed.

(** C8. With two aces and a six, a soft 18, against a visible king, the
    Analytical rule says hit; [smart_samantha_should_hit] takes the hand for a
    hard 18 and stands. *)
Theorem smart_samantha_soft_18_stands :
  let samantha :=
    set_hand [mkCard "A" Spades; mkCard "A" Hearts; mkCard "6" Diamonds]
      (new_player "Smart Samantha" false 100) in
  let you := set_hand [mkCard "K" Clubs; mkCard "5" Diamonds] (new_player "You" true 100) in
  let table := [you; samantha] in
  hand_value samantha = 18
  ∧ spec_is_soft (hand samantha) = true
  ∧ get_visible_highest_card_value table (name samantha) = 10
  ∧ spec_analytical_should_hit (spec_is_soft (hand samantha)) (hand_value samantha)
      (get_visible_highest_card_value table (name samantha)) = true
  ∧ smart_samantha_should_hit samantha table = false.
Proof. vm_compute. done. Qed.

(** ** Winners *)

Lemma hand_value_nonneg (p : Player) : 0 ≤ hand_value p.
Proof. apply compute_hand_value_nonneg. Qed.

(** What the first loop of the evaluation leaves in [best_value]. *)
Lemma best_fold_spec (ps : list Player) (b : Z) :
  let r := fold_left best_step ps b in
  b ≤ r
  ∧ (∀ q, q ∈ ps → busted q = false → hand_value q ≤ 21 → hand_value q ≤ r)
  ∧ (r = b ∨ ∃ q, q ∈ ps ∧ busted q = false ∧ hand_value q ≤ 21 ∧ hand_value q = r).
Proof.
  revert b. induction ps as [|p ps IH]; intros b; simpl.
  - split; [lia|]. split; [|by left]. intros q Hq. by apply elem_of_nil in Hq.
  - destruct (IH (best_step b p)) as (H1 & H2 & H3).
    assert (b ≤ best_step b p) as Hb.
    { unfold best_step. destruct (busted p); [lia|].
      destruct (Z.ltb_spec b (hand_value p)); simpl; [|lia].
      destruct (Z.leb_spec (hand_value p) 21); lia. }
    split; [lia|]. split.
    + intros q Hq Hnb Hle. apply elem_of_cons in Hq as [->|Hq]; [|by apply H2].
      transitivity (best_step b p); [|done].
      unfold best_step. rewrite Hnb.
      destruct (Z.ltb_spec b (hand_value p)); simpl; [|lia].
      destruct (Z.leb_spec (hand_value p) 21); lia.
    + destruct H3 as [H3|(q & Hq & Hnb & Hle & Heq)].
      * rewrite H3. unfold best_step.
        destruct (busted p) eqn:Hbp; [by left|].
        destruct (Z.ltb_spec b (hand_value p)); simpl; [|by left].
        destruct (Z.leb_spec (hand_value p) 21); [|by left].
        right. exists p. split; [apply elem_of_cons; by left|done].
      * right. exists q. split; [apply elem_of_cons; by right|done].
Qed.

(** What the second loop collects. *)
Lemma elem_of_winners_from (best : Z) (ps : list Player) (i j : nat) :
  j ∈ winners_from best i ps ↔
  (i ≤ j)%nat ∧ ∃ p, ps !! (j - i)%nat = Some p ∧ busted p = false ∧ hand_value p = best.
Proof.
  revert i. induction ps as [|p ps IH]; intros i; simpl.
  - split; [intros H; by apply elem_of_nil in H|]. intros (_ & q & Hq & _). done.
  - assert (j ∈ winners_from best (S i) ps ↔
            (i < j)%nat ∧ ∃ q, (p :: ps) !! (j - i)%nat = Some q
                             ∧ busted q = false ∧ hand_value q = best) as Htail.
    { rewrite IH. split.
      - intros (Hle & q & Hq & Hrest). split; [lia|]. exists q. split; [|done].
        replace (j - i)%nat with (S (j - S i)) by lia. done.
      - intros (Hlt & q & Hq & Hrest). split; [lia|]. exists q. split; [|done].
        replace (j - i)%nat with (S (j - S i)) in Hq by lia. done. }
    assert (∀ P : Prop, (j = i ∧ P) ∨ j ∈ winners_from best (S i) ps →
              (P → busted p = false ∧ hand_value p = best) →
              (i ≤ j)%nat ∧ ∃ q, (p :: ps) !! (j - i)%nat = Some q
                               ∧ busted q = false ∧ hand_value q = best) as Hin.
    { intros P [[-> HP]|Hj] Hp.
      - split; [lia|]. exists p. rewrite Nat.sub_diag. split; [done|]. by apply Hp.
      - apply Htail in Hj as [? ?]. split; [lia|done]. }
    destruct (busted p) eqn:Hbp.
    + split.
      * intros Hj. apply (Hin False); [by right|done].
      * intros (Hle & q & Hq & Hnb & Hv). apply Htail. split; [|by exists q].
        destruct (decide (j = i)) as [->|]; [|lia].
        rewrite Nat.sub_diag in Hq. simpl in Hq. injection Hq as <-. congruence.
    + destruct (Z.eqb_spec (hand_value p) best) as [Hv|Hv].
      * rewrite elem_of_cons. split.
        -- intros [->|Hj]; [apply (Hin True); [by left|done] | apply (Hin True); [by right|done]].
        -- intros (Hle & q & Hq & Hnb & Hvq).
           destruct (decide (j = i)) as [->|]; [by left|]. right.
           apply Htail. split; [lia|by exists q].
      * split.
        -- intros Hj. apply (Hin False); [by right|done].
        -- intros (Hle & q & Hq & Hnb & Hvq). apply Htail. split; [|by exists q].
           destruct (decide (j = i)) as [->|]; [|lia].
           rewrite Nat.sub_diag in Hq. simpl in Hq. injection Hq as <-. done.
Qed.

Lemma elem_of_evaluate_winners (ps : list Player) (j : nat) :
  j ∈ evaluate_winners ps ↔
  ∃ p, ps !! j = Some p ∧ busted p = false ∧ hand_value p = best_value_of ps.
Proof.
  unfold evaluate_winners. rewrite elem_of_winners_from, Nat.sub_0_r.
  split; [by intros [_ ?]|]. intros ?. split; [lia|done].
Qed.

Lemma winners_from_NoDup (best : Z) (ps : list Player) (i : nat) :
  NoDup (winners_from best i ps).
Proof.
  revert i. induction ps as [|p ps IH]; intros i; simpl; [constructor|].
  destruct (busted p); [apply IH|].
  destruct (hand_value p =? best); [|apply IH].
  constructor; [|apply IH].
  rewrite elem_of_winners_from. intros [? _]. lia.
Qed.

Lemma evaluate_winners_NoDup (ps : list Player) : NoDup (evaluate_winners ps).
Proof. apply winners_from_NoDup. Qed.

(** A winner is a standing player whose hand value is at most 21 and is not
    beaten by any standing player's value of at most 21. *)
Lemma evaluate_winners_spec (ps : list Player) (i : nat) :
  i ∈ evaluate_winners ps ↔
  ∃ p, ps !! i = Some p ∧ busted p = false ∧ hand_value p ≤ 21
       ∧ ∀ q, q ∈ ps → busted q = false → hand_value q ≤ 21 → hand_value q ≤ hand_value p.
Proof.
  rewrite elem_of_evaluate_winners. unfold best_value_of.
  destruct (best_fold_spec ps 0) as (H1 & H2 & H3). simpl in *.
  split.
  - intros (p & Hp & Hnb & Hv). exists p. split; [done|]. split; [done|].
    rewrite Hv. split.
    + destruct H3 as [->|(q & _ & _ & Hq & <-)]; [lia|done].
    + intros q. apply H2.
  - intros (p & Hp & Hnb & Hle & Hmax). exists p. split; [done|]. split; [done|].
    apply Z.le_antisymm.
    + apply H2; [|done|done]. by eapply list_elem_of_lookup_2.
    + destruct H3 as [->|(q & Hq & Hqb & Hq21 & <-)]; [apply hand_value_nonneg|].
      by apply Hmax.
Qed.

Lemma evaluate_winners_all_busted (ps : list Player) :
  (∀ p, p ∈ ps → busted p = true) → evaluate_winners ps = [].
Proof.
  intros Hall. apply elem_of_nil_inv. intros i (p & Hp & Hnb & _)%elem_of_evaluate_winners.
  apply list_elem_of_lookup_2 in Hp. apply Hall in Hp. congruence.
Qed.

(** ** Settlement *)

Section settlement_facts.
Context {G : Type} `{!RandomEngine G}.
Implicit Types g : BlackjackGame G.

(** *** What each step leaves alone *)

Lemma fold_left_preserves {A B : Type} (proj : BlackjackGame G → B)
    (f : BlackjackGame G → A → BlackjackGame G) (l : list A) g :
  (∀ g x, proj (f g x) = proj g) → proj (fold_left f l g) = proj g.
Proof.
  intros Hf. revert g. induction l as [|x l IH]; intros g; simpl; [done|].
  by rewrite IH, Hf.
Qed.

Lemma unlock_players n k g : players (unlock_achievement_for n k g) = players g.
Proof.
  unfold unlock_achievement_for. destruct (persistent_stats g !! n); [|done].
  by destruct (decide _).
Qed.

Lemma unlock_pot n k g : betting_pot (unlock_achievement_for n k g) = betting_pot g.
Proof.
  unfold unlock_achievement_for. destruct (persistent_stats g !! n); [|done].
  by destruct (decide _).
Qed.

Lemma unlock_transactions n k g :
  chip_transactions (unlock_achievement_for n k g) = chip_transactions g.
Proof.
  unfold unlock_achievement_for. destruct (persistent_stats g !! n); [|done].
  by destruct (decide _).
Qed.

Lemma unlock_if_players b n k g : players (unlock_if b n k g) = players g.
Proof. destruct b; [apply unlock_players|done]. Qed.

Lemma unlock_if_transactions b n k g :
  chip_transactions (unlock_if b n k g) = chip_transactions g.
Proof. destruct b; [apply unlock_transactions|done]. Qed.

Lemma record_all_bust_players g p : players (record_all_bust g p) = players g.
Proof. unfold record_all_bust. by destruct (0 <=? chips p). Qed.

Lemma record_all_bust_transactions g p :
  chip_transactions (record_all_bust g p) = chip_transactions g.
Proof. unfold record_all_bust. by destruct (0 <=? chips p). Qed.

Lemma record_winner_players g p : players (record_winner g p) = players g.
Proof. unfold record_winner. by destruct (is_blackjack (hand p)). Qed.

Lemma record_win_players g w : players (record_win g w) = players g.
Proof.
  unfold record_win. destruct (players g !! w) as [p|]; [|done].
  apply record_winner_players.
Qed.

Lemma record_win_pot g w : betting_pot (record_win g w) = betting_pot g.
Proof.
  unfold record_win, record_winner. destruct (players g !! w) as [p|]; [|done].
  by destruct (is_blackjack (hand p)).
Qed.

Lemma record_loss_players names g p : players (record_loss names g p) = players g.
Proof. unfold record_loss. by destruct (bool_decide _). Qed.

Lemma close_call_players g p : players (close_call g p) = players g.
Proof. apply unlock_if_players. Qed.

Lemma human_win_achievements_players g : players (human_win_achievements g) = players g.
Proof.
  unfold human_win_achievements, you_stats. cbn zeta.
  repeat (rewrite unlock_if_players; cbn [players set_stats]). done.
Qed.

(** *** Payouts *)

Lemma pay_fold_lookup total_pot n bbp (ws : list nat) g (i : nat) :
  NoDup ws →
  players (fold_left (pay_winner total_pot n bbp) ws g) !! i =
  if decide (i ∈ ws) then paid total_pot n bbp <$> players g !! i else players g !! i.
Proof.
  revert g. induction ws as [|w ws IH]; intros g Hnd; simpl.
  - destruct (decide (i ∈ [])) as [Hi|]; [by apply elem_of_nil in Hi|done].
  - apply NoDup_cons in Hnd as [Hw Hnd]. rewrite IH by done.
    assert (players (pay_winner total_pot n bbp g w) !! w = paid total_pot n bbp <$> players g !! w
            ∧ ∀ j, j ≠ w → players (pay_winner total_pot n bbp g w) !! j = players g !! j)
      as [Hat Hother].
    { unfold pay_winner. destruct (players g !! w) as [winp|] eqn:Hwp.
      - cbn [players push_transaction set_transactions alter_player set_players]. split.
        + by rewrite list_lookup_alter_eq, Hwp.
        + intros j Hj. by rewrite list_lookup_alter_ne.
      - by rewrite Hwp. }
    destruct (decide (i = w)) as [->|Hne].
    + destruct (decide (w ∈ ws)); [done|].
      rewrite Hat. destruct (decide (w ∈ w :: ws)) as [|Hn]; [done|].
      exfalso. apply Hn. apply elem_of_cons. by left.
    + rewrite (Hother i Hne).
      destruct (decide (i ∈ ws)) as [Hi|Hi].
      * destruct (decide (i ∈ w :: ws)) as [|Hn]; [done|].
        exfalso. apply Hn. apply elem_of_cons. by right.
      * destruct (decide (i ∈ w :: ws)) as [Hin|]; [|done].
        apply elem_of_cons in Hin as [?|?]; done.
Qed.

Lemma resolve_payouts_lookup (ws : list nat) g (i : nat) :
  NoDup ws → 0 < pot_total g → i ∈ ws →
  players (resolve_payouts_and_update_stats ws g) !! i =
  paid (pot_total g) (length ws) (bet_by_player_of (betting_pot g)) <$> players g !! i.
Proof.
  intros Hnd Hpot Hi. unfold resolve_payouts_and_update_stats.
  destruct (Z.leb_spec (pot_total g) 0); [lia|].
  destruct ws as [|w ws]; [by apply elem_of_nil in Hi|].
  rewrite pay_fold_lookup by done. by destruct (decide _).
Qed.

Lemma settle_players g :
  players (settle g) =
  players (resolve_payouts_and_update_stats (evaluate_winners (players g)) g).
Proof.
  unfold settle. destruct (evaluate_winners (players g)) as [|w ws] eqn:Hw.
  - rewrite (fold_left_preserves players) by apply record_all_bust_players.
    unfold resolve_payouts_and_update_stats. by destruct (pot_total g <=? 0).
  - rewrite (fold_left_preserves players) by apply record_loss_players.
    set (g1 := fold_left record_win (w :: ws) g).
    assert (players g1 = players g) as Hp1
      by apply (fold_left_preserves players), record_win_players.
    assert (betting_pot g1 = betting_pot g) as Hb1
      by apply (fold_left_preserves betting_pot), record_win_pot.
    assert (players (resolve_payouts_and_update_stats (w :: ws) g1)
            = players (resolve_payouts_and_update_stats (w :: ws) g)) as Hres.
    { apply list_eq. intros i.
      unfold resolve_payouts_and_update_stats, pot_total. rewrite Hb1.
      destruct (_ <=? 0); [by rewrite Hp1|].
      rewrite !pay_fold_lookup by (rewrite <- Hw; apply evaluate_winners_NoDup).
      by rewrite Hp1. }
    rewrite <- Hres.
    destruct (human_won (w :: ws) (resolve_payouts_and_update_stats (w :: ws) g1)).
    + apply human_win_achievements_players.
    + apply (fold_left_preserves players), close_call_players.
Qed.

Lemma settle_all_busted g :
  evaluate_winners (players g) = [] →
  players (settle g) = players g ∧ chip_transactions (settle g) = chip_transactions g.
Proof.
  intros Hw. unfold settle. rewrite Hw. split.
  - apply (fold_left_preserves players), record_all_bust_players.
  - apply (fold_left_preserves chip_transactions), record_all_bust_transactions.
Qed.

(** C3.  The winners are exactly the standing players whose hand value is the
    largest value of at most 21 held by a standing player, ties included;
    when every player is busted there is no winner and the settlement pays
    nothing: the roster, chips included, and the transaction log are as
    before. *)
Theorem winners_are_the_best_standing g :
  (∀ i, i ∈ evaluate_winners (players g) ↔
        ∃ p, players g !! i = Some p ∧ busted p = false ∧ hand_value p ≤ 21
             ∧ ∀ q, q ∈ players g → busted q = false → hand_value q ≤ 21 →
                    hand_value q ≤ hand_value p)
  ∧ ((∀ p, p ∈ players g → busted p = true) →
     evaluate_winners (players g) = []
     ∧ players (settle g) = players g
     ∧ chip_transactions (settle g) = chip_transactions g).
Proof.
  split; [apply evaluate_winners_spec|].
  intros Hall. pose proof (evaluate_winners_all_busted _ Hall) as Hw.
  split; [exact Hw|]. by apply settle_all_busted.
Qed.

(** C4, as amended.  When the pot is positive, a winner whose recorded stake
    is positive is paid the stake plus three halves of it rounded down for a
    natural blackjack, and twice the stake otherwise: for a blackjack this is
    stake × 2.5 when the stake is even and half a chip less when it is odd. *)
Theorem winner_payout g (i : nat) (p : Player) :
  0 < pot_total g →
  i ∈ evaluate_winners (players g) →
  players g !! i = Some p →
  let stake := default 0 (bet_by_player_of (betting_pot g) !! name p) in
  0 < stake →
  ∃ p' payout,
    players (settle g) !! i = Some p'
    ∧ chips p' = chips p + payout
    ∧ (if is_blackjack (hand p)
       then payout = stake + (stake * 3) `quot` 2
            ∧ 2 * payout = 5 * stake - stake `mod` 2
       else payout = stake * 2).
Proof.
  intros Hpot Hi Hp stake Hstake.
  rewrite settle_players.
  rewrite resolve_payouts_lookup by (done || apply evaluate_winners_NoDup).
  rewrite Hp. simpl. eexists _, _. split; [reflexivity|]. split; [reflexivity|].
  unfold payout_of. fold stake.
  destruct (Z.leb_spec stake 0); [lia|].
  destruct (is_blackjack (hand p)); [|done].
  split; [done|].
  rewrite Z.quot_div_nonneg by lia.
  pose proof (Z.div_mod (stake * 3) 2 ltac:(lia)).
  pose proof (Z.mod_pos_bound (stake * 3) 2 ltac:(lia)).
  pose proof (Z.mod_pos_bound stake 2 ltac:(lia)).
  assert ((stake * 3) `mod` 2 = stake `mod` 2) as Hm.
  { replace (stake * 3) with (stake + stake * 2) by lia. apply Z_mod_plus_full. }
  lia.
Qed.
End settlement_facts.

(** ** Statistics *)

Lemma stats_of_update (n : string) (f : PlayerStats → PlayerStats)
    (m : gmap string PlayerStats) (n' : string) :
  stats_of (update_stats n f m) n' =
  if decide (n = n') then f (stats_of m n) else stats_of m n'.
Proof.
  unfold update_stats, stats_of at 1. rewrite lookup_insert.
  by destruct (decide (n = n')).
Qed.

Lemma NoDup_names_omap (ps : list Player) (ws : list nat) :
  NoDup (name <$> ps) → NoDup ws → NoDup (name <$> omap (ps !!.) ws).
Proof.
  intros Hps. induction ws as [|w ws IH]; intros Hws; simpl; [constructor|].
  apply NoDup_cons in Hws as [Hw Hws].
  destruct (ps !! w) as [p|] eqn:Hp; simpl; [|by apply IH].
  constructor; [|by apply IH].
  intros (q & Hname & Hq)%list_elem_of_fmap.
  apply list_elem_of_omap in Hq as (w' & Hw' & Hq).
  apply Hw. replace w with w'; [done|].
  eapply (proj1 (NoDup_alt _) Hps); rewrite list_lookup_fmap.
  - by rewrite Hq.
  - rewrite Hp. simpl. by rewrite Hname.
Qed.

Section stats_facts.
Context {G : Type} `{!RandomEngine G}.
Implicit Types g : BlackjackGame G.

(** A loop over players that updates, for each of them, the record under
    the player's name: with distinct names each record is updated once. *)
Lemma fold_per_player (step : BlackjackGame G → Player → BlackjackGame G)
    (F : Player → PlayerStats → PlayerStats) (l : list Player) g :
  (∀ g p n, stats_of (persistent_stats (step g p)) n =
            if decide (name p = n) then F p (stats_of (persistent_stats g) n)
            else stats_of (persistent_stats g) n) →
  NoDup (name <$> l) →
  (∀ n, n ∉ name <$> l →
        stats_of (persistent_stats (fold_left step l g)) n = stats_of (persistent_stats g) n)
  ∧ (∀ p, p ∈ l →
          stats_of (persistent_stats (fold_left step l g)) (name p)
          = F p (stats_of (persistent_stats g) (name p))).
Proof.
  intros Hstep. revert g. induction l as [|q l IH]; intros g Hnd; simpl.
  - split; [done|]. intros p Hp. by apply elem_of_nil in Hp.
  - rewrite fmap_cons in Hnd. apply NoDup_cons in Hnd as [Hq Hnd].
    destruct (IH (step g q) Hnd) as [Hout Hin]. split.
    + intros n Hn. rewrite not_elem_of_cons in Hn. destruct Hn as [Hne Hn].
      rewrite Hout by done. rewrite Hstep. by destruct (decide (name q = n)).
    + intros p [->|Hp]%elem_of_cons.
      * rewrite Hout by done. rewrite Hstep. by destruct (decide _).
      * rewrite Hin by done. rewrite Hstep.
        destruct (decide (name q = name p)) as [e|]; [|done].
        exfalso. apply Hq. rewrite e. by apply list_elem_of_fmap_2.
Qed.

Lemma record_winner_stats g p n :
  stats_of (persistent_stats (record_winner g p)) n =
  if decide (name p = n) then win_update p (stats_of (persistent_stats g) n)
  else stats_of (persistent_stats g) n.
Proof.
  unfold record_winner, win_update.
  destruct (is_blackjack (hand p)); cbn [persistent_stats alter_stats set_stats];
    rewrite !stats_of_update; destruct (decide (name p = n)) as [<-|]; try done.
  by destruct (decide (name p = name p)).
Qed.

Lemma record_all_bust_stats g p n :
  stats_of (persistent_stats (record_all_bust g p)) n =
  if decide (name p = n) then bust_update p (stats_of (persistent_stats g) n)
  else stats_of (persistent_stats g) n.
Proof.
  unfold record_all_bust, bust_update.
  destruct (0 <=? chips p); cbn [persistent_stats alter_stats set_stats].
  - rewrite stats_of_update. by destruct (decide (name p = n)) as [<-|].
  - by destruct (decide _).
Qed.

Lemma record_loss_stats names g p n :
  stats_of (persistent_stats (record_loss names g p)) n =
  if decide (name p = n) then loss_update names p (stats_of (persistent_stats g) n)
  else stats_of (persistent_stats g) n.
Proof.
  unfold record_loss, loss_update.
  destruct (bool_decide (name p ∈ names)); cbn [persistent_stats alter_stats set_stats].
  - by destruct (decide _).
  - rewrite stats_of_update. by destruct (decide (name p = n)) as [<-|].
Qed.

Lemma fold_record_win g (ws : list nat) :
  fold_left record_win ws g = fold_left record_winner (omap (players g !!.) ws) g.
Proof.
  revert g. induction ws as [|w ws IH]; intros g; simpl; [done|].
  rewrite IH, record_win_players. unfold record_win.
  by destruct (players g !! w).
Qed.

(** *** Counters that the achievements leave alone *)

Section counter.
Variable π : PlayerStats → Z.
Hypothesis π_achievement : ∀ k s, π (add_achievement k s) = π s.

Lemma same_counter_refl g : same_counter π g g.
Proof. done. Qed.

Lemma same_counter_trans g1 g2 g3 :
  same_counter π g1 g2 → same_counter π g2 g3 → same_counter π g1 g3.
Proof. intros H1 H2 n. by rewrite H2, H1. Qed.

Lemma same_counter_alter_stats n f g :
  (∀ s, π (f s) = π s) → same_counter π g (alter_stats n f g).
Proof.
  intros Hf n'. cbn [persistent_stats alter_stats set_stats].
  rewrite stats_of_update. destruct (decide (n = n')) as [<-|]; [apply Hf|done].
Qed.

Lemma same_counter_unlock n k g : same_counter π g (unlock_achievement_for n k g).
Proof.
  unfold unlock_achievement_for.
  destruct (persistent_stats g !! n) as [ps|] eqn:E; [|done].
  destruct (decide (k ∈ achievements ps)); [done|].
  intros n'. cbn [persistent_stats save_stats set_file set_stats].
  unfold stats_of. rewrite lookup_insert.
  destruct (decide (n = n')) as [<-|]; [|done].
  rewrite E. simpl. apply π_achievement.
Qed.

Lemma same_counter_unlock_if b n k g : same_counter π g (unlock_if b n k g).
Proof. destruct b; [apply same_counter_unlock|done]. Qed.

Lemma same_counter_touch n g :
  same_counter π g (set_stats (touch_stats n (persistent_stats g)) g).
Proof.
  intros n'. cbn [persistent_stats set_stats]. unfold touch_stats.
  rewrite stats_of_update. by destruct (decide (n = n')) as [<-|].
Qed.

Lemma same_counter_fold {A : Type} (f : BlackjackGame G → A → BlackjackGame G)
    (l : list A) g :
  (∀ g x, same_counter π g (f g x)) → same_counter π g (fold_left f l g).
Proof.
  intros Hf. revert g. induction l as [|x l IH]; intros g; simpl; [done|].
  eapply same_counter_trans; [apply Hf | apply IH].
Qed.

Lemma same_counter_human_win_achievements g :
  same_counter π g (human_win_achievements g).
Proof.
  unfold human_win_achievements, you_stats. cbn zeta.
  repeat first
    [ apply same_counter_refl
    | eapply same_counter_trans; [|apply same_counter_unlock_if]
    | eapply same_counter_trans; [|apply same_counter_touch] ].
Qed.

Lemma same_counter_post_round g : same_counter π g (post_round_achievements g).
Proof.
  unfold post_round_achievements, you_stats. cbn zeta.
  repeat first
    [ apply same_counter_refl
    | eapply same_counter_trans; [|apply same_counter_unlock_if]
    | eapply same_counter_trans; [|apply same_counter_touch] ].
Qed.

Lemma same_counter_resolve ws g :
  same_counter π g (resolve_payouts_and_update_stats ws g).
Proof.
  intros n. f_equal. f_equal. unfold resolve_payouts_and_update_stats.
  destruct (pot_total g <=? 0); [done|]. destruct ws as [|w ws]; [done|].
  apply (fold_left_preserves persistent_stats).
  intros g' w'. unfold pay_winner. by destruct (players g' !! w').
Qed.
End counter.
End stats_facts.

Section tie_facts.
Context {G : Type} `{!RandomEngine G}.
Implicit Types g : BlackjackGame G.

Lemma resolve_payouts_names ws g :
  name <$> players (resolve_payouts_and_update_stats ws g) = name <$> players g.
Proof.
  unfold resolve_payouts_and_update_stats.
  destruct (pot_total g <=? 0); [done|]. destruct ws as [|w ws]; [done|].
  apply (fold_left_preserves (λ g, name <$> players g)).
  intros g' w'. unfold pay_winner. destruct (players g' !! w') as [winp|]; [|done].
  cbn [players push_transaction set_transactions alter_player set_players].
  rewrite (list_fmap_alter name _ id) by (by apply Forall_true).
  by apply list_alter_id.
Qed.

Lemma same_counter_record_winner (π : PlayerStats → Z) g p :
  (∀ s, π (count_win s) = π s) → (∀ s, π (count_blackjack s) = π s) →
  same_counter π g (record_winner g p).
Proof.
  intros Hw Hb n. rewrite record_winner_stats.
  destruct (decide (name p = n)); [|done].
  unfold win_update. destruct (is_blackjack (hand p)); by rewrite ?Hb, Hw.
Qed.

Lemma same_counter_record_loss (π : PlayerStats → Z) names g p :
  (∀ s, π (count_loss s) = π s) → same_counter π g (record_loss names g p).
Proof.
  intros Hl n. rewrite record_loss_stats.
  destruct (decide (name p = n)); [|done].
  unfold loss_update. by destruct (bool_decide _).
Qed.

Lemma same_counter_record_all_bust (π : PlayerStats → Z) g p :
  (∀ s, π (count_loss s) = π s) → same_counter π g (record_all_bust g p).
Proof.
  intros Hl n. rewrite record_all_bust_stats.
  destruct (decide (name p = n)); [|done].
  unfold bust_update. by destruct (0 <=? chips p).
Qed.

(** The settlement after the winners' loop: payouts, achievements. *)
Lemma same_counter_settle_middle (π : PlayerStats → Z) ws g :
  (∀ k s, π (add_achievement k s) = π s) →
  same_counter π g
    (let g := resolve_payouts_and_update_stats ws g in
     if human_won ws g then human_win_achievements g
     else fold_left close_call (players g) g).
Proof.
  intros Ha. cbn zeta.
  eapply same_counter_trans; [apply same_counter_resolve|].
  destruct (human_won _ _).
  - by apply same_counter_human_win_achievements.
  - apply same_counter_fold. intros g' p. by apply same_counter_unlock_if.
Qed.

Lemma settle_keeps_ties g : same_counter ties g (settle g).
Proof.
  unfold settle. destruct (evaluate_winners (players g)) as [|w ws].
  - apply same_counter_fold. intros g' p. by apply same_counter_record_all_bust.
  - eapply same_counter_trans; [|apply same_counter_fold].
    + eapply same_counter_trans; [|by apply (same_counter_settle_middle ties)].
      apply same_counter_fold. intros g' w'. unfold record_win.
      destruct (players g' !! w'); [|done]. by apply same_counter_record_winner.
    + intros g' p. by apply same_counter_record_loss.
Qed.

(** With distinct player names, the settlement leaves the ties counter under
    every name as it was; it adds one win, and no loss, to the record of every
    winner, and one loss, and no win, to the record of every other player
    (when everybody is busted: of every other player whose chip balance is not
    negative). *)
Lemma settle_counts g :
  NoDup (name <$> players g) →
  (∀ n, ties (stats_of (persistent_stats (settle g)) n)
        = ties (stats_of (persistent_stats g) n))
  ∧ (∀ i p, players g !! i = Some p →
       let before := stats_of (persistent_stats g) (name p) in
       let after := stats_of (persistent_stats (settle g)) (name p) in
       if decide (i ∈ evaluate_winners (players g))
       then wins after = wins before + 1 ∧ losses after = losses before
       else wins after = wins before
            ∧ losses after = losses before
                + (if decide (evaluate_winners (players g) = [] ∧ chips p < 0)
                   then 0 else 1)).
Proof.
  intros Hnd. split; [apply settle_keeps_ties|].
  intros i p Hp before after. subst before after.
  unfold settle. destruct (evaluate_winners (players g)) as [|w ws] eqn:HW.
  - destruct (decide (i ∈ [])) as [Hi|_]; [by apply elem_of_nil in Hi|].
    destruct (fold_per_player record_all_bust bust_update (players g) g
                record_all_bust_stats Hnd) as [_ Hin].
    rewrite (Hin p) by (by eapply list_elem_of_lookup_2).
    unfold bust_update. destruct (Z.leb_spec 0 (chips p)).
    + destruct (decide _) as [[_ ?]|]; [lia|]. simpl. lia.
    + destruct (decide _) as [|Hn]; [simpl; lia|]. exfalso. apply Hn. split; [done|lia].
  - set (W := w :: ws) in *.
    assert (NoDup W) as HWnd by (rewrite <- HW; apply evaluate_winners_NoDup).
    set (g1 := fold_left record_win W g).
    set (g3 := if human_won W (resolve_payouts_and_update_stats W g1)
               then human_win_achievements (resolve_payouts_and_update_stats W g1)
               else fold_left close_call (players (resolve_payouts_and_update_stats W g1))
                      (resolve_payouts_and_update_stats W g1)).
    assert (players g1 = players g) as Hp1
      by apply (fold_left_preserves players), record_win_players.
    assert (name <$> players g3 = name <$> players g) as Hnames.
    { transitivity (name <$> players (resolve_payouts_and_update_stats W g1)).
      - f_equal. subst g3. destruct (human_won _ _).
        + apply human_win_achievements_players.
        + apply (fold_left_preserves players), close_call_players.
      - by rewrite resolve_payouts_names, Hp1. }
    assert (∃ p3, players g3 !! i = Some p3 ∧ name p3 = name p) as (p3 & Hp3 & Hn3).
    { assert ((name <$> players g3) !! i = Some (name p)) as Hl
        by (by rewrite Hnames, list_lookup_fmap, Hp).
      rewrite list_lookup_fmap in Hl.
      destruct (players g3 !! i) as [p3|]; [|done]. exists p3. split; [done|].
      by injection Hl. }
    assert (name p ∈ winner_names W g3 ↔ i ∈ W) as Hwin.
    { unfold winner_names. rewrite list_elem_of_omap. split.
      - intros (w' & Hw' & Hl). replace i with w'; [done|].
        rewrite <- list_lookup_fmap, Hnames in Hl.
        eapply (proj1 (NoDup_alt _) Hnd); [exact Hl|].
        by rewrite list_lookup_fmap, Hp.
      - intros Hi. exists i. split; [done|]. by rewrite Hp3, <- Hn3. }
    (* the losers' loop *)
    destruct (fold_per_player (record_loss (winner_names W g3)) (loss_update (winner_names W g3))
                (players g3) g3 (record_loss_stats _)) as [_ Hloss];
      [by rewrite Hnames|].
    specialize (Hloss p3 (list_elem_of_lookup_2 _ _ _ Hp3)). rewrite Hn3 in Hloss.
    rewrite Hloss. clear Hloss.
    (* payouts and achievements *)
    pose proof (same_counter_settle_middle wins W g1 (λ _ _, eq_refl) (name p)) as Hmw.
    pose proof (same_counter_settle_middle losses W g1 (λ _ _, eq_refl) (name p)) as Hml.
    cbn zeta in Hmw, Hml. fold g3 in Hmw, Hml.
    (* the winners' loop *)
    subst g1. rewrite fold_record_win in Hmw, Hml.
    destruct (fold_per_player record_winner win_update (omap (players g !!.) W) g
                record_winner_stats (NoDup_names_omap _ _ Hnd HWnd)) as [Hout Hin].
    unfold loss_update. rewrite Hn3.
    destruct (decide (i ∈ W)) as [Hi|Hi].
    + rewrite bool_decide_eq_true_2 by (by apply Hwin).
      rewrite Hmw, Hml, (Hin p).
      * unfold win_update. by destruct (is_blackjack (hand p)).
      * apply list_elem_of_omap. by exists i.
    + rewrite bool_decide_eq_false_2 by (by rewrite Hwin).
      cbn [wins losses count_loss]. rewrite Hmw, Hml, Hout.
      * destruct (decide _) as [[? _]|]; [done|]. done.
      * intros (q & Hq & Hqin)%list_elem_of_fmap.
        apply list_elem_of_omap in Hqin as (w' & Hw' & Hl).
        apply Hi. replace i with w'; [done|].
        eapply (proj1 (NoDup_alt _) Hnd); rewrite list_lookup_fmap.
        -- by rewrite Hl.
        -- rewrite Hp. simpl. by rewrite Hq.
Qed.
End tie_facts.

(** ** Rounds on concrete tables *)

(** The example of the spec: the holder of the natural blackjack is the only
    winner and a stake of 20 is paid 50. *)
Lemma settlement_table_example :
  evaluate_winners (players settlement_table) = [1%nat]
  ∧ chips <$> players (settle settlement_table) = [80; 130; 80].
Proof. vm_compute. done. Qed.

Lemma winners_are_the_best_standing_witness :
  evaluate_winners (players all_bust_table) = []
  ∧ players (settle all_bust_table) = players all_bust_table
  ∧ chip_transactions (settle all_bust_table) = chip_transactions all_bust_table.
Proof.
  apply (winners_are_the_best_standing all_bust_table).
  intros p Hp. unfold all_bust_table, table_with in Hp. cbn [players] in Hp.
  repeat (apply elem_of_cons in Hp as [->|Hp]; [reflexivity|]).
  by apply elem_of_nil in Hp.
Defined.

Lemma winner_payout_witness :
  ∃ p' payout,
    players (settle settlement_table) !! 1%nat = Some p'
    ∧ chips p' = 80 + payout
    ∧ payout = 20 + (20 * 3) `quot` 2 ∧ 2 * payout = 5 * 20 - 20 `mod` 2.
Proof.
  apply (winner_payout settlement_table 1
           (seated "You" true 80 [("A", Spades); ("K", Hearts)] false)).
  - vm_compute. reflexivity.
  - vm_compute. apply elem_of_cons. by left.
  - reflexivity.
  - vm_compute. reflexivity.
Defined.

(** C4, as stated, fails on an odd stake: a natural blackjack on a stake of 5
    is paid 12 chips, and twice 12 is not five times 5. *)
Lemma blackjack_payout_on_odd_stake :
  is_blackjack <$> (hand <$> players odd_stake_table !! 0%nat) = Some true
  ∧ bet_by_player_of (betting_pot odd_stake_table) !! "You" = Some 5
  ∧ chips <$> players odd_stake_table !! 0%nat = Some 95
  ∧ chips <$> players (settle odd_stake_table) !! 0%nat = Some (95 + 12)
  ∧ 2 * 12 ≠ 5 * 5.
Proof. vm_compute. repeat split; try reflexivity. discriminate. Qed.

(** ** The guards on the chip balance *)

Section guard_facts.
Context {G : Type} `{!RandomEngine G}.
Implicit Types g : BlackjackGame G.

(** No bet is asked of a player without chips. *)
Lemma collect_bet_skips g (i : nat) (p : Player) :
  players g !! i = Some p → chips p ≤ 0 → collect_bet g i = g.
Proof.
  intros Hp Hc. unfold collect_bet. rewrite Hp.
  by destruct (Z.leb_spec (chips p) 0); [|lia].
Qed.

(** A player with a negative balance is passed over by the deal and by the
    action loop. *)
Lemma negative_balance_skipped g (i fuel : nat) (p : Player) :
  players g !! i = Some p → chips p < 0 →
  initial_deal_step (Ok g) i = Ok g ∧ action_step fuel (Ok g) i = Ok g.
Proof.
  intros Hp Hc. unfold initial_deal_step, action_step. simpl. rewrite Hp.
  by destruct (Z.ltb_spec (chips p) 0); [|lia].
Qed.

(** A player whose balance is exactly 0 is dealt a card in a pass of the
    deal, like a player who has chips left. *)
Lemma zero_balance_dealt g (i : nat) (p : Player) :
  players g !! i = Some p → 0 ≤ chips p →
  initial_deal_step (Ok g) i = deal_card_to i g.
Proof.
  intros Hp Hc. unfold initial_deal_step. simpl. rewrite Hp.
  by destruct (Z.ltb_spec (chips p) 0); [lia|].
Qed.

(** Both places that count blackjacks add one for the same two-card 21. *)
Lemma blackjack_counted_at_detection g (i : nat) (p : Player) :
  players g !! i = Some p → 0 ≤ chips p → is_blackjack (hand p) = true →
  blackjacks (stats_of (persistent_stats (detect_blackjack g i)) (name p))
  = blackjacks (stats_of (persistent_stats g) (name p)) + 1.
Proof.
  intros Hp Hc Hbj. unfold detect_blackjack. rewrite Hp, Hbj.
  destruct (Z.ltb_spec (chips p) 0); [lia|].
  rewrite (same_counter_unlock_if blackjacks (λ _ _, eq_refl)).
  cbn [persistent_stats alter_stats set_stats alter_player set_players].
  rewrite stats_of_update. by destruct (decide _).
Qed.

Lemma blackjack_counted_at_settlement (p : Player) (s : PlayerStats) :
  is_blackjack (hand p) = true → blackjacks (win_update p s) = blackjacks s + 1.
Proof. intros Hbj. unfold win_update. by rewrite Hbj. Qed.
End guard_facts.

(** C5.  A round on [blackjack_table]: the first player is dealt an ace and a
    king, takes no turn, wins the round, and the blackjack counter of the
    persistent record goes from 0 to 2: once when blackjacks are detected
    after the deal and once more in the winners' loop of the settlement. *)
Theorem natural_blackjack_counted_twice :
  ∃ g',
    play_round 30 blackjack_table = Ok g'
    ∧ hand <$> players g' !! 0%nat = Some (cards [("A", Spades); ("K", Hearts)])
    ∧ blackjacks (stats_of (persistent_stats blackjack_table) "You") = 0
    ∧ blackjacks (stats_of (persistent_stats g') "You") = 2.
Proof. eexists. split; [vm_compute; reflexivity|]. vm_compute. done. Qed.


(** ** The text form of the statistics *)

(** *** Strings *)

Lemma string_app_cons (x : ascii) (a b : string) :
  (String x a ++ b)%string = String x (a ++ b).
Proof. reflexivity. Qed.

Lemma string_app_nil_l (a : string) : ("" ++ a)%string = a.
Proof. reflexivity. Qed.

Ltac string_simpl := rewrite ?string_app_cons, ?string_app_nil_l.

Lemma string_app_assoc (a b c : string) : ((a ++ b) ++ c = a ++ (b ++ c))%string.
Proof. induction a as [|x a IH]; [done|]. string_simpl. by f_equal. Qed.

Lemma string_app_nil_r (a : string) : (a ++ "")%string = a.
Proof. induction a as [|x a IH]; [done|]. string_simpl. by f_equal. Qed.

Lemma chars_app (a b : string) : chars (a ++ b) = (chars a ++ chars b)%list.
Proof.
  unfold chars. induction a as [|x a IH]; [done|]. string_simpl. simpl. by f_equal.
Qed.

Lemma chars_string_map (f : ascii → ascii) (s : string) : chars (string_map f s) = f <$> chars s.
Proof. unfold chars, string_map. by rewrite list_ascii_of_string_of_list_ascii. Qed.

Lemma chars_inj (a b : string) : chars a = chars b → a = b.
Proof.
  unfold chars. intros H.
  by rewrite <- (string_of_list_ascii_of_string a), H, string_of_list_ascii_of_string.
Qed.

Lemma chars_nil (a : string) : chars a = [] ↔ a = EmptyString.
Proof. destruct a; simpl; split; done. Qed.

(** *** Integers *)

Lemma read_digits_uint (d : uint) (tail : string) :
  starts_without_digit tail →
  read_digits (NilEmpty.string_of_uint d ++ tail) = (NilEmpty.string_of_uint d, tail).
Proof.
  intros Htail. induction d; cbn [NilEmpty.string_of_uint]; string_simpl;
    try (cbn [read_digits]; rewrite IHd; reflexivity).
  destruct tail as [|c tail]; simpl in *; [done|]. by rewrite Htail.
Qed.

Lemma extract_int_digits (neg : bool) (d : uint) (tail : string) :
  d ≠ Nil → starts_without_digit tail →
  is_int (if neg then - Z.of_uint d else Z.of_uint d) →
  extract_int ((if neg then "-" else "") ++ NilEmpty.string_of_uint d ++ tail)%string
  = Some ((if neg then - Z.of_uint d else Z.of_uint d), tail).
Proof.
  intros Hd Htail Hint.
  assert (digits_value (NilEmpty.string_of_uint d) = Some (Z.of_uint d)) as Hv.
  { unfold digits_value, NilZero.uint_of_string.
    destruct (NilEmpty.string_of_uint d) eqn:E; [by destruct d|].
    rewrite <- E, NilEmpty.usu. done. }
  pose proof (read_digits_uint d tail Htail) as Hr.
  unfold extract_int. destruct neg; string_simpl.
  - cbn [skip_ws]. change (isspace "-") with false. cbv iota.
    rewrite Hr, Hv. simpl.
    destruct (decide _) as [|Hn]; [done|]. by destruct Hn.
  - destruct d; [done|..]; cbn [NilEmpty.string_of_uint] in *;
      rewrite string_app_cons in *; cbn [skip_ws];
      match goal with |- context [isspace ?c] => change (isspace c) with false end;
      cbv iota; rewrite Hr, Hv; simpl;
      (destruct (decide _) as [|Hn]; [done|]; by destruct Hn).
Qed.

Lemma to_string_shape (z : Z) :
  ∃ d, d ≠ Nil
       ∧ z = (if z <? 0 then - Z.of_uint d else Z.of_uint d)
       ∧ to_string z = ((if (z <? 0)%Z then "-" else "") ++ NilEmpty.string_of_uint d)%string.
Proof.
  pose proof (DecimalZ.of_to z) as Hz. unfold to_string.
  destruct z as [|p|p]; simpl in *.
  - exists (D0 Nil). done.
  - exists (Pos.to_uint p). split; [apply DecimalPos.Unsigned.to_uint_nonnil|].
    split; [done|]. unfold NilZero.string_of_uint.
    pose proof (DecimalPos.Unsigned.to_uint_nonnil p). by destruct (Pos.to_uint p).
  - exists (Pos.to_uint p). split; [apply DecimalPos.Unsigned.to_uint_nonnil|].
    split; [done|]. unfold NilZero.string_of_uint.
    pose proof (DecimalPos.Unsigned.to_uint_nonnil p). by destruct (Pos.to_uint p).
Qed.

(** What [out << n] writes is read back by [in >> n], up to the text that
    follows. *)
Lemma extract_int_to_string (z : Z) (tail : string) :
  is_int z → starts_without_digit tail →
  extract_int (to_string z ++ tail) = Some (z, tail).
Proof.
  intros Hint Htail. destruct (to_string_shape z) as (d & Hd & Hz & ->).
  rewrite string_app_assoc.
  pose proof (extract_int_digits (z <? 0) d tail Hd Htail) as H.
  rewrite <- Hz in H. by apply H.
Qed.

Lemma extract_int_space (s : string) : extract_int (" " ++ s) = extract_int s.
Proof. reflexivity. Qed.

Lemma to_string_chars (z : Z) :
  Forall (λ c, isspace c = false ∧ c ≠ "010"%char) (chars (to_string z)).
Proof.
  destruct (to_string_shape z) as (d & _ & _ & ->). rewrite chars_app.
  apply Forall_app. split; [destruct (z <? 0); repeat constructor; done|].
  clear. induction d; simpl; repeat constructor; done.
Qed.

(** *** Words and names *)

Lemma skip_ws_word (c : ascii) (s : string) :
  isspace c = false → skip_ws (String c s) = String c s.
Proof. intros H. simpl. by rewrite H. Qed.

Lemma read_word_app (w tail : string) :
  Forall (λ c, isspace c = false) (chars w) →
  read_word (w ++ String " " tail) = (w, String " " tail).
Proof.
  induction w as [|c w IH]; intros Hw; string_simpl; [done|].
  apply Forall_cons in Hw as [Hc Hw]. cbn [read_word]. by rewrite Hc, IH.
Qed.

Lemma extract_word_app (w tail : string) :
  w ≠ EmptyString →
  Forall (λ c, isspace c = false) (chars w) →
  extract_word (w ++ String " " tail) = Some (w, String " " tail).
Proof.
  intros Hne Hw. unfold extract_word.
  destruct w as [|c w]; [done|].
  pose proof Hw as Hw'. apply Forall_cons in Hw' as [Hc _].
  string_simpl. rewrite skip_ws_word by done.
  rewrite <- string_app_cons, read_word_app by done.
  by destruct (decide _).
Qed.

Lemma escape_name_chars (n : string) :
  storable_name n → Forall (λ c, isspace c = false ∧ c ≠ "010"%char) (chars (escape_name n)).
Proof.
  intros [_ Hn]. unfold escape_name. rewrite chars_string_map.
  apply Forall_fmap. eapply Forall_impl; [exact Hn|].
  intros c [Hu Hs]. simpl. destruct (Ascii.eqb_spec c " ") as [->|Hne]; [done|].
  split.
  - destruct (isspace c) eqn:E; [|done]. by specialize (Hs eq_refl).
  - intros ->. by specialize (Hs eq_refl).
Qed.

Lemma escape_name_nonempty (n : string) : n ≠ EmptyString → escape_name n ≠ EmptyString.
Proof. by destruct n. Qed.

Lemma unescape_escape_name (n : string) : storable_name n → unescape_name (escape_name n) = n.
Proof.
  intros [_ Hn]. apply chars_inj. unfold unescape_name, escape_name.
  rewrite !chars_string_map, <- list_fmap_compose.
  rewrite <- (list_fmap_id (chars n)) at 2.
  apply Forall_fmap_ext_1. eapply Forall_impl; [exact Hn|].
  intros c [Hu _]. simpl.
  destruct (Ascii.eqb_spec c " ") as [->|Hne]; [done|].
  by destruct (Ascii.eqb_spec c "_").
Qed.

(** *** Lines and lists *)

Lemma getlines_plain (delim : ascii) (x : string) :
  Forall (λ c, c ≠ delim) (chars x) →
  getlines delim x = if decide (x = EmptyString) then [] else [x].
Proof.
  induction x as [|c x IH]; intros Hx; [done|].
  apply Forall_cons in Hx as [Hc Hx]. cbn [getlines].
  destruct (Ascii.eqb_spec c delim) as [|_]; [done|].
  rewrite IH by done. by destruct (decide (x = EmptyString)) as [->|].
Qed.

Lemma getlines_app (delim : ascii) (x rest : string) :
  Forall (λ c, c ≠ delim) (chars x) →
  getlines delim (x ++ String delim rest) = x :: getlines delim rest.
Proof.
  induction x as [|c x IH]; intros Hx; string_simpl.
  - cbn [getlines]. by rewrite Ascii.eqb_refl.
  - apply Forall_cons in Hx as [Hc Hx]. cbn [getlines].
    destruct (Ascii.eqb_spec c delim) as [|_]; [done|]. by rewrite IH.
Qed.

Lemma string_concat_cons (sep x : string) (l : list string) :
  String.concat sep (x :: l) =
  match l with [] => x | _ :: _ => (x ++ sep ++ String.concat sep l)%string end.
Proof. reflexivity. Qed.

Lemma getlines_concat (delim : ascii) (l : list string) :
  Forall (λ x, x ≠ EmptyString ∧ Forall (λ c, c ≠ delim) (chars x)) l →
  getlines delim (String.concat (String delim "") l) = l.
Proof.
  induction l as [|x l IH]; intros Hl; [done|].
  apply Forall_cons in Hl as [[Hne Hx] Hl]. rewrite string_concat_cons.
  destruct l as [|y l].
  - rewrite getlines_plain by done. by destruct (decide _).
  - string_simpl. rewrite getlines_app by done. by rewrite IH.
Qed.

(** The lines of a text made of lines that each end in a newline. *)
Lemma getlines_lines (delim : ascii) (l : list string) :
  Forall (λ x, Forall (λ c, c ≠ delim) (chars x)) l →
  getlines delim (String.concat "" ((λ x, x ++ String delim "")%string <$> l)) = l.
Proof.
  induction l as [|x l IH]; intros Hl; [done|].
  apply Forall_cons in Hl as [Hx Hl]. rewrite fmap_cons, string_concat_cons.
  destruct l as [|y l].
  - simpl. rewrite getlines_app by done. done.
  - rewrite fmap_cons. rewrite fmap_cons in IH. string_simpl.
    rewrite string_app_assoc. string_simpl.
    rewrite getlines_app by done. by rewrite IH.
Qed.

(** *** Achievements *)

Lemma set_in_order_perm (s : gset string) : Permutation (set_in_order s) (elements s).
Proof. apply merge_sort_Permutation. Qed.

Lemma elem_of_set_in_order (s : gset string) (a : string) : a ∈ set_in_order s ↔ a ∈ s.
Proof. by rewrite set_in_order_perm, elem_of_elements. Qed.

Lemma split_join_achievements (s : gset string) :
  (∀ a, a ∈ s → storable_id a) →
  split_achievements (join_achievements s) = s.
Proof.
  intros Hs. unfold split_achievements, join_achievements.
  rewrite getlines_concat.
  - apply set_eq. intros a.
    rewrite elem_of_list_to_set, list_elem_of_filter, elem_of_set_in_order.
    split; [by intros [_ ?]|]. intros Ha. split; [|done]. by destruct (Hs a Ha).
  - apply Forall_forall. intros a Ha%elem_of_set_in_order.
    destruct (Hs a Ha) as (Hne & Hc & _). split; [done|].
    eapply Forall_impl; [exact Hc|]. by intros c [? _].
Qed.

Lemma join_achievements_first (s : gset string) :
  s ≠ ∅ → (∀ a, a ∈ s → storable_id a) →
  ∃ c r, join_achievements s = String c r ∧ isspace c = false.
Proof.
  intros Hne Hs. unfold join_achievements.
  destruct (set_in_order s) as [|a l] eqn:E.
  - exfalso. apply Hne. apply set_eq. intros a.
    rewrite <- elem_of_set_in_order, E. set_solver.
  - assert (a ∈ s) as Ha by (apply elem_of_set_in_order; rewrite E; by left).
    destruct (Hs a Ha) as (Hane & _ & Hsp).
    destruct a as [|c a]; [done|]. rewrite string_concat_cons.
    destruct l; [by exists c, a|]. string_simpl. by eexists c, _.
Qed.

Lemma join_achievements_chars (s : gset string) :
  (∀ a, a ∈ s → storable_id a) →
  Forall (λ c, c ≠ "010"%char) (chars (join_achievements s)).
Proof.
  intros Hs. unfold join_achievements.
  assert (Forall storable_id (set_in_order s)) as Hl
    by (apply Forall_forall; intros a Ha%elem_of_set_in_order; by apply Hs).
  induction Hl as [|a l (_ & Ha & _) Hl IH]; [constructor|].
  assert (Forall (λ c, c ≠ "010"%char) (chars a))
    by (eapply Forall_impl; [exact Ha|]; by intros c [_ ?]).
  rewrite string_concat_cons. destruct l; [done|].
  rewrite !chars_app. apply Forall_app. split; [done|].
  apply Forall_app. split; [|done]. repeat constructor. done.
Qed.

(** *** One record *)

Lemma extract_int_field (z : Z) (tail : string) :
  is_int z → starts_without_digit tail →
  extract_int (String " " (to_string z ++ tail)) = Some (z, tail).
Proof. intros. change (extract_int (to_string z ++ tail) = Some (z, tail)). by apply extract_int_to_string. Qed.

Lemma achievements_field_read (s : gset string) :
  set_Forall storable_id s →
  starts_without_digit (achievements_field s)
  ∧ (if decide (skip_ws (achievements_field s) = EmptyString) then ∅
     else split_achievements (skip_ws (achievements_field s))) = s.
Proof.
  intros Hs. unfold achievements_field. destruct (decide (s = ∅)) as [->|Hne]; [done|].
  destruct (join_achievements_first s Hne Hs) as (c & r & Hj & Hc).
  string_simpl. split; [done|]. cbn [skip_ws]. change (isspace " ") with true. cbv iota.
  rewrite Hj, skip_ws_word by done.
  destruct (decide _) as [|_]; [done|]. rewrite <- Hj. by apply split_join_achievements.
Qed.

Lemma stats_record_unfold (n : string) (ps : PlayerStats) :
  stats_record (n, ps) =
  (escape_name n ++ String " " (to_string (wins ps) ++ String " " (to_string (losses ps)
   ++ String " " (to_string (ties ps) ++ String " " (to_string (best_streak ps)
   ++ String " " (to_string (current_streak ps) ++ String " " (to_string (biggest_win ps)
   ++ String " " (to_string (total_games ps) ++ String " " (to_string (blackjacks ps)
   ++ achievements_field (achievements ps))))))))))%string.
Proof. reflexivity. Qed.

(** A written record is read back as it was. *)
Lemma parse_stats_record (n : string) (ps : PlayerStats) :
  storable_name n → storable_stats ps →
  parse_stats_line (stats_record (n, ps)) = Some (n, ps).
Proof.
  intros Hn (Hw & Hl & Ht & Hbs & Hcs & Hbw & Htg & Hbj & Hach).
  rewrite stats_record_unfold. unfold parse_stats_line.
  rewrite extract_word_app.
  2: { apply escape_name_nonempty, Hn. }
  2: { eapply Forall_impl; [by apply escape_name_chars|]. by intros c [? _]. }
  cbn [mbind option_bind].
  destruct (achievements_field_read _ Hach) as [Hstart Hread].
  repeat (rewrite extract_int_field by done; cbn [mbind option_bind]).
  cbv zeta. rewrite Hread, unescape_escape_name by done. by destruct ps.
Qed.

Lemma stats_record_chars (n : string) (ps : PlayerStats) :
  storable_name n → storable_stats ps →
  Forall (λ c, c ≠ "010"%char) (chars (stats_record (n, ps))).
Proof.
  intros Hn (_ & _ & _ & _ & _ & _ & _ & _ & Hach).
  assert (∀ z, Forall (λ c, c ≠ "010"%char) (chars (to_string z))) as Hz.
  { intros z. eapply Forall_impl; [apply to_string_chars|]. by intros c [_ ?]. }
  assert (Forall (λ c, c ≠ "010"%char) (chars (achievements_field (achievements ps)))) as Ha.
  { unfold achievements_field. destruct (decide _); [constructor|].
    rewrite chars_app. apply Forall_app. split; [repeat constructor; done|].
    by apply join_achievements_chars. }
  rewrite stats_record_unfold.
  rewrite chars_app. apply Forall_app. split.
  { eapply Forall_impl; [by apply escape_name_chars|]. by intros c [_ ?]. }
  repeat (apply Forall_cons; split; [done|]; rewrite chars_app; apply Forall_app; split; [apply Hz|]).
  exact Ha.
Qed.

(** *** The whole file *)

Lemma map_in_order_perm (m : gmap string PlayerStats) :
  Permutation (map_in_order m) (map_to_list m).
Proof. apply merge_sort_Permutation. Qed.

Lemma fold_insert_entries (es : list (string * PlayerStats)) (m0 : gmap string PlayerStats) :
  fold_left (λ m e, <[e.1 := e.2]> m) es m0 = list_to_map (reverse es) ∪ m0.
Proof.
  revert m0. induction es as [|[k v] es IH]; intros m0.
  - rewrite reverse_nil. symmetry. apply (left_id_L ∅ (∪)).
  - cbn [fold_left]. rewrite IH, reverse_cons, list_to_map_app.
    rewrite <- (assoc_L (∪)). f_equal.
    cbn [list_to_map foldr fst snd uncurry]. rewrite insert_empty.
    by rewrite insert_union_singleton_l.
Qed.

Lemma load_written_entries (es : list (string * PlayerStats)) (m0 : gmap string PlayerStats) :
  Forall (λ e, storable_name e.1 ∧ storable_stats e.2) es →
  fold_left load_line (stats_record <$> es) m0 = fold_left (λ m e, <[e.1 := e.2]> m) es m0.
Proof.
  intros Hes. revert m0. induction Hes as [|[n ps] es [Hn Hps] Hes IH]; intros m0; [done|].
  rewrite fmap_cons. cbn [fold_left]. rewrite <- IH. f_equal.
  unfold load_line. simpl in Hn, Hps.
  pose proof (parse_stats_record n ps Hn Hps) as Hparse.
  destruct (decide (stats_record (n, ps) = EmptyString)) as [e|_].
  - rewrite e in Hparse. done.
  - by rewrite Hparse.
Qed.

Lemma load_save (m m0 : gmap string PlayerStats) :
  storable m → load_stats_from_file (save_stats_to_file m) m0 = m ∪ m0.
Proof.
  intros Hm. unfold load_stats_from_file, save_stats_to_file.
  assert (Forall (λ e, storable_name e.1 ∧ storable_stats e.2) (map_in_order m)) as Hes.
  { apply Forall_forall. intros [n ps] He. rewrite map_in_order_perm in He.
    apply elem_of_map_to_list in He. by apply (Hm n ps). }
  replace (stats_line <$> map_in_order m)
    with ((λ x, x ++ String "010" "")%string <$> (stats_record <$> map_in_order m))
    by (by rewrite <- list_fmap_compose).
  rewrite getlines_lines.
  2: { apply Forall_fmap. eapply Forall_impl; [exact Hes|].
       intros [n ps] [Hn Hps]. by apply stats_record_chars. }
  rewrite load_written_entries, fold_insert_entries by done. f_equal.
  rewrite <- (list_to_map_to_list m) at 2.
  apply list_to_map_proper.
  - rewrite fmap_reverse, reverse_Permutation, map_in_order_perm.
    apply NoDup_fst_map_to_list.
  - by rewrite reverse_Permutation, map_in_order_perm.
Qed.


Ltac storable_name_tac :=
  split; [discriminate|];
  repeat (apply Forall_cons; split;
          [split; [discriminate | intros Hsp; first [reflexivity | by vm_compute in Hsp]]|]);
  apply Forall_nil_2.

Ltac storable_id_tac :=
  split; [discriminate|]; split; [|vm_compute; reflexivity];
  repeat (apply Forall_cons; split; [split; discriminate|]); apply Forall_nil_2.

Ltac storable_stats_tac :=
  unfold storable_stats, is_int, INT_MIN, INT_MAX;
  cbn [wins losses ties best_streak current_streak biggest_win total_games blackjacks
       achievements];
  repeat (split; [lia|]).

Lemma sample_stats_storable : storable sample_stats.
Proof.
  unfold storable, sample_stats.
  apply map_Forall_insert_2; [|apply map_Forall_insert_2; [|apply map_Forall_empty]].
  - split; [storable_name_tac|]. storable_stats_tac.
    repeat (apply set_Forall_union); apply set_Forall_singleton; storable_id_tac.
  - split; [storable_name_tac|]. storable_stats_tac. apply set_Forall_empty.
Qed.



(** ** The ties counter over a whole round *)

Section outcome_facts.
Context {S : Type} (P : S → S → Prop).
Hypothesis P_refl : ∀ s, P s s.
Hypothesis P_trans : ∀ s1 s2 s3, P s1 s2 → P s2 s3 → P s1 s3.

Lemma outcome_rel_ok (s s' : S) : P s s' → outcome_rel P s (Ok s').
Proof. done. Qed.

Lemma outcome_rel_bind (s : S) (o : outcome S) (k : S → outcome S) :
  outcome_rel P s o → (∀ s1, outcome_rel P s1 (k s1)) → outcome_rel P s (obind o k).
Proof.
  intros Ho Hk. destruct o as [s1|s1| | |]; simpl in *; try done.
  specialize (Hk s1). destruct (k s1); simpl in *; eauto.
Qed.

Lemma outcome_rel_weaken (s0 s : S) (o : outcome S) :
  P s0 s → outcome_rel P s o → outcome_rel P s0 o.
Proof. intros H0 Ho. destruct o; simpl in *; eauto. Qed.

Lemma outcome_rel_fold {A : Type} (F : A → S → outcome S) (l : list A) (s : S) (o : outcome S) :
  (∀ x s1, outcome_rel P s1 (F x s1)) →
  outcome_rel P s o →
  outcome_rel P s (fold_left (λ o x, obind o (F x)) l o).
Proof.
  intros HF. revert o. induction l as [|x l IH]; intros o Ho; simpl; [done|].
  apply IH. apply outcome_rel_bind; [done|]. apply HF.
Qed.
End outcome_facts.

Section ties_facts.
Context {G : Type} `{!RandomEngine G}.
Implicit Types g : BlackjackGame G.

Lemma ties_kept_refl g : ties_kept_or_reset g g.
Proof. intros n. by left. Qed.

Lemma ties_kept_trans g1 g2 g3 :
  ties_kept_or_reset g1 g2 → ties_kept_or_reset g2 g3 → ties_kept_or_reset g1 g3.
Proof.
  intros H12 H23 n. destruct (H23 n) as [->|?]; [apply H12|by right].
Qed.

Lemma ties_kept_same g g' : same_counter ties g g' → ties_kept_or_reset g g'.
Proof. intros H n. left. apply H. Qed.

Lemma ties_kept_stats g g' : persistent_stats g' = persistent_stats g → ties_kept_or_reset g g'.
Proof. intros H n. left. by rewrite H. Qed.

Lemma ties_kept_ok g g1 g' :
  ties_kept_or_reset g g1 → outcome_rel ties_kept_or_reset g1 (Ok g') →
  outcome_rel ties_kept_or_reset g (Ok g').
Proof. intros H1 H2. simpl in *. by eapply ties_kept_trans. Qed.

(** *** Bets *)

Lemma getline_cin_stats g : persistent_stats (getline_cin g).2 = persistent_stats g.
Proof. unfold getline_cin. by destruct (cin g). Qed.

Lemma human_bet_stats p g : persistent_stats (human_bet p g).2 = persistent_stats g.
Proof.
  unfold human_bet.
  set (g1 := if in_avail g (cin g) then (getline_cin g).2 else g).
  assert (persistent_stats g1 = persistent_stats g) as H1
    by (subst g1; destruct (in_avail g (cin g)); [apply getline_cin_stats|done]).
  pose proof (getline_cin_stats g1) as H2.
  destruct (getline_cin g1) as [line g2]. simpl in *. congruence.
Qed.

Lemma npc_extra_ties p roll g : same_counter ties g (npc_extra p roll g).2.
Proof.
  unfold npc_extra.
  destruct (contains "Cautious" (name p)); [done|].
  destruct (contains "Reckless" (name p)); [done|].
  destruct (contains "Smart" (name p)); [|by destruct (contains "Chaotic" (name p))].
  cbn [snd]. by apply same_counter_touch.
Qed.

Lemma npc_bet_ties p g : same_counter ties g (npc_bet p g).2.
Proof.
  unfold npc_bet. destruct (uniform_int 0 99 (game_rng g)) as [roll r].
  pose proof (npc_extra_ties p roll (set_rng r g)) as H.
  destruct (npc_extra p roll (set_rng r g)) as [extra g1]. exact H.
Qed.

Lemma collect_bet_ties g i : same_counter ties g (collect_bet g i).
Proof.
  unfold collect_bet. destruct (players g !! i) as [p|]; [|done].
  destruct (chips p <=? 0); [done|].
  destruct (is_human p).
  - pose proof (human_bet_stats p g) as H.
    destruct (human_bet p g) as [bet g1]. intros n. simpl in *. by rewrite H.
  - pose proof (npc_bet_ties p g) as H.
    destruct (npc_bet p g) as [bet g1]. exact H.
Qed.

Lemma collect_bets_ties g : same_counter ties g (collect_bets g).
Proof. unfold collect_bets. apply same_counter_fold, collect_bet_ties. Qed.

(** *** Dealing and turns *)

Lemma deal_card_to_ties i g : outcome_rel ties_kept_or_reset g (deal_card_to i g).
Proof.
  unfold deal_card_to. destruct (deal_one (deck g)) as [[c d]|]; [|done].
  by apply ties_kept_stats.
Qed.

Lemma initial_deal_ties g : outcome_rel ties_kept_or_reset g (initial_deal_animated g).
Proof.
  assert (∀ g, outcome_rel ties_kept_or_reset g (deal_pass g)) as Hpass.
  { intros g0. unfold deal_pass.
    apply (outcome_rel_fold _ ties_kept_trans
             (λ i g, match players g !! i with
                     | None => Ok g
                     | Some p => if chips p <? 0 then Ok g else deal_card_to i g
                     end)); [|apply ties_kept_refl].
    intros i g1. destruct (players g1 !! i) as [p|]; [|apply ties_kept_refl].
    destruct (chips p <? 0); [apply ties_kept_refl|apply deal_card_to_ties]. }
  unfold initial_deal_animated. apply outcome_rel_bind; [apply ties_kept_trans|done..].
Qed.

Lemma unlock_if_ties b n k g : ties_kept_or_reset g (unlock_if b n k g).
Proof. by apply ties_kept_same, same_counter_unlock_if. Qed.

Lemma detect_blackjacks_ties g : same_counter ties g (detect_blackjacks g).
Proof.
  unfold detect_blackjacks. apply same_counter_fold.
  intros g1 i. unfold detect_blackjack. destruct (players g1 !! i) as [p|]; [|done].
  destruct (chips p <? 0); [done|]. destruct (is_blackjack (hand p)); [|done].
  eapply same_counter_trans; [|by apply same_counter_unlock_if].
  eapply (same_counter_trans ties _ (alter_player i mark_stood g1)); [done|].
  by apply same_counter_alter_stats.
Qed.

Lemma npc_should_hit_stats p g : persistent_stats (npc_should_hit p g).2 = persistent_stats g.
Proof.
  unfold npc_should_hit.
  destruct (contains "Cautious" (name p)); [done|].
  destruct (contains "Reckless" (name p)); [done|].
  destruct (contains "Smart" (name p)); [done|].
  destruct (contains "Chaotic" (name p)); [|done].
  by destruct (uniform_int 0 1 (game_rng g)).
Qed.

Lemma npc_turn_ties fuel i g : outcome_rel ties_kept_or_reset g (npc_turn fuel i g).
Proof.
  revert g. induction fuel as [|fuel IH]; intros g; simpl.
  - destruct (players g !! i) as [p|]; [|apply ties_kept_refl].
    destruct (busted p || stood p); [apply ties_kept_refl|done].
  - destruct (players g !! i) as [p|]; [|apply ties_kept_refl].
    destruct (busted p || stood p); [apply ties_kept_refl|].
    pose proof (npc_should_hit_stats p g) as Hs.
    destruct (npc_should_hit p g) as [hit g1]. simpl in Hs.
    apply (outcome_rel_weaken _ ties_kept_trans g g1); [by apply ties_kept_stats|].
    destruct hit; [|by apply ties_kept_stats].
    apply outcome_rel_bind; [apply ties_kept_trans|apply deal_card_to_ties|].
    intros g2. destruct (players g2 !! i) as [p2|]; [|apply ties_kept_refl].
    destruct (21 <? hand_value p2); [by apply ties_kept_stats|apply IH].
Qed.

(** A reset puts the counter at 0. *)
Lemma reset_profile_ties n g : ties_kept_or_reset g (reset_profile n g).
Proof.
  unfold reset_profile. destruct (persistent_stats g !! n); [|apply ties_kept_refl].
  intros n'. cbn [persistent_stats save_stats set_file set_players set_stats].
  unfold stats_of at 1 3. rewrite lookup_insert.
  destruct (decide (n = n')); [by right|by left].
Qed.

Lemma reset_all_profiles_ties g : ties_kept_or_reset g (reset_all_profiles g).
Proof.
  intros n. cbn [reset_all_profiles persistent_stats save_stats set_file set_players set_stats].
  unfold stats_of. rewrite lookup_fmap.
  destruct (persistent_stats g !! n); [by right|by left].
Qed.

Lemma display_profiles_menu_ties fuel g :
  outcome_rel ties_kept_or_reset g (display_profiles_menu fuel g).
Proof.
  revert g. induction fuel as [|fuel IH]; intros g; simpl; [done|].
  destruct (read_choice (cin g)) as [[[choice|] ls]|]; [| |done].
  - destruct (choice =? 5); [by apply ties_kept_stats|].
    destruct (choice =? 3).
    { pose proof (getline_cin_stats (set_cin ls g)) as Hs.
      destruct (getline_cin (set_cin ls g)) as [n g1]. simpl in Hs.
      apply (outcome_rel_weaken _ ties_kept_trans g (reset_profile n g1)); [|apply IH].
      eapply ties_kept_trans; [|apply reset_profile_ties]. by apply ties_kept_stats. }
    destruct (choice =? 4).
    { apply (outcome_rel_weaken _ ties_kept_trans g (reset_all_profiles (set_cin ls g)));
        [|apply IH].
      eapply ties_kept_trans; [|apply reset_all_profiles_ties]. by apply ties_kept_stats. }
    destruct ((choice =? 2) || (choice =? 6) || (choice =? 8)).
    + apply (outcome_rel_weaken _ ties_kept_trans g (getline_cin (set_cin ls g)).2); [|apply IH].
      apply ties_kept_stats. by rewrite getline_cin_stats.
    + apply (outcome_rel_weaken _ ties_kept_trans g (set_cin ls g)); [|apply IH].
      by apply ties_kept_stats.
  - apply (outcome_rel_weaken _ ties_kept_trans g (set_cin ls g)); [|apply IH].
    by apply ties_kept_stats.
Qed.

Lemma human_hit_ties i g : outcome_rel ties_kept_or_reset g (human_hit i g).
Proof.
  unfold human_hit. apply outcome_rel_bind; [apply ties_kept_trans|apply deal_card_to_ties|].
  intros g1. destruct (players g1 !! i) as [p|]; [|apply ties_kept_refl].
  destruct (21 <? hand_value p); [|apply ties_kept_refl].
  apply (ties_kept_trans _ (alter_player i mark_busted g1)); [by apply ties_kept_stats|].
  apply unlock_if_ties.
Qed.

Lemma human_discard_stats i g : persistent_stats (human_discard i g) = persistent_stats g.
Proof.
  unfold human_discard. destruct (players g !! i) as [p|]; [|done].
  by destruct (last (hand p)).
Qed.

Lemma human_turn_ties fuel i g : outcome_rel ties_kept_or_reset g (human_turn fuel i g).
Proof.
  revert g. induction fuel as [|fuel IH]; intros g; simpl.
  - destruct (players g !! i) as [p|]; [|apply ties_kept_refl].
    destruct (stood p || busted p); [apply ties_kept_refl|done].
  - destruct (players g !! i) as [p|]; [|apply ties_kept_refl].
    destruct (stood p || busted p); [apply ties_kept_refl|].
    destruct (cin g) as [|l0 ls] eqn:Hcin; [done|].
    pose proof (getline_cin_stats g) as Hs1.
    destruct (getline_cin g) as [line g1]. simpl in Hs1.
    assert (∃ line2 g2,
              (if decide (line = EmptyString) then getline_cin g1 else (line, g1)) = (line2, g2)
              ∧ persistent_stats g2 = persistent_stats g) as (line2 & g2 & -> & Hs2).
    { destruct (decide (line = EmptyString)).
      - pose proof (getline_cin_stats g1) as Hs.
        destruct (getline_cin g1) as [line2 g2]. exists line2, g2. simpl in Hs.
        split; [done|congruence].
      - by exists line, g1. }
    apply (outcome_rel_weaken _ ties_kept_trans g g2); [by apply ties_kept_stats|].
    destruct (Ascii.eqb (first_char line2) "h").
    { apply outcome_rel_bind; [apply ties_kept_trans|apply human_hit_ties|apply IH]. }
    destruct (Ascii.eqb (first_char line2) "s").
    { apply (outcome_rel_weaken _ ties_kept_trans g2 (alter_player i mark_stood g2)); [|apply IH].
      by apply ties_kept_stats. }
    destruct (Ascii.eqb (first_char line2) "d").
    { apply (outcome_rel_weaken _ ties_kept_trans g2 (human_discard i g2)); [|apply IH].
      apply ties_kept_stats, human_discard_stats. }
    destruct (Ascii.eqb (first_char line2) "v").
    { apply outcome_rel_bind; [apply ties_kept_trans|apply display_profiles_menu_ties|apply IH]. }
    destruct (Ascii.eqb (first_char line2) "q"); [by apply ties_kept_stats|apply IH].
Qed.

Lemma action_loop_ties fuel g : outcome_rel ties_kept_or_reset g (action_loop fuel g).
Proof.
  unfold action_loop.
  apply (outcome_rel_fold _ ties_kept_trans
           (λ i g, match players g !! i with
                   | None => Ok g
                   | Some p =>
                       if chips p <? 0 then Ok g
                       else if is_human p then
                         (if negb (stood p || busted p) then human_turn fuel i g else Ok g)
                       else
                         (if negb (stood p || busted p) then npc_turn fuel i g else Ok g)
                   end)); [|apply ties_kept_refl].
  intros i g1. destruct (players g1 !! i) as [p|]; [|apply ties_kept_refl].
  destruct (chips p <? 0); [apply ties_kept_refl|].
  destruct (is_human p); destruct (negb (stood p || busted p));
    first [apply ties_kept_refl | apply human_turn_ties | apply npc_turn_ties].
Qed.

(** Over a whole round the ties counter under a name keeps its value, or, when
    the profile was reset from the menu during the human turn, is 0. *)
Lemma play_round_ties fuel g : outcome_rel ties_kept_or_reset g (play_round fuel g).
Proof.
  unfold play_round.
  apply (outcome_rel_weaken _ ties_kept_trans g (collect_bets (prepare_round g))).
  { apply (ties_kept_trans _ (prepare_round g)); [by apply ties_kept_stats|].
    apply ties_kept_same, collect_bets_ties. }
  apply outcome_rel_bind; [apply ties_kept_trans|apply initial_deal_ties|].
  intros g1.
  apply (outcome_rel_weaken _ ties_kept_trans g1 (detect_blackjacks g1));
    [apply ties_kept_same, detect_blackjacks_ties|].
  apply outcome_rel_bind; [apply ties_kept_trans|apply action_loop_ties|].
  intros g2. simpl. apply ties_kept_same.
  apply (same_counter_trans ties _ (post_round_achievements (settle g2))); [|done].
  eapply same_counter_trans; [apply settle_keeps_ties|by apply same_counter_post_round].
Qed.
End ties_facts.

(** C10.  With distinct player names, the settlement leaves the ties counter
    under every name as it was; it adds one win, and no loss, to the record of
    every winner (the players tied at the best value), and one loss, and no
    win, to the record of every other player (when everybody is busted: of
    every other player whose chip balance is not negative).  Over a whole
    round, however it ends, the ties counter under a name is as before the
    round, or is 0 after a profile reset from the menu. *)
Theorem settle_never_records_a_tie {G : Type} `{!RandomEngine G} (g : BlackjackGame G) :
  NoDup (name <$> players g) →
  (∀ n, ties (stats_of (persistent_stats (settle g)) n)
        = ties (stats_of (persistent_stats g) n))
  ∧ (∀ i p, players g !! i = Some p →
       let before := stats_of (persistent_stats g) (name p) in
       let after := stats_of (persistent_stats (settle g)) (name p) in
       if decide (i ∈ evaluate_winners (players g))
       then wins after = wins before + 1 ∧ losses after = losses before
       else wins after = wins before
            ∧ losses after = losses before
                + (if decide (evaluate_winners (players g) = [] ∧ chips p < 0)
                   then 0 else 1))
  ∧ (∀ fuel, outcome_rel ties_kept_or_reset g (play_round fuel g)).
Proof.
  intros Hnd. destruct (settle_counts g Hnd) as [Hties Hrec].
  split; [exact Hties|]. split; [exact Hrec|].
  intros fuel. apply play_round_ties.
Qed.

Lemma settle_never_records_a_tie_witness :
  ties (stats_of (persistent_stats (settle settlement_table)) "You") = 0
  ∧ wins (stats_of (persistent_stats (settle settlement_table)) "You") = 1
  ∧ losses (stats_of (persistent_stats (settle settlement_table)) "Cautious Carl") = 1.
Proof.
  assert (NoDup (name <$> players settlement_table)) as Hnd.
  { vm_compute. repeat (constructor; [rewrite ?elem_of_cons, elem_of_nil; intuition discriminate|]).
    constructor. }
  destruct (settle_never_records_a_tie settlement_table Hnd) as (Hties & Hrec & _).
  split; [exact (Hties "You")|]. split.
  - pose proof (Hrec 1%nat _ eq_refl) as H1. cbn zeta in H1.
    destruct (decide _) as [_|Hn] in H1; [exact (proj1 H1)|].
    exfalso. apply Hn. vm_compute. apply elem_of_cons. by left.
  - pose proof (Hrec 0%nat _ eq_refl) as H0. cbn zeta in H0.
    destruct (decide (0%nat ∈ _)) as [Hin|_] in H0.
    + exfalso. vm_compute in Hin. apply elem_of_cons in Hin as [?|Hin]; [done|].
      by apply elem_of_nil in Hin.
    + destruct H0 as [_ H0]. destruct (decide _) as [[He _]|_] in H0; [by vm_compute in He|].
      exact H0.
Defined.


(** * Further properties of the round engine *)

(** ** Winners *)

(** X1.  The evaluation finds no winner exactly when every player is marked
    busted or holds more than 21; and the best value it computes lies between
    0 and 21. *)
Theorem no_winner_iff_nobody_stands (ps : list Player) :
  (evaluate_winners ps = [] ↔ ∀ p, p ∈ ps → busted p = true ∨ 21 < hand_value p)
  ∧ 0 ≤ best_value_of ps ≤ 21.
Proof.
  destruct (best_fold_spec ps 0) as (H1 & H2 & H3). fold (best_value_of ps) in H1, H2, H3.
  split; [|split; [done|destruct H3 as [->|(q & _ & _ & Hq & <-)]; lia]].
  split.
  - intros Hnil p Hp.
    destruct (busted p) eqn:Hb; [by left|]. right.
    destruct (Z.lt_ge_cases 21 (hand_value p)) as [|Hle]; [done|]. exfalso.
    assert (∃ q, q ∈ ps ∧ busted q = false ∧ hand_value q = best_value_of ps)
      as (q & Hq & Hqb & Hqv).
    { destruct H3 as [H0|(q & Hq & Hqb & _ & Hqv)]; [|by exists q].
      exists p. split; [done|]. split; [done|].
      pose proof (H2 p Hp Hb Hle). pose proof (hand_value_nonneg p). lia. }
    apply list_elem_of_lookup_1 in Hq as [i Hi].
    assert (i ∈ evaluate_winners ps) as Hin
      by (apply elem_of_evaluate_winners; by exists q).
    rewrite Hnil in Hin. by apply elem_of_nil in Hin.
  - intros Hall. apply elem_of_nil_inv. intros i (p & Hp & Hb & H21 & _)%evaluate_winners_spec.
    apply list_elem_of_lookup_2 in Hp. destruct (Hall p Hp); [congruence|lia].
Qed.

(** ** Hand values *)

Lemma card_value_cases (c : Card) :
  (RankValue !! rank c = None ∧ card_value c = 0 ∧ rank c ≠ "A")
  ∨ (RankValue !! rank c = Some (card_value c) ∧ 2 ≤ card_value c ≤ 11
     ∧ (rank c = "A" ↔ card_value c = 11)).
Proof.
  unfold card_value. destruct (RankValue !! rank c) as [v|] eqn:E; simpl.
  - right. split; [done|]. by apply RankValue_cases.
  - left. split; [done|]. split; [done|]. intros e. by rewrite e, RankValue_ace in E.
Qed.

Lemma ace_count_cons (c : Card) (h : list Card) :
  ace_count (c :: h) = (if decide (rank c = "A") then 1 else 0) + ace_count h.
Proof.
  unfold ace_count. rewrite filter_cons.
  destruct (decide (rank c = "A")); simpl; lia.
Qed.

Lemma ace_count_nonneg (h : list Card) : 0 ≤ ace_count h.
Proof. unfold ace_count. lia. Qed.

(** The accumulation loop computes the two sums. *)
Lemma fold_value_step_sums (h : list Card) (t a : Z) :
  fold_left value_step h (t, a) = (t + raw_total h, a + ace_count h).
Proof.
  revert t a. induction h as [|c h IH]; intros t a.
  - simpl. f_equal; unfold ace_count; simpl; lia.
  - cbn [fold_left]. rewrite ace_count_cons. cbn [raw_total foldr]. fold (raw_total h).
    unfold value_step at 2.
    destruct (card_value_cases c) as [(E & Hv & Hna)|(E & Hv & Hace)]; rewrite E.
    + rewrite IH. destruct (decide (rank c = "A")); [done|]. f_equal; lia.
    + rewrite IH. destruct (decide (rank c = "A")); f_equal; lia.
Qed.

Lemma raw_total_perm (h h' : list Card) : Permutation h h' → raw_total h = raw_total h'.
Proof.
  induction 1 as [|c h h' _ IH|c1 c2 h|h1 h2 h3 _ IH1 _ IH2]; simpl; lia.
Qed.

Lemma ace_count_perm (h h' : list Card) : Permutation h h' → ace_count h = ace_count h'.
Proof. intros Hp. unfold ace_count. by rewrite Hp. Qed.

Lemma adjusted_hand_sums (h : list Card) :
  adjusted_hand h = reduce_aces (Z.to_nat (ace_count h)) (raw_total h) (ace_count h).
Proof.
  unfold adjusted_hand. rewrite fold_value_step_sums. simpl.
  by rewrite !Z.add_0_l.
Qed.

(** X2.  The value of a hand, whether it is soft for [is_soft_hand], and
    whether it is a natural blackjack do not depend on the order of the
    cards. *)
Theorem hand_value_order_independent (h h' : list Card) :
  Permutation h h' →
  compute_hand_value h = compute_hand_value h'
  ∧ is_soft_hand h = is_soft_hand h'
  ∧ is_blackjack h = is_blackjack h'.
Proof.
  intros Hp.
  assert (compute_hand_value h = compute_hand_value h') as Hv.
  { unfold compute_hand_value. rewrite !adjusted_hand_sums.
    by rewrite (raw_total_perm h h' Hp), (ace_count_perm h h' Hp). }
  split; [exact Hv|]. split.
  - unfold is_soft_hand. rewrite !fold_soft_step, !fold_value_step_sums.
    by rewrite (raw_total_perm h h' Hp), (ace_count_perm h h' Hp).
  - unfold is_blackjack. rewrite Hv. f_equal.
    apply bool_decide_ext. by rewrite (Permutation_length Hp).
Qed.

Lemma hand_value_order_independent_witness :
  compute_hand_value (cards [("A", Spades); ("9", Hearts); ("5", Clubs)])
  = compute_hand_value (cards [("5", Clubs); ("A", Spades); ("9", Hearts)]).
Proof.
  apply (hand_value_order_independent
           (cards [("A", Spades); ("9", Hearts); ("5", Clubs)])
           (cards [("5", Clubs); ("A", Spades); ("9", Hearts)])).
  exact (Permutation_sym
           (Permutation_cons_append (cards [("A", Spades); ("9", Hearts)]) (mkCard "5" Clubs))).
Defined.

(** The reduction loop stops at the first total that fits. *)
Lemma reduce_aces_first (fuel : nat) (t a : Z) :
  (reduce_aces fuel t a).2 < a → 21 < (reduce_aces fuel t a).1 + 10.
Proof.
  revert t a. induction fuel as [|fuel IH]; intros t a; simpl; [lia|].
  destruct (Z.ltb_spec 21 t); simpl; [|lia].
  destruct (Z.ltb_spec 0 a); simpl; [|lia].
  intros Hlt.
  destruct (Z.eq_dec (reduce_aces fuel (t - 10) (a - 1)).2 (a - 1)) as [e|ne].
  - assert (reduce_aces fuel (t - 10) (a - 1) = (t - 10, a - 1)) as ->; [|simpl; lia].
    clear IH Hlt. revert e. generalize (t - 10) (a - 1). clear.
    induction fuel as [|fuel IH]; intros t a; simpl; [done|].
    destruct (21 <? t); simpl; [|done]. destruct (Z.ltb_spec 0 a); simpl; [|done].
    intros e. exfalso.
    assert (∀ f t a, (reduce_aces f t a).2 ≤ a) as Hle.
    { clear. induction f as [|f IHf]; intros t a; simpl; [lia|].
      destruct (21 <? t); simpl; [|lia]. destruct (0 <? a); simpl; [|lia].
      specialize (IHf (t - 10) (a - 1)). lia. }
    specialize (Hle fuel (t - 10) (a - 1)). lia.
  - apply IH.
    assert (∀ f t a, (reduce_aces f t a).2 ≤ a) as Hle.
    { clear. induction f as [|f IHf]; intros t a; simpl; [lia|].
      destruct (21 <? t); simpl; [|lia]. destruct (0 <? a); simpl; [|lia].
      specialize (IHf (t - 10) (a - 1)). lia. }
    specialize (Hle fuel (t - 10) (a - 1)). lia.
Qed.

(** The value of a hand in terms of its two sums. *)
Lemma compute_hand_value_spec (h : list Card) :
  let v := compute_hand_value h in
  let k := ace_count h - aces_counted_as_11 h in
  0 ≤ k ≤ ace_count h
  ∧ v = raw_total h - 10 * k
  ∧ (v ≤ 21 ∨ k = ace_count h)
  ∧ (0 < k → 21 < v + 10).
Proof.
  unfold compute_hand_value, aces_counted_as_11. rewrite adjusted_hand_sums.
  pose proof (ace_count_nonneg h) as Ha.
  destruct (reduce_aces_spec (Z.to_nat (ace_count h)) (raw_total h) (ace_count h))
    as (H1 & H2 & H3 & _); [lia|lia|].
  pose proof (reduce_aces_first (Z.to_nat (ace_count h)) (raw_total h) (ace_count h)) as H4.
  cbv zeta. repeat split; lia.
Qed.

(** X3.  The value of a hand is its raw total with some aces re-counted as 1;
    when it is at most 21 it is the highest such total that does not exceed
    21; and it exceeds 21 exactly when the total with every ace counted as 1
    does. *)
Theorem hand_value_is_best_total (h : list Card) :
  (∃ k, 0 ≤ k ≤ ace_count h ∧ compute_hand_value h = raw_total h - 10 * k)
  ∧ (compute_hand_value h ≤ 21 →
     ∀ k, 0 ≤ k ≤ ace_count h → raw_total h - 10 * k ≤ 21 →
          raw_total h - 10 * k ≤ compute_hand_value h)
  ∧ (21 < compute_hand_value h ↔ 21 < raw_total h - 10 * ace_count h).
Proof.
  destruct (compute_hand_value_spec h) as (Hk & Hv & Hstop & Hfirst). cbv zeta in *.
  set (k0 := ace_count h - aces_counted_as_11 h) in *.
  split; [by exists k0|]. split.
  - intros Hle k Hk' Hfit.
    destruct (Z.eq_dec k0 0) as [e|ne]; [lia|].
    specialize (Hfirst ltac:(lia)). lia.
  - split; intros H; [destruct Hstop; lia|lia].
Qed.

Lemma two_card_value (c1 c2 : Card) :
  compute_hand_value [c1; c2] = 21 ↔ card_value c1 + card_value c2 = 21.
Proof.
  destruct (compute_hand_value_spec [c1; c2]) as (Hk & Hv & Hstop & Hfirst). cbv zeta in *.
  remember (ace_count [c1; c2] - aces_counted_as_11 [c1; c2]) as k0 eqn:Ek. clear Ek.
  rewrite !ace_count_cons in Hk, Hstop. unfold ace_count in Hk, Hstop.
  simpl in Hk, Hstop. cbn [raw_total foldr] in Hv.
  destruct (card_value_cases c1) as [(_ & Hv1 & Hn1)|(_ & Hv1 & Ha1)];
    destruct (card_value_cases c2) as [(_ & Hv2 & Hn2)|(_ & Hv2 & Ha2)];
    destruct (decide (rank c1 = "A")) as [e1|ne1];
    destruct (decide (rank c2 = "A")) as [e2|ne2]; try done; try lia;
    try (apply Ha1 in e1); try (apply Ha2 in e2); lia.
Qed.

(** X4.  A hand is a natural blackjack exactly when it consists of an ace and
    a card of value 10, in either order. *)
Theorem is_blackjack_iff (h : list Card) :
  is_blackjack h = true ↔
  ∃ c1 c2, h = [c1; c2]
           ∧ ((rank c1 = "A" ∧ card_value c2 = 10) ∨ (card_value c1 = 10 ∧ rank c2 = "A")).
Proof.
  unfold is_blackjack. rewrite andb_true_iff, bool_decide_eq_true, Z.eqb_eq.
  split.
  - intros [Hlen H21]. destruct h as [|c1 [|c2 [|c3 h]]]; try done.
    exists c1, c2. split; [done|]. apply two_card_value in H21.
    destruct (card_value_cases c1) as [(_ & Hv1 & Hn1)|(_ & Hv1 & Ha1)];
      destruct (card_value_cases c2) as [(_ & Hv2 & Hn2)|(_ & Hv2 & Ha2)]; try lia.
    destruct (Z.eq_dec (card_value c1) 11) as [e|ne].
    + left. split; [by apply Ha1|lia].
    + right. split; [lia|]. apply Ha2. lia.
  - intros (c1 & c2 & -> & Hcase). split; [done|]. apply two_card_value.
    destruct (card_value_cases c1) as [(_ & Hv1 & Hn1)|(_ & Hv1 & Ha1)];
      destruct (card_value_cases c2) as [(_ & Hv2 & Hn2)|(_ & Hv2 & Ha2)];
      destruct Hcase as [[e1 H10]|[H10 e2]]; try done; try lia;
      try (apply Ha1 in e1); try (apply Ha2 in e2); lia.
Qed.

(** ** The upcard seen by the Analytical player *)

Lemma visible_step_bounds (self_name : string) (hi : Z) (pl : Player) :
  2 ≤ hi ≤ 11 → hi ≤ visible_step self_name hi pl ≤ 11.
Proof.
  intros Hhi. unfold visible_step.
  destruct (decide (name pl = self_name)); [lia|].
  destruct (hand pl) as [|c ?]; [lia|].
  destruct (RankValue !! rank c) as [v|] eqn:E; [|lia].
  apply RankValue_cases in E as [Hv _]. lia.
Qed.

(** X5.  The highest visible card value is between 2 and 11, whatever the
    table, and the hands of the players who bear the asking player's name do
    not count. *)
Theorem visible_highest_card_bounds (players : list Player) (self_name : string) :
  2 ≤ get_visible_highest_card_value players self_name ≤ 11
  ∧ get_visible_highest_card_value players self_name
    = get_visible_highest_card_value (filter (λ p, name p ≠ self_name) players) self_name.
Proof.
  unfold get_visible_highest_card_value.
  assert (∀ hi, 2 ≤ hi ≤ 11 →
            hi ≤ fold_left (visible_step self_name) players hi ≤ 11
            ∧ fold_left (visible_step self_name) players hi
              = fold_left (visible_step self_name)
                  (filter (λ p, name p ≠ self_name) players) hi) as H.
  { induction players as [|pl ps IH]; intros hi Hhi; simpl; [split; [lia|done]|].
    pose proof (visible_step_bounds self_name hi pl Hhi) as Hb.
    destruct (IH (visible_step self_name hi pl) ltac:(lia)) as [Hr Heq].
    split; [lia|]. rewrite filter_cons.
    destruct (decide (name pl ≠ self_name)) as [Hne|He]; [exact Heq|].
    assert (visible_step self_name hi pl = hi) as Hsame.
    { unfold visible_step. destruct (decide (name pl = self_name)); [done|].
      exfalso. by apply He. }
    rewrite Hsame in Heq |- *. exact Heq. }
  destruct (H 2 ltac:(lia)) as [Hr Heq]. split; [lia|exact Heq].
Qed.

(** ** The shoe, continued *)

Section more_deck_facts.
Context {G : Type} `{!RandomEngine G}.
Implicit Types d : Deck G.

(** X6.  [deal_one] fails in two situations only: the undealt sequence is
    empty and the discard pile holds exactly one card, or both are empty and
    the number of decks is not positive. *)
Theorem deal_one_fails_iff d :
  deal_one d = None ↔
  container d = []
  ∧ ((∃ c, discard d = [c]) ∨ (discard d = [] ∧ decks d ≤ 0)).
Proof.
  split.
  - intros Hnone.
    destruct (container d) as [|c0 rest] eqn:Ec.
    2: { rewrite (deal_one_nonempty d c0 rest Ec) in Hnone. done. }
    split; [done|].
    destruct (discard d) as [|top [|c2 below]] eqn:Ed.
    + right. split; [done|]. destruct (Z.le_gt_cases (decks d) 0) as [|Hpos]; [done|].
      destruct (deal_one_is_Some d) as [x Hx]; [|congruence].
      right. right. split; [done|lia].
    + left. by exists top.
    + destruct (deal_one_is_Some d) as [x Hx]; [|congruence].
      right. left. rewrite Ed. simpl. lia.
  - intros [Ec Hcase]. rewrite (deal_one_empty d Ec). unfold refill.
    destruct Hcase as [[c Ed]|[Ed Hdecks]]; rewrite Ed.
    + unfold shuffle_deck. cbn [container rng]. rewrite Ec. simpl.
      pose proof (std_shuffle_nil (rng d)) as Hnil.
      destruct (std_shuffle (rng d) []) as [tmp g']. simpl in *. by rewrite Hnil.
    + unfold shuffle_deck, build_new_deck. cbn [container rng].
      replace (Z.to_nat (decks d)) with 0%nat by lia. simpl.
      pose proof (std_shuffle_nil (rng d)) as Hnil.
      destruct (std_shuffle (rng d) []) as [tmp g']. simpl in *. by rewrite Hnil.
Qed.

(** X7.  A successful deal takes the front card when the undealt sequence is
    not empty, records the card among the seen cards, and never changes the
    number of decks; after a refill out of a fresh shoe the seen cards are
    that one card only. *)
Theorem deal_one_bookkeeping d (c : Card) d' :
  deal_one d = Some (c, d') →
  canonical c ∈ seen_cards d'
  ∧ decks d' = decks d
  ∧ (∀ c0 rest, container d = c0 :: rest →
       c = c0 ∧ container d' = rest ∧ discard d' = discard d
       ∧ seen_cards d' = {[canonical c]} ∪ seen_cards d)
  ∧ (container d = [] → discard d = [] →
       seen_cards d' = {[canonical c]}
       ∧ size d' = 52 * decks d - 1).
Proof.
  intros Hdeal. split; [|split; [|split]].
  - unfold deal_one in Hdeal.
    destruct (container (match container d with [] => refill d | _ :: _ => d end));
      [done|]. injection Hdeal as <- <-. simpl. set_solver.
  - unfold deal_one in Hdeal.
    destruct (container d) as [|c0 rest] eqn:Ec.
    + destruct (container (refill d)) as [|c1 rest1]; [done|].
      injection Hdeal as <- <-. simpl. unfold refill.
      destruct (discard d); by rewrite shuffle_deck_decks.
    + rewrite Ec in Hdeal. by simplify_eq.
  - intros c0 rest Ec. rewrite (deal_one_nonempty d c0 rest Ec) in Hdeal.
    by injection Hdeal as <- <-.
  - intros Ec Ed.
    destruct (deal_one_rebuild d c d' Ec Ed Hdeal) as [_ Hperm].
    rewrite (deal_one_empty d Ec) in Hdeal. unfold refill in Hdeal. rewrite Ed in Hdeal.
    assert (seen_cards (shuffle_deck (build_new_deck d)) = ∅) as Hseen.
    { unfold shuffle_deck. by destruct (std_shuffle _ _). }
    destruct (container (shuffle_deck (build_new_deck d))) as [|c1 rest1]; [done|].
    injection Hdeal as <- <-. simpl. rewrite Hseen. split; [set_solver|].
    apply Permutation_length in Hperm. simpl in Hperm. rewrite length_repeat_deck in Hperm.
    unfold size. simpl.
    destruct (Z.le_gt_cases (decks d) 0); lia.
Qed.

(** X8.  After the check of [prepare_round] a shoe of at least one deck holds
    at least fifteen undealt cards; a shoe that already did is left as it is,
    and otherwise the undealt sequence is a fresh shoe in some order; the
    discard pile is kept in both cases. *)
Theorem low_card_reshuffle_enough d :
  1 ≤ decks d →
  15 ≤ size (low_card_reshuffle d)
  ∧ discard (low_card_reshuffle d) = discard d
  ∧ (15 ≤ size d → low_card_reshuffle d = d)
  ∧ (size d < 15 →
     Permutation (container (low_card_reshuffle d)) (repeat_deck (Z.to_nat (decks d)))).
Proof.
  intros Hdecks. unfold low_card_reshuffle.
  destruct (Z.ltb_spec (size d) 15) as [Hlow|Hok].
  - pose proof (shuffle_deck_container (build_new_deck d)) as Hp.
    split; [|split; [|split]].
    + unfold size. rewrite (Permutation_length Hp). simpl. rewrite length_repeat_deck. lia.
    + by rewrite shuffle_deck_discard.
    + lia.
    + intros _. exact Hp.
  - split; [done|]. split; [done|]. split; [done|]. lia.
Qed.

End more_deck_facts.

Lemma deal_one_bookkeeping_witness :
  ∃ c d', deal_one (deck blackjack_table) = Some (c, d')
          ∧ canonical c ∈ seen_cards d' ∧ decks d' = 1.
Proof.
  eexists _, _. split; [vm_compute; reflexivity|].
  match goal with |- canonical ?c ∈ seen_cards ?d ∧ _ =>
    destruct (deal_one_bookkeeping (deck blackjack_table) c d eq_refl) as (H1 & H2 & _)
  end.
  split; [exact H1|exact H2].
Defined.

Lemma low_card_reshuffle_enough_witness :
  15 ≤ size (low_card_reshuffle (mkDeck (take 14 one_deck) [] ∅ 0%nat 1)).
Proof.
  apply (low_card_reshuffle_enough (mkDeck (take 14 one_deck) [] ∅ 0%nat 1)).
  simpl. lia.
Defined.

(** The text [canonical] gives to a card tells the card. *)
Lemma suit_digit_inj (s1 s2 : Suit) : suit_digit s1 = suit_digit s2 → s1 = s2.
Proof. by destruct s1, s2. Qed.

(** X9.  Two cards with the same canonical text are the same card, so the set
    of seen cards tells the cards apart. *)
Theorem canonical_inj (c1 c2 : Card) : canonical c1 = canonical c2 → c1 = c2.
Proof.
  destruct c1 as [r1 s1], c2 as [r2 s2]. unfold canonical. simpl. intros H.
  apply (f_equal chars) in H. rewrite !chars_app in H.
  apply app_inj_2 in H as [Hr H]; [|by destruct s1, s2].
  apply chars_inj in Hr. subst r2. f_equal.
  apply suit_digit_inj, chars_inj. simpl in H. by injection H.
Qed.

Lemma canonical_inj_witness : mkCard "10" Hearts = mkCard "10" Hearts.
Proof. apply canonical_inj. reflexivity. Defined.

(** ** Bets *)

Section bet_facts.
Context {G : Type} `{!RandomEngine G}.
Implicit Types g : BlackjackGame G.

Lemma same_table_refl g : same_table g g.
Proof. by repeat split. Qed.

Lemma getline_cin_table g : same_table g (getline_cin g).2.
Proof. unfold getline_cin. destruct (cin g); by repeat split. Qed.

Lemma same_table_trans g1 g2 g3 : same_table g1 g2 → same_table g2 g3 → same_table g1 g3.
Proof.
  intros (A1 & A2 & A3 & A4 & A5 & A6 & A7) (B1 & B2 & B3 & B4 & B5 & B6 & B7).
  repeat split; congruence.
Qed.

Lemma human_bet_table p g : same_table g (human_bet p g).2.
Proof.
  unfold human_bet.
  set (g1 := if in_avail g (cin g) then (getline_cin g).2 else g).
  assert (same_table g g1) as H1
    by (subst g1; destruct (in_avail g (cin g)); [apply getline_cin_table|apply same_table_refl]).
  pose proof (getline_cin_table g1) as H2.
  destruct (getline_cin g1) as [line g2]. simpl in *. by eapply same_table_trans.
Qed.

Lemma npc_extra_table p roll g : same_table g (npc_extra p roll g).2.
Proof.
  unfold npc_extra.
  destruct (contains "Cautious" (name p)); [apply same_table_refl|].
  destruct (contains "Reckless" (name p)); [apply same_table_refl|].
  destruct (contains "Smart" (name p)); [by repeat split|].
  destruct (contains "Chaotic" (name p)); apply same_table_refl.
Qed.

Lemma npc_bet_table p g : same_table g (npc_bet p g).2.
Proof.
  unfold npc_bet. destruct (uniform_int 0 99 (game_rng g)) as [roll r].
  pose proof (npc_extra_table p roll (set_rng r g)) as H.
  destruct (npc_extra p roll (set_rng r g)) as [extra g1]. simpl in *.
  eapply same_table_trans; [|exact H]. by repeat split.
Qed.

(** X10.  The bet read from a human player with chips, at a table whose
    minimum is at least 1, is at least 1 and at most the player's chips,
    whatever is typed. *)
Theorem human_bet_in_range (p : Player) g :
  0 < chips p → 1 ≤ bet_amount g →
  1 ≤ (human_bet p g).1 ≤ chips p.
Proof.
  intros Hc Hba. unfold human_bet.
  assert (1 ≤ default_bet_of g p) as Hdef.
  { unfold default_bet_of. destruct (Z.ltb_spec 0 (last_bet p)); lia. }
  set (g1 := if in_avail g (cin g) then (getline_cin g).2 else g).
  destruct (getline_cin g1) as [line g2]. cbn [fst].
  destruct (decide (line = EmptyString)); [lia|].
  destruct (extract_int line) as [[parsed rest]|]; [|lia].
  repeat match goal with |- context [?a <? ?b] => destruct (Z.ltb_spec a b) end; lia.
Qed.

Lemma npc_extra_nonneg p roll g :
  0 ≤ roll → 0 ≤ bet_amount g → 0 ≤ (npc_extra p roll g).1.
Proof.
  intros Hroll Hba. unfold npc_extra.
  assert (0 ≤ bet_amount g `quot` 2) by (apply Z.quot_pos; lia).
  assert (0 ≤ roll `rem` (bet_amount g + 1)) by (apply Z.rem_nonneg; lia).
  repeat case_match; cbn [fst bet_amount set_stats]; repeat case_match; lia.
Qed.

(** X11.  The bet of a computer player with chips, at a table whose minimum
    is at least 1, is at least 1; it is at most the player's chips, except
    that it may be the half minimum (at least 1) that a low roll imposes,
    whatever the chips are. *)
Theorem npc_bet_bounds (p : Player) g :
  1 ≤ chips p → 1 ≤ bet_amount g →
  1 ≤ (npc_bet p g).1
  ∧ ((npc_bet p g).1 ≤ chips p ∨ (npc_bet p g).1 = Z.max 1 (bet_amount g `quot` 2)).
Proof.
  intros Hc Hba. unfold npc_bet.
  pose proof (uniform_int_range 0 99 (game_rng g) ltac:(lia)) as Hroll.
  destruct (uniform_int 0 99 (game_rng g)) as [roll r]. simpl in Hroll.
  pose proof (npc_extra_nonneg p roll (set_rng r g) ltac:(lia) ltac:(simpl; lia)) as Hex.
  pose proof (npc_extra_table p roll (set_rng r g)) as (_ & _ & _ & _ & _ & Hba' & _).
  destruct (npc_extra p roll (set_rng r g)) as [extra g1]. cbn [fst snd] in *.
  simpl in Hba'. rewrite Hba'.
  destruct ((roll <? 6) && (1 <=? chips p)); [split; [lia|by right]|].
  split; [lia|left; lia].
Qed.

(** *** The pot *)

Lemma pot_total_snoc g (e : string * Z) :
  pot_total (set_pot (betting_pot g ++ [e]) g) = pot_total g + e.2.
Proof. unfold pot_total. cbn [betting_pot set_pot]. by rewrite fold_left_app. Qed.

Lemma total_chips_cons (q : Player) (ps : list Player) :
  total_chips (q :: ps) = chips q + total_chips ps.
Proof. reflexivity. Qed.

Lemma total_chips_alter (f : Player → Player) (i : nat) (ps : list Player) (p : Player) :
  ps !! i = Some p →
  total_chips (alter f i ps) = total_chips ps - chips p + chips (f p).
Proof.
  revert i. induction ps as [|q ps IH]; intros [|i] Hp; try done.
  - injection Hp as ->. change (alter f 0%nat (p :: ps)) with (f p :: ps).
    rewrite !total_chips_cons. lia.
  - change (alter f (S i) (q :: ps)) with (q :: alter f i ps).
    rewrite !total_chips_cons, (IH i Hp). lia.
Qed.

(** The effect of asking one player for a bet. *)
Lemma collect_bet_shape g (i : nat) :
  match players g !! i with
  | None => collect_bet g i = g
  | Some p =>
      if chips p <=? 0 then collect_bet g i = g
      else ∃ bet,
          players (collect_bet g i) = alter (place_bet bet) i (players g)
          ∧ betting_pot (collect_bet g i) = (betting_pot g ++ [(name p, bet)])%list
          ∧ chip_transactions (collect_bet g i) = (chip_transactions g ++ [- bet])%list
          ∧ deck (collect_bet g i) = deck g
          ∧ turn_queue (collect_bet g i) = turn_queue g
          ∧ bet_amount (collect_bet g i) = bet_amount g
  end.
Proof.
  unfold collect_bet. destruct (players g !! i) as [p|]; [|done].
  destruct (chips p <=? 0); [done|].
  destruct (is_human p).
  - pose proof (human_bet_table p g) as Ht.
    destruct (human_bet p g) as [bet g1]. destruct Ht as (A1 & A2 & A3 & A4 & A5 & A6 & A7).
    simpl in *. exists bet. by rewrite A1, A2, A3, A4, A5, A6.
  - pose proof (npc_bet_table p g) as Ht.
    destruct (npc_bet p g) as [bet g1]. destruct Ht as (A1 & A2 & A3 & A4 & A5 & A6 & A7).
    simpl in *. exists bet. by rewrite A1, A2, A3, A4, A5, A6.
Qed.
End bet_facts.

Section bets_facts.
Context {G : Type} `{!RandomEngine G}.
Implicit Types g : BlackjackGame G.

Lemma collect_bet_conserves g (i : nat) :
  total_chips (players (collect_bet g i)) + pot_total (collect_bet g i)
  = total_chips (players g) + pot_total g
  ∧ deck (collect_bet g i) = deck g
  ∧ turn_queue (collect_bet g i) = turn_queue g
  ∧ length (players (collect_bet g i)) = length (players g).
Proof.
  pose proof (collect_bet_shape g i) as Hs.
  destruct (players g !! i) as [p|] eqn:Hp; [|by rewrite Hs].
  destruct (chips p <=? 0); [by rewrite Hs|].
  destruct Hs as (bet & Hpl & Hpot & _ & Hd & Hq & _).
  split; [|by rewrite Hpl, length_alter].
  rewrite Hpl, (total_chips_alter _ _ _ _ Hp).
  unfold pot_total. rewrite Hpot, fold_left_app. simpl. lia.
Qed.

Lemma collect_bets_from (m k : nat) g :
  length (players g) = (k + m)%nat →
  (betting_pot (fold_left collect_bet (seq k m) g)).*1
  = ((betting_pot g).*1 ++ (name <$> filter (λ p, 0 < chips p) (drop k (players g))))%list.
Proof.
  revert k g. induction m as [|m IH]; intros k g Hlen.
  - rewrite drop_ge by lia. simpl. by rewrite app_nil_r.
  - cbn [seq fold_left].
    destruct (lookup_lt_is_Some_2 (players g) k ltac:(lia)) as [p Hp].
    pose proof (collect_bet_shape g k) as Hs. rewrite Hp in Hs.
    rewrite (drop_S _ _ _ Hp), filter_cons.
    destruct (Z.leb_spec (chips p) 0) as [Hle|Hgt].
    + rewrite Hs. rewrite IH by lia.
      destruct (decide (0 < chips p)); [lia|done].
    + destruct Hs as (bet & Hpl & Hpot & _).
      rewrite IH by (rewrite Hpl, length_alter; lia).
      rewrite Hpl, Hpot, drop_alter_lt by lia.
      destruct (decide (0 < chips p)); [|lia].
      rewrite fmap_app, fmap_cons. simpl. by rewrite <- app_assoc.
Qed.

Lemma collect_bet_fold_conserves (l : list nat) g :
  total_chips (players (fold_left collect_bet l g)) + pot_total (fold_left collect_bet l g)
  = total_chips (players g) + pot_total g
  ∧ deck (fold_left collect_bet l g) = deck g
  ∧ length (players (fold_left collect_bet l g)) = length (players g).
Proof.
  revert g. induction l as [|i l IH]; intros g; [done|]. cbn [fold_left].
  destruct (IH (collect_bet g i)) as (H1 & H2 & H3).
  destruct (collect_bet_conserves g i) as (C1 & C2 & _ & C4).
  repeat split; congruence.
Qed.

(** X12.  Asking for the bets moves chips from the players to the pot and
    nothing else: the chips of all players plus the pot total are the same
    before and after, and the shoe and the number of players are untouched. *)
Theorem collect_bets_conserves_chips g :
  total_chips (players (collect_bets g)) + pot_total (collect_bets g)
  = total_chips (players g) + pot_total g
  ∧ deck (collect_bets g) = deck g
  ∧ length (players (collect_bets g)) = length (players g).
Proof. unfold collect_bets. apply collect_bet_fold_conserves. Qed.

(** X13.  After [prepare_round] and [collect_bets] the pot holds one entry
    per player who had chips, in roster order: the names in the pot are the
    names queued by [prepare_round]. *)
Theorem pot_names_are_the_queue g :
  (betting_pot (collect_bets (prepare_round g))).*1
  = name <$> filter (λ p, 0 < chips p) (players g)
  ∧ (betting_pot (collect_bets (prepare_round g))).*1
    = turn_queue (collect_bets (prepare_round g)).
Proof.
  assert (turn_queue (collect_bets (prepare_round g)) = turn_queue (prepare_round g)) as Hq.
  { unfold collect_bets. apply (fold_left_preserves turn_queue).
    intros g1 i. apply collect_bet_conserves. }
  assert (name <$> filter (λ p, 0 < chips p) (clear_hand <$> players g)
          = name <$> filter (λ p, 0 < chips p) (players g)) as Hf.
  { induction (players g) as [|p ps IH]; [done|].
    rewrite fmap_cons, !filter_cons. cbn [chips clear_hand].
    destruct (decide (0 < chips p)); [|exact IH].
    rewrite !fmap_cons. by rewrite IH. }
  rewrite Hq. unfold collect_bets, roster.
  rewrite (collect_bets_from _ 0) by done. rewrite drop_0.
  cbn [prepare_round betting_pot players turn_queue set_turn_queue set_deck set_players
       set_pot].
  simpl. by rewrite Hf.
Qed.
End bets_facts.

Lemma human_bet_in_range_witness :
  1 ≤ (human_bet (new_player "You" true 100) blackjack_table).1 ≤ 100.
Proof.
  apply (human_bet_in_range (new_player "You" true 100) blackjack_table); simpl; lia.
Defined.

Lemma npc_bet_bounds_witness :
  1 ≤ (npc_bet (new_player "Cautious Carl" false 3) blackjack_table).1
  ∧ ((npc_bet (new_player "Cautious Carl" false 3) blackjack_table).1 ≤ 3
     ∨ (npc_bet (new_player "Cautious Carl" false 3) blackjack_table).1
       = Z.max 1 (20 `quot` 2)).
Proof.
  apply (npc_bet_bounds (new_player "Cautious Carl" false 3) blackjack_table); simpl; lia.
Defined.

(** With the counter engine the first roll is 0: the player with 3 chips bets
    10 and is left with a negative balance. *)
Example npc_overbet :
  (npc_bet (new_player "Cautious Carl" false 3) blackjack_table).1 = 10.
Proof. vm_compute. reflexivity. Qed.

(** ** The initial deal *)

Section deal_facts.
Context {G : Type} `{!RandomEngine G}.
Implicit Types g : BlackjackGame G.

Lemma same_seat_refl (p : Player) : same_seat p p.
Proof. by repeat split. Qed.

Lemma same_seat_trans (p1 p2 p3 : Player) : same_seat p1 p2 → same_seat p2 p3 → same_seat p1 p3.
Proof.
  intros (A1 & A2 & A3 & A4 & A5 & A6 & A7) (B1 & B2 & B3 & B4 & B5 & B6 & B7).
  repeat split; congruence.
Qed.

Lemma deal_card_to_ok (i : nat) g g' :
  deal_card_to i g = Ok g' →
  ∃ c d, deal_one (deck g) = Some (c, d)
         ∧ g' = alter_player i (receive_card c) (set_deck d g).
Proof.
  unfold deal_card_to. destruct (deal_one (deck g)) as [[c d]|]; [|done].
  intros [= <-]. by exists c, d.
Qed.

Lemma deal_fold_ok (l : list nat) (o : outcome (BlackjackGame G)) g' :
  fold_left initial_deal_step l o = Ok g' → ∃ g0, o = Ok g0.
Proof.
  revert o. induction l as [|i l IH]; intros o Hf; simpl in Hf; [by exists g'|].
  destruct (IH _ Hf) as [g1 H1]. destruct o; try done. by eexists.
Qed.

(** One pass over distinct positions gives one card to each player at these
    positions whose balance is not negative. *)
Lemma deal_fold (l : list nat) g g' :
  NoDup l → fold_left initial_deal_step l (Ok g) = Ok g' →
  length (players g') = length (players g)
  ∧ ∀ j p, players g !! j = Some p →
      ∃ p' extra, players g' !! j = Some p' ∧ same_seat p p'
                  ∧ hand p' = (hand p ++ extra)%list
                  ∧ length extra = (if decide (j ∈ l ∧ (0 ≤ chips p)%Z) then 1 else 0)%nat.
Proof.
  revert g. induction l as [|w l IH]; intros g Hnd Hf.
  - simpl in Hf. injection Hf as <-. split; [done|]. intros j p Hp.
    exists p, []. split; [done|]. split; [apply same_seat_refl|]. rewrite app_nil_r.
    split; [done|]. destruct (decide _) as [[Hin _]|]; [by apply elem_of_nil in Hin|done].
  - apply NoDup_cons in Hnd as [Hw Hnd]. cbn [fold_left] in Hf.
    destruct (deal_fold_ok _ _ _ Hf) as [g1 Hg1]. rewrite Hg1 in Hf.
    destruct (IH g1 Hnd Hf) as [Hlen Hrest].
    assert (length (players g1) = length (players g)
            ∧ ∀ j p, players g !! j = Some p →
                ∃ p1 extra, players g1 !! j = Some p1 ∧ same_seat p p1
                            ∧ hand p1 = (hand p ++ extra)%list
                            ∧ length extra
                              = (if decide (j = w ∧ (0 ≤ chips p)%Z) then 1 else 0)%nat)
      as [Hlen1 Hstep].
    { unfold initial_deal_step in Hg1. simpl in Hg1.
      assert (g1 = g → length (players g1) = length (players g)
            ∧ ∀ j p, players g !! j = Some p →
                (j = w → chips p < 0 ∨ players g !! w = None) →
                ∃ p1 extra, players g1 !! j = Some p1 ∧ same_seat p p1
                            ∧ hand p1 = (hand p ++ extra)%list
                            ∧ length extra
                              = (if decide (j = w ∧ (0 ≤ chips p)%Z) then 1 else 0)%nat)
        as Hsame.
      { intros ->. split; [done|]. intros j p Hp Hjw. exists p, [].
        split; [done|]. split; [apply same_seat_refl|]. rewrite app_nil_r. split; [done|].
        destruct (decide _) as [[-> Hc]|]; [|done].
        destruct (Hjw eq_refl); [lia|congruence]. }
      destruct (players g !! w) as [pw|] eqn:Hpw.
      2: { injection Hg1 as <-. destruct (Hsame eq_refl) as [? Hs]. split; [done|].
           intros j p Hp. apply Hs; [done|]. by right. }
      destruct (Z.ltb_spec (chips pw) 0) as [Hneg|Hpos].
      { injection Hg1 as <-. destruct (Hsame eq_refl) as [? Hs]. split; [done|].
        intros j p Hp. apply Hs; [done|]. intros ->. left. congruence. }
      apply deal_card_to_ok in Hg1 as (c & d & _ & ->).
      cbn [players alter_player set_players set_deck]. split; [apply length_alter|].
      intros j p Hp. destruct (decide (j = w)) as [->|Hne].
      - rewrite list_lookup_alter_eq, Hp. simpl.
        exists (receive_card c p), [c]. split; [done|]. split; [by repeat split|].
        split; [done|]. destruct (decide _) as [|Hn]; [done|].
        exfalso. apply Hn. split; [done|]. congruence.
      - rewrite list_lookup_alter_ne by done. exists p, [].
        split; [done|]. split; [apply same_seat_refl|]. rewrite app_nil_r. split; [done|].
        destruct (decide _) as [[? _]|]; done. }
    split; [congruence|]. intros j p Hp.
    destruct (Hstep j p Hp) as (p1 & e1 & Hp1 & Hs1 & Hh1 & Hl1).
    destruct (Hrest j p1 Hp1) as (p2 & e2 & Hp2 & Hs2 & Hh2 & Hl2).
    exists p2, (e1 ++ e2)%list. split; [done|]. split; [by eapply same_seat_trans|].
    split; [by rewrite Hh2, Hh1, app_assoc|].
    rewrite length_app, Hl1, Hl2.
    destruct Hs1 as (_ & _ & Hc1 & _). rewrite Hc1.
    destruct (decide (j = w ∧ 0 ≤ chips p)) as [[-> Hc]|Hn1].
    + destruct (decide (w ∈ l ∧ 0 ≤ chips p)) as [[? _]|_]; [done|].
      destruct (decide (w ∈ w :: l ∧ 0 ≤ chips p)) as [|Hn]; [done|].
      exfalso. apply Hn. split; [apply elem_of_cons; by left|done].
    + destruct (decide (j ∈ l ∧ 0 ≤ chips p)) as [[Hin Hc]|Hn2].
      * destruct (decide (j ∈ w :: l ∧ 0 ≤ chips p)) as [|Hn]; [done|].
        exfalso. apply Hn. split; [apply elem_of_cons; by right|done].
      * destruct (decide (j ∈ w :: l ∧ 0 ≤ chips p)) as [[Hin Hc]|]; [|done].
        exfalso. apply elem_of_cons in Hin as [->|Hin]; [by apply Hn1|by apply Hn2].
Qed.

(** X14.  When the initial deal returns, every player whose balance is not
    negative holds the former hand followed by exactly two more cards, every
    other player holds the former hand, and nothing else about the players
    has changed. *)
Theorem initial_deal_gives_two_cards g g' :
  initial_deal_animated g = Ok g' →
  length (players g') = length (players g)
  ∧ ∀ j p, players g !! j = Some p →
      ∃ p' extra, players g' !! j = Some p' ∧ same_seat p p'
                  ∧ hand p' = (hand p ++ extra)%list
                  ∧ length extra = (if (chips p <? 0)%Z then 0 else 2)%nat.
Proof.
  unfold initial_deal_animated, deal_pass. intros Hd.
  destruct (fold_left initial_deal_step (roster g) (Ok g)) as [g1| | | |] eqn:H1; try done.
  simpl in Hd.
  destruct (deal_fold _ _ _ (NoDup_seq 0 _) H1) as [Hl1 Hr1].
  destruct (deal_fold _ _ _ (NoDup_seq 0 _) Hd) as [Hl2 Hr2].
  split; [congruence|]. intros j p Hp.
  destruct (Hr1 j p Hp) as (p1 & e1 & Hp1 & Hs1 & Hh1 & Hn1).
  destruct (Hr2 j p1 Hp1) as (p2 & e2 & Hp2 & Hs2 & Hh2 & Hn2).
  exists p2, (e1 ++ e2)%list. split; [done|]. split; [by eapply same_seat_trans|].
  split; [by rewrite Hh2, Hh1, app_assoc|].
  rewrite length_app, Hn1, Hn2. destruct Hs1 as (_ & _ & Hc1 & _). rewrite Hc1.
  assert (j ∈ roster g) as Hj1
    by (apply elem_of_seq; apply lookup_lt_Some in Hp; lia).
  assert (j ∈ roster g1) as Hj2
    by (apply elem_of_seq; apply lookup_lt_Some in Hp1; lia).
  destruct (Z.ltb_spec (chips p) 0).
  - rewrite !decide_False by (intros [_ ?]; lia). done.
  - rewrite !decide_True by done. done.
Qed.

Lemma low_card_reshuffle_size (d : Deck G) : 1 ≤ decks d → 15 ≤ size (low_card_reshuffle d).
Proof.
  intros Hdecks. unfold low_card_reshuffle.
  destruct (Z.ltb_spec (size d) 15) as [Hlow|Hok]; [|done].
  pose proof (shuffle_deck_container (build_new_deck d)) as Hp.
  unfold size. rewrite (Permutation_length Hp). simpl. rewrite length_repeat_deck. lia.
Qed.

(** A pass over no more positions than there are undealt cards returns. *)
Lemma deal_fold_succeeds (l : list nat) g :
  (length l ≤ length (container (deck g)))%nat →
  ∃ g', fold_left initial_deal_step l (Ok g) = Ok g'
        ∧ (length (container (deck g)) ≤ length (container (deck g')) + length l)%nat
        ∧ decks (deck g') = decks (deck g).
Proof.
  revert g. induction l as [|w l IH]; intros g Hlen.
  - exists g. simpl. split; [done|]. split; [lia|done].
  - cbn [fold_left]. simpl in Hlen.
    assert (∃ g1, initial_deal_step (Ok g) w = Ok g1
                  ∧ (length (container (deck g)) ≤ S (length (container (deck g1))))%nat
                  ∧ decks (deck g1) = decks (deck g)) as (g1 & Hg1 & Hc1 & Hd1).
    { unfold initial_deal_step. simpl.
      destruct (players g !! w) as [pw|]; [|exists g; split; [done|split; [lia|done]]].
      destruct (chips pw <? 0); [exists g; split; [done|split; [lia|done]]|].
      destruct (container (deck g)) as [|c rest] eqn:Ec; [simpl in Hlen; lia|].
      unfold deal_card_to. rewrite (deal_one_nonempty _ c rest Ec).
      eexists. split; [done|]. simpl. split; [lia|done]. }
    rewrite Hg1. destruct (IH g1 ltac:(lia)) as (g' & Hg' & Hc' & Hd').
    exists g'. split; [done|]. split; [simpl; lia|congruence].
Qed.

(** X15.  With at least one deck in the shoe and at most seven players, the
    initial deal that follows [prepare_round] and [collect_bets] returns: it
    never takes a card from an empty shoe. *)
Theorem initial_deal_returns g :
  1 ≤ decks (deck g) → (length (players g) ≤ 7)%nat →
  ∃ g', initial_deal_animated (collect_bets (prepare_round g)) = Ok g'.
Proof.
  intros Hdecks Hn.
  destruct (collect_bet_fold_conserves (roster (prepare_round g)) (prepare_round g))
    as (_ & Hdeck & Hlen).
  fold (collect_bets (prepare_round g)) in Hdeck, Hlen.
  set (g0 := collect_bets (prepare_round g)) in *.
  assert (length (players g0) = length (players g)) as Hlen0.
  { rewrite Hlen. cbn [prepare_round players set_turn_queue set_deck set_players set_pot].
    simpl. by rewrite length_fmap. }
  assert (15 ≤ length (container (deck g0)))%nat as Hsize.
  { rewrite Hdeck. cbn [prepare_round deck set_turn_queue set_deck].
    pose proof (low_card_reshuffle_size (deck g) Hdecks) as H15.
    unfold size in H15. simpl in *. lia. }
  unfold initial_deal_animated, deal_pass.
  destruct (deal_fold_succeeds (roster g0) g0) as (g1 & Hg1 & Hc1 & _).
  { unfold roster. rewrite length_seq. lia. }
  rewrite Hg1. simpl.
  destruct (deal_fold _ _ _ (NoDup_seq 0 _) Hg1) as [Hl1 _].
  destruct (deal_fold_succeeds (roster g1) g1) as (g2 & Hg2 & _).
  { unfold roster in *. rewrite length_seq in *. lia. }
  by exists g2.
Qed.
End deal_facts.

Lemma initial_deal_gives_two_cards_witness :
  ∃ g', initial_deal_animated (collect_bets (prepare_round zero_chip_table)) = Ok g'
        ∧ length (players g') = 2%nat.
Proof.
  eexists. split; [vm_compute; reflexivity|].
  match goal with |- length (players ?g') = _ =>
    rewrite (proj1 (initial_deal_gives_two_cards
                      (collect_bets (prepare_round zero_chip_table)) g'
                      ltac:(vm_compute; reflexivity)))
  end.
  vm_compute. reflexivity.
Defined.

Lemma initial_deal_returns_witness :
  ∃ g', initial_deal_animated (collect_bets (prepare_round blackjack_table)) = Ok g'.
Proof. apply (initial_deal_returns blackjack_table); simpl; lia. Defined.

(** ** The cards of the pack and the turn of a computer player *)

Lemma pack_card_value (c : Card) :
  pack_card c →
  2 ≤ card_value c ≤ 11
  ∧ 1 ≤ card_value c - 10 * (if decide (rank c = "A") then 1 else 0).
Proof.
  unfold pack_card, RankNames. intros Hin.
  destruct (card_value_cases c) as [(E & _ & _)|(_ & Hv & Hace)].
  - exfalso.
    repeat (apply elem_of_cons in Hin as [Hin|Hin];
            [rewrite Hin in E; vm_compute in E; discriminate|]).
    by apply elem_of_nil in Hin.
  - split; [done|]. destruct (decide (rank c = "A")) as [e|ne]; [apply Hace in e; lia|].
    assert (card_value c ≠ 11) by (intros e; by apply Hace in e). lia.
Qed.

Lemma hard_total_snoc (h : list Card) (c : Card) :
  hard_total (h ++ [c])
  = hard_total h + (card_value c - 10 * (if decide (rank c = "A") then 1 else 0)).
Proof.
  unfold hard_total.
  assert (Permutation (h ++ [c]) (c :: h)) as Hp by (by rewrite Permutation_app_comm).
  rewrite (raw_total_perm _ _ Hp), (ace_count_perm _ _ Hp), ace_count_cons.
  cbn [raw_total foldr]. fold (raw_total h). lia.
Qed.

Lemma hard_total_nonneg (h : list Card) : 0 ≤ hard_total h.
Proof.
  unfold hard_total. induction h as [|c h IH]; [unfold ace_count; simpl; lia|].
  rewrite ace_count_cons. cbn [raw_total foldr]. fold (raw_total h).
  destruct (card_value_cases c) as [(_ & Hv & Hna)|(_ & Hv & Hace)];
    destruct (decide (rank c = "A")) as [e|ne]; try done; try lia.
  apply Hace in e. lia.
Qed.

(** A hand is over 21 exactly when it is over 21 with every ace at 1. *)
Lemma value_over_iff (h : list Card) : 21 < compute_hand_value h ↔ 21 < hard_total h.
Proof.
  destruct (compute_hand_value_spec h) as (Hk & Hv & Hstop & _). cbv zeta in *.
  unfold hard_total. lia.
Qed.

Lemma hard_total_removelast (h : list Card) : hard_total (removelast h) ≤ hard_total h.
Proof.
  destruct (decide (h = [])) as [->|Hne]; [done|].
  rewrite (app_removelast_last (mkCard "" Clubs) Hne) at 2.
  rewrite hard_total_snoc.
  destruct (card_value_cases (List.last h (mkCard "" Clubs))) as [(_ & Hv & Hna)|(_ & Hv & Hace)];
    destruct (decide _) as [e|ne]; try done; try lia.
  apply Hace in e. lia.
Qed.

Section pack_facts.
Context {G : Type} `{!RandomEngine G}.
Implicit Types g : BlackjackGame G.
Implicit Types d : Deck G.

Lemma pack_one_deck : Forall pack_card one_deck.
Proof.
  unfold one_deck, all_suits, RankNames, pack_card. 
  repeat (apply Forall_cons; split; [cbn [rank]; unfold RankNames; set_solver|]).
  apply Forall_nil_2.
Qed.

Lemma pack_repeat_deck (n : nat) : Forall pack_card (repeat_deck n).
Proof.
  induction n as [|n IH]; [apply Forall_nil_2|].
  cbn [repeat_deck]. apply Forall_app. split; [apply pack_one_deck|done].
Qed.

Lemma pack_shuffle_deck d : pack_deck d → pack_deck (shuffle_deck d).
Proof.
  intros [Hc Hd]. split.
  - by rewrite (shuffle_deck_container d).
  - by rewrite shuffle_deck_discard.
Qed.

Lemma pack_build_new_deck d : Forall pack_card (discard d) → pack_deck (build_new_deck d).
Proof. intros Hd. split; [apply pack_repeat_deck|done]. Qed.

Lemma pack_refill d : pack_deck d → pack_deck (refill d).
Proof.
  intros [Hc Hd]. unfold refill. destruct (discard d) as [|top below] eqn:Ed.
  - apply pack_shuffle_deck, pack_build_new_deck. by rewrite Ed.
  - apply pack_shuffle_deck. apply Forall_cons in Hd as [Ht Hb]. split; simpl.
    + apply Forall_app. by split.
    + by apply Forall_cons.
Qed.

(** Every card dealt is a card of the pack, and the shoe stays one of pack
    cards. *)
Lemma deal_one_pack d (c : Card) d' :
  pack_deck d → deal_one d = Some (c, d') → pack_card c ∧ pack_deck d'.
Proof.
  intros Hp Hdeal. unfold deal_one in Hdeal.
  set (d1 := match container d with [] => refill d | _ :: _ => d end) in *.
  assert (pack_deck d1) as [Hc1 Hd1]
    by (subst d1; destruct (container d); [by apply pack_refill|done]).
  destruct (container d1) as [|c1 rest]; [done|].
  injection Hdeal as <- <-. apply Forall_cons in Hc1 as [? ?]. by repeat split.
Qed.

Lemma pack_discard_card (c : Card) d : pack_card c → pack_deck d → pack_deck (discard_card c d).
Proof. intros Hc [H1 H2]. split; [done|]. simpl. by apply Forall_cons. Qed.

Lemma pack_low_card_reshuffle d : pack_deck d → pack_deck (low_card_reshuffle d).
Proof.
  intros Hp. unfold low_card_reshuffle. destruct (size d <? 15); [|done].
  apply pack_shuffle_deck, pack_build_new_deck, Hp.
Qed.

Lemma npc_should_hit_table (p : Player) g :
  same_table g (npc_should_hit p g).2
  ∧ persistent_stats (npc_should_hit p g).2 = persistent_stats g
  ∧ stats_file (npc_should_hit p g).2 = stats_file g
  ∧ cin (npc_should_hit p g).2 = cin g.
Proof.
  unfold npc_should_hit.
  destruct (contains "Cautious" (name p)); [by repeat split|].
  destruct (contains "Reckless" (name p)); [by repeat split|].
  destruct (contains "Smart" (name p)); [by repeat split|].
  destruct (contains "Chaotic" (name p)); [|by repeat split].
  destruct (uniform_int 0 1 (game_rng g)). by repeat split.
Qed.

End pack_facts.

(** ** Sound tables: pack cards everywhere, flags that agree with the hands *)

Section sound_facts.
Context {G : Type} `{!RandomEngine G}.
Implicit Types g : BlackjackGame G.

Lemma outcome_post_bind {S : Type} (Q1 Q2 : S → Prop) (o : outcome S) (k : S → outcome S) :
  outcome_post Q1 o ∧ o ≠ OutOfFuel →
  (∀ s, Q1 s → Q2 s) →
  (∀ s, Q1 s → outcome_post Q2 (k s) ∧ k s ≠ OutOfFuel) →
  outcome_post Q2 (obind o k) ∧ obind o k ≠ OutOfFuel.
Proof.
  intros [Ho He] H12 Hk. destruct o as [s|s| | |]; simpl in *; try done.
  - by apply Hk.
  - split; [by apply H12|done].
Qed.

Lemma outcome_post_mono {S : Type} (Q1 Q2 : S → Prop) (o : outcome S) :
  (∀ s, Q1 s → Q2 s) → outcome_post Q1 o → outcome_post Q2 o.
Proof. intros H12. destruct o; simpl; auto. Qed.

Lemma same_play_refl g : same_play g g.
Proof. done. Qed.

Lemma same_play_trans g1 g2 g3 : same_play g1 g2 → same_play g2 g3 → same_play g1 g3.
Proof. intros (A1 & A2 & A3) (B1 & B2 & B3). repeat split; congruence. Qed.

Lemma unlock_same_play n k g : same_play g (unlock_achievement_for n k g).
Proof.
  unfold unlock_achievement_for. destruct (persistent_stats g !! n); [|done].
  by destruct (decide _).
Qed.

Lemma unlock_if_same_play b n k g : same_play g (unlock_if b n k g).
Proof. destruct b; [apply unlock_same_play|done]. Qed.

Lemma sound_same g g' : players g' = players g → deck g' = deck g → sound_table g → sound_table g'.
Proof. intros Hp Hd [H1 H2]. split; [by rewrite Hd|by rewrite Hp]. Qed.

Lemma sound_same_play g g' : same_play g g' → sound_table g → sound_table g'.
Proof. intros (Hp & Hd & _). by apply sound_same. Qed.

Lemma sound_alter (i : nat) (f : Player → Player) g :
  sound_table g →
  (∀ p, players g !! i = Some p → sound_player p → sound_player (f p)) →
  sound_table (alter_player i f g).
Proof.
  intros [Hd Hp] Hf. split; [done|]. cbn [alter_player players set_players].
  apply Forall_lookup. intros j q Hq.
  destruct (decide (j = i)) as [->|Hne].
  - rewrite list_lookup_alter_eq in Hq.
    destruct (players g !! i) as [p|] eqn:Ep; [|done]. injection Hq as <-.
    apply Hf; [done|]. by eapply (Forall_lookup_1 _ _ _ _ Hp).
  - rewrite list_lookup_alter_ne in Hq by done. by eapply (Forall_lookup_1 _ _ _ _ Hp).
Qed.

Lemma sound_lookup g (i : nat) (p : Player) :
  sound_table g → players g !! i = Some p → sound_player p.
Proof. intros [_ Hp] Hi. by eapply (Forall_lookup_1 _ _ _ _ Hp). Qed.

Lemma card_hard_nonneg (c : Card) :
  0 ≤ card_value c - 10 * (if decide (rank c = "A") then 1 else 0).
Proof.
  destruct (card_value_cases c) as [(_ & Hv & Hna)|(_ & Hv & Hace)];
    destruct (decide (rank c = "A")) as [e|ne]; try done; try lia.
  apply Hace in e. lia.
Qed.

(** A card more on a hand over 21 leaves it over 21. *)
Lemma receive_card_flags (p : Player) (c : Card) :
  flags_agree p →
  (hand_value (receive_card c p) ≤ 21 →
   busted p = false ∧ flags_agree (receive_card c p))
  ∧ (21 < hand_value (receive_card c p) → flags_agree (mark_busted (receive_card c p))).
Proof.
  unfold flags_agree, hand_value. intros Hfl. split.
  - cbn [hand busted receive_card]. intros Hle.
    assert (busted p = false) as Hb.
    { destruct (busted p); [|done]. exfalso.
      assert (21 < compute_hand_value (hand p)) as Hov by (by apply Hfl).
      apply value_over_iff in Hov.
      assert (21 < compute_hand_value (hand p ++ [c])); [|lia].
      apply value_over_iff. rewrite hard_total_snoc.
      pose proof (card_hard_nonneg c). lia. }
    split; [done|]. rewrite Hb. split; [done|lia].
  - cbn [hand busted receive_card mark_busted]. intros Hov. done.
Qed.

Lemma short_hand_value (h : list Card) : (length h ≤ 2)%nat → compute_hand_value h ≤ 21.
Proof.
  intros Hlen.
  destruct (Z.le_gt_cases (compute_hand_value h) 21) as [|Hov]; [done|].
  apply value_over_iff in Hov. exfalso.
  assert (∀ c, card_value c - 10 * (if decide (rank c = "A") then 1 else 0) ≤ 10) as Hc.
  { intros c. destruct (card_value_cases c) as [(_ & Hv & Hna)|(_ & Hv & Hace)];
      destruct (decide (rank c = "A")) as [e|ne]; try done; try lia.
    assert (card_value c ≠ 11) by (intros e; by apply Hace in e). lia. }
  destruct h as [|c1 [|c2 [|c3 h]]]; [| | |simpl in Hlen; lia].
  - unfold hard_total, ace_count in Hov. simpl in Hov. lia.
  - change [c1] with ([] ++ [c1])%list in Hov. rewrite hard_total_snoc in Hov.
    unfold hard_total at 1, ace_count in Hov. simpl in Hov. pose proof (Hc c1). lia.
  - change [c1; c2] with (([] ++ [c1]) ++ [c2])%list in Hov.
    rewrite !hard_total_snoc in Hov.
    unfold hard_total at 1, ace_count in Hov. simpl in Hov.
    pose proof (Hc c1). pose proof (Hc c2). lia.
Qed.

(** A card dealt to the player at [i]. *)
Lemma deal_card_to_sound (i : nat) g g1 :
  pack_deck (deck g) → deal_card_to i g = Ok g1 →
  ∃ c, pack_card c ∧ pack_deck (deck g1)
       ∧ players g1 = alter (receive_card c) i (players g)
       ∧ cin g1 = cin g ∧ persistent_stats g1 = persistent_stats g
       ∧ stats_file g1 = stats_file g ∧ betting_pot g1 = betting_pot g
       ∧ chip_transactions g1 = chip_transactions g.
Proof.
  intros Hpack Hdeal. apply deal_card_to_ok in Hdeal as (c & d & Hd & ->).
  destruct (deal_one_pack _ _ _ Hpack Hd) as [Hc Hd'].
  exists c. split; [done|]. split; [done|]. by repeat split.
Qed.

(** A hit, with the bust check that follows it. *)
Lemma hit_sound (i : nat) g g1 (p : Player) :
  sound_table g → players g !! i = Some p → deal_card_to i g = Ok g1 →
  ∃ c, pack_card c ∧ players g1 !! i = Some (receive_card c p)
       ∧ turn_frame i g g1
       ∧ (21 < hand_value (receive_card c p) → sound_table (alter_player i mark_busted g1))
       ∧ (hand_value (receive_card c p) ≤ 21 → busted p = false ∧ sound_table g1).
Proof.
  intros Hs Hp Hdeal. pose proof Hs as [Hpack Hall].
  destruct (deal_card_to_sound i g g1 Hpack Hdeal)
    as (c & Hc & Hd1 & Hp1 & Hcin & Hst & Hfile & Hpot & Htr).
  destruct (sound_lookup g i p Hs Hp) as [Hhand Hfl].
  destruct (receive_card_flags p c Hfl) as [Hle Hov].
  assert (Forall pack_card (hand (receive_card c p))) as Hhand1.
  { simpl. apply Forall_app. split; [done|]. by apply Forall_cons. }
  exists c. split; [done|]. split; [by rewrite Hp1, list_lookup_alter_eq, Hp|].
  split.
  { split; [intros j Hj; by rewrite Hp1, list_lookup_alter_ne|].
    split; [by rewrite Hp1, length_alter|]. by repeat split. }
  split.
  - intros Hgt. split; [done|]. cbn [alter_player players set_players].
    rewrite Hp1, list_alter_alter_eq. apply Forall_alter; [done|].
    intros q Hq _. rewrite Hp in Hq. injection Hq as <-.
    split; [done|by apply Hov].
  - intros Hok. destruct (Hle Hok) as [Hb Hfl1]. split; [done|]. split; [done|].
    rewrite Hp1. apply Forall_alter; [done|].
    intros q Hq _. rewrite Hp in Hq. injection Hq as <-. by split.
Qed.
End sound_facts.

(** ** The turn of a computer player *)

Section npc_turn_facts.
Context {G : Type} `{!RandomEngine G}.
Implicit Types g : BlackjackGame G.

Lemma turn_frame_refl (i : nat) g : turn_frame i g g.
Proof. by repeat split. Qed.

Lemma turn_frame_trans (i : nat) g1 g2 g3 :
  turn_frame i g1 g2 → turn_frame i g2 g3 → turn_frame i g1 g3.
Proof.
  intros (A1 & A2 & A3 & A4 & A5 & A6 & A7) (B1 & B2 & B3 & B4 & B5 & B6 & B7).
  split; [intros j Hj; by rewrite B1, A1|]. repeat split; congruence.
Qed.

Lemma turn_frame_alter (i : nat) (f : Player → Player) g : turn_frame i g (alter_player i f g).
Proof.
  split; [intros j Hj; by apply list_lookup_alter_ne|].
  split; [apply length_alter|]. by repeat split.
Qed.

Lemma deal_card_to_cases (i : nat) g :
  deal_card_to i g = Undefined ∨ ∃ g', deal_card_to i g = Ok g'.
Proof. unfold deal_card_to. destruct (deal_one (deck g)) as [[c d]|]; eauto. Qed.

(** The loop of [npc_turn], with a bound that is enough when every card
    drawn adds at least 1 to the hand with its aces at 1. *)
Lemma npc_turn_loop (fuel : nat) (i : nat) g :
  sound_table g →
  (∀ p, players g !! i = Some p → busted p || stood p = false →
        (1 ≤ fuel)%nat ∧ 22 ≤ Z.of_nat fuel + hard_total (hand p)) →
  match npc_turn fuel i g with
  | Ok g' =>
      sound_table g' ∧ turn_frame i g g'
      ∧ ∀ p, players g !! i = Some p → ∃ p', players g' !! i = Some p' ∧ played_on p p'
  | Undefined => True
  | _ => False
  end.
Proof.
  revert g. induction fuel as [|fuel IH]; intros g Hs Hfuel.
  - simpl. destruct (players g !! i) as [p|] eqn:Hp.
    2: { split; [done|]. split; [apply turn_frame_refl|]. intros p Hp'. done. }
    destruct (busted p || stood p) eqn:Hflag.
    2: { destruct (Hfuel p eq_refl Hflag) as [? _]. lia. }
    split; [done|]. split; [apply turn_frame_refl|].
    intros p0 [= <-]. exists p. split; [done|]. repeat split; try done.
    + exists []. by rewrite app_nil_r.
    + apply orb_true_iff in Hflag. tauto.
  - cbn [npc_turn]. destruct (players g !! i) as [p|] eqn:Hp.
    2: { split; [done|]. split; [apply turn_frame_refl|]. intros p Hp'. done. }
    destruct (busted p || stood p) eqn:Hflag.
    { split; [done|]. split; [apply turn_frame_refl|].
      intros p0 [= <-]. exists p. split; [done|]. repeat split; try done.
      + exists []. by rewrite app_nil_r.
      + apply orb_true_iff in Hflag. tauto. }
    destruct (Hfuel p eq_refl Hflag) as [_ Hmeasure].
    destruct (npc_should_hit_table p g) as ((T1 & T2 & T3 & T4 & _) & Hst & Hfile & Hcin).
    destruct (npc_should_hit p g) as [hit g1]. cbn [snd] in *.
    assert (sound_table g1) as Hs1 by (by apply (sound_same g)).
    assert (turn_frame i g g1) as Hf1.
    { split; [intros j _; by rewrite T1|]. split; [by rewrite T1|]. by repeat split. }
    assert (players g1 !! i = Some p) as Hp1 by (by rewrite T1).
    destruct hit.
    + destruct (deal_card_to_cases i g1) as [->|[g2 Hdeal]]; [done|].
      rewrite Hdeal. cbn [obind].
      destruct (hit_sound i g1 g2 p Hs1 Hp1 Hdeal) as (c & Hc & Hp2 & Hf2 & Hover & Hunder).
      rewrite Hp2.
      destruct (Z.ltb_spec 21 (hand_value (receive_card c p))) as [Hgt|Hle].
      * split; [by apply Hover|].
        split.
        { eapply turn_frame_trans; [exact Hf1|]. eapply turn_frame_trans; [exact Hf2|].
          apply turn_frame_alter. }
        intros p0 [= <-]. exists (mark_busted (receive_card c p)).
        split; [cbn [alter_player players set_players];
                by rewrite list_lookup_alter_eq, Hp2|].
        repeat split; try done; [by exists [c]|by left].
      * destruct (Hunder Hle) as [Hb Hs2].
        specialize (IH g2 Hs2).
        destruct (pack_card_value c Hc) as [_ Hhard].
        assert (∀ p0, players g2 !! i = Some p0 → busted p0 || stood p0 = false →
                      (1 ≤ fuel)%nat ∧ 22 ≤ Z.of_nat fuel + hard_total (hand p0)) as Hfuel2.
        { intros p0 Hp0 _. rewrite Hp2 in Hp0. injection Hp0 as <-.
          cbn [hand receive_card]. rewrite hard_total_snoc.
          assert (hard_total (hand p ++ [c]) ≤ 21) as Hh.
          { destruct (Z.le_gt_cases (hard_total (hand p ++ [c])) 21) as [|Hov]; [done|].
            apply value_over_iff in Hov. unfold hand_value in Hle. simpl in Hle. lia. }
          rewrite hard_total_snoc in Hh. lia. }
        specialize (IH Hfuel2).
        destruct (npc_turn fuel i g2) as [g3| | | |]; try done.
        destruct IH as (Hs3 & Hf3 & Hp3). split; [done|].
        split.
        { eapply turn_frame_trans; [exact Hf1|]. by eapply turn_frame_trans. }
        intros p0 [= <-].
        destruct (Hp3 _ Hp2) as (p' & Hp' & Hn & Hh & Hc' & [extra Hhand] & Hflags).
        exists p'. split; [done|]. repeat split; try done.
        exists (c :: extra). rewrite Hhand. simpl. by rewrite <- app_assoc.
    + split.
      { apply sound_alter; [done|]. intros q _ [Hq1 Hq2]. by split. }
      split; [eapply turn_frame_trans; [exact Hf1|apply turn_frame_alter]|].
      intros p0 [= <-]. exists (mark_stood p).
      split; [cbn [alter_player players set_players]; by rewrite list_lookup_alter_eq, Hp1|].
      repeat split; try done; [|by right]. exists []. by rewrite app_nil_r.
Qed.

(** X16.  On a sound table the turn of a computer player ends within 22
    iterations of its loop: it returns, unless it takes a card from a shoe
    that cannot deal.  When it returns, the player has kept the seat and the
    former cards, is marked busted exactly when the hand is over 21, is
    otherwise marked as standing, and no other player, no statistics, no
    stake and no input line has changed. *)
Theorem npc_turn_ends (fuel : nat) (i : nat) g (p : Player) :
  sound_table g → (22 ≤ fuel)%nat → players g !! i = Some p →
  npc_turn fuel i g = Undefined
  ∨ ∃ g' p', npc_turn fuel i g = Ok g'
             ∧ players g' !! i = Some p' ∧ played_on p p'
             ∧ (busted p' = true ↔ 21 < hand_value p')
             ∧ sound_table g' ∧ turn_frame i g g'.
Proof.
  intros Hs Hfuel Hp.
  pose proof (npc_turn_loop fuel i g Hs) as Hloop.
  destruct (npc_turn fuel i g) as [g'| | | |] eqn:Hturn.
  - right. destruct Hloop as (Hs' & Hf & Hpost).
    { intros q _ _. pose proof (hard_total_nonneg (hand q)). lia. }
    destruct (Hpost p Hp) as (p' & Hp' & Hplayed).
    exists g', p'. split; [done|]. split; [done|]. split; [done|].
    split; [exact (proj2 (sound_lookup g' i p' Hs' Hp'))|done].
  - exfalso. apply Hloop. intros q _ _. pose proof (hard_total_nonneg (hand q)). lia.
  - by left.
  - exfalso. apply Hloop. intros q _ _. pose proof (hard_total_nonneg (hand q)). lia.
  - exfalso. apply Hloop. intros q _ _. pose proof (hard_total_nonneg (hand q)). lia.
Qed.

(** The same for the fold of the action loop. *)
Lemma npc_turn_good (fuel : nat) (i : nat) g :
  sound_table g → (22 ≤ fuel)%nat →
  outcome_post (λ g', sound_table g' ∧ (length (cin g') ≤ length (cin g))%nat)
    (npc_turn fuel i g)
  ∧ npc_turn fuel i g ≠ OutOfFuel.
Proof.
  intros Hs Hfuel.
  pose proof (npc_turn_loop fuel i g Hs) as Hloop.
  destruct (npc_turn fuel i g) as [g'| | | |] eqn:Hturn; simpl; try done.
  - destruct Hloop as (Hs' & Hf & _).
    { intros q _ _. pose proof (hard_total_nonneg (hand q)). lia. }
    destruct Hf as (_ & _ & _ & _ & _ & _ & ->). done.
  - exfalso. apply Hloop. intros q _ _. pose proof (hard_total_nonneg (hand q)). lia.
  - exfalso. apply Hloop. intros q _ _. pose proof (hard_total_nonneg (hand q)). lia.
Qed.
End npc_turn_facts.

(** ** The profiles menu and the turn of the human player *)

Section human_turn_facts.
Context {G : Type} `{!RandomEngine G}.
Implicit Types g : BlackjackGame G.

Lemma read_choice_shorter (lines : list string) (c : option Z) (ls : list string) :
  read_choice lines = Some (c, ls) → (length ls < length lines)%nat.
Proof.
  induction lines as [|l lines IH]; simpl; [done|].
  destruct (blank l).
  - intros Hr. specialize (IH Hr). lia.
  - intros [= _ <-]. lia.
Qed.

Lemma getline_cin_play g :
  players (getline_cin g).2 = players g ∧ deck (getline_cin g).2 = deck g
  ∧ (length (cin (getline_cin g).2) ≤ length (cin g))%nat.
Proof.
  unfold getline_cin. destruct (cin g) eqn:E; simpl; rewrite ?E; repeat split; try done; simpl; lia.
Qed.

Lemma sound_fmap (f : Player → Player) g :
  (∀ p, hand (f p) = hand p ∧ busted (f p) = busted p) →
  sound_table g → sound_table (set_players (f <$> players g) g).
Proof.
  intros Hf [Hd Hp]. split; [done|]. cbn [players set_players].
  apply Forall_fmap. eapply Forall_impl; [exact Hp|].
  intros p [H1 H2]. destruct (Hf p) as [Hh Hb].
  unfold sound_player, flags_agree, hand_value, compose. by rewrite Hh, Hb.
Qed.

Lemma reset_profile_sound (n : string) g :
  sound_table g → sound_table (reset_profile n g) ∧ cin (reset_profile n g) = cin g.
Proof.
  intros Hs. unfold reset_profile. destruct (persistent_stats g !! n); [|done].
  split; [|done].
  apply (sound_same (set_players
           ((λ p, if decide (name p = n) then reset_chips (starting_chips g) false p else p)
              <$> players g) g)); [done|done|].
  apply sound_fmap; [|done]. intros q. by destruct (decide (name q = n)).
Qed.

Lemma reset_all_profiles_sound g :
  sound_table g → sound_table (reset_all_profiles g) ∧ cin (reset_all_profiles g) = cin g.
Proof.
  intros Hs. split; [|done].
  apply (sound_same (set_players (reset_chips (starting_chips g) true <$> players g) g));
    [done|done|].
  by apply sound_fmap.
Qed.

(** The menu reads at least one line in every iteration. *)
Lemma display_profiles_menu_good (fuel : nat) g :
  sound_table g → (length (cin g) < fuel)%nat →
  outcome_post (λ g', sound_table g' ∧ (length (cin g') ≤ length (cin g))%nat)
    (display_profiles_menu fuel g)
  ∧ display_profiles_menu fuel g ≠ OutOfFuel.
Proof.
  revert g. induction fuel as [|fuel IH]; intros g Hs Hlen; [lia|].
  cbn [display_profiles_menu].
  destruct (read_choice (cin g)) as [[c ls]|] eqn:Hr; [|done].
  apply read_choice_shorter in Hr.
  assert (∀ g1, sound_table g1 → (length (cin g1) ≤ length ls)%nat →
            outcome_post (λ g', sound_table g' ∧ (length (cin g') ≤ length (cin g))%nat)
              (display_profiles_menu fuel g1)
            ∧ display_profiles_menu fuel g1 ≠ OutOfFuel) as Hnext.
  { intros g1 Hs1 Hl1. destruct (IH g1 Hs1 ltac:(lia)) as [Hpost Hne]. split; [|done].
    eapply outcome_post_mono; [|exact Hpost]. intros s [? ?]. split; [done|lia]. }
  assert (sound_table (set_cin ls g)) as Hs0 by (by apply (sound_same g)).
  destruct c as [choice|]; [|by apply Hnext].
  destruct (choice =? 5); [simpl; split; [split; [done|lia]|done]|].
  destruct (choice =? 3).
  { destruct (getline_cin_play (set_cin ls g)) as (Hp & Hd & Hl).
    destruct (getline_cin (set_cin ls g)) as [n g1]. cbn [snd] in *.
    destruct (reset_profile_sound n g1 (sound_same _ _ Hp Hd Hs0)) as [Hs2 Hc2].
    apply Hnext; [done|]. rewrite Hc2. exact Hl. }
  destruct (choice =? 4).
  { destruct (reset_all_profiles_sound _ Hs0) as [Hs2 Hc2].
    apply Hnext; [done|]. by rewrite Hc2. }
  destruct ((choice =? 2) || (choice =? 6) || (choice =? 8)).
  { destruct (getline_cin_play (set_cin ls g)) as (Hp & Hd & Hl).
    apply Hnext; [by apply (sound_same _ _ Hp Hd)|exact Hl]. }
  by apply Hnext.
Qed.

Lemma human_hit_good (i : nat) g :
  sound_table g →
  outcome_post (λ g', sound_table g' ∧ cin g' = cin g) (human_hit i g)
  ∧ human_hit i g ≠ OutOfFuel.
Proof.
  intros Hs. unfold human_hit.
  destruct (deal_card_to_cases i g) as [->|[g1 Hdeal]]; [done|].
  rewrite Hdeal. cbn [obind].
  destruct (players g !! i) as [p|] eqn:Hp.
  - destruct (hit_sound i g g1 p Hs Hp Hdeal) as (c & Hc & Hp1 & Hf & Hover & Hunder).
    destruct Hf as (_ & _ & _ & _ & _ & _ & Hcin).
    rewrite Hp1. destruct (Z.ltb_spec 21 (hand_value (receive_card c p))) as [Hgt|Hle].
    + simpl. split; [|done].
      destruct (unlock_if_same_play (22 <=? hand_value (receive_card c p))
                  (name p) "IT_HAPPENS" (alter_player i mark_busted g1)) as (E1 & E2 & E3).
      split; [apply (sound_same _ _ E1 E2); by apply Hover|].
      by rewrite E3.
    + simpl. split; [|done]. split; [by apply Hunder|done].
  - destruct Hs as [Hpack Hall].
    destruct (deal_card_to_sound i g g1 Hpack Hdeal) as (c & Hc & Hd1 & Hp1 & Hcin & _).
    assert (players g1 = players g) as Hsame.
    { rewrite Hp1. apply list_eq. intros j. destruct (decide (j = i)) as [->|Hne].
      - by rewrite list_lookup_alter_eq, Hp.
      - by rewrite list_lookup_alter_ne. }
    rewrite Hsame, Hp. simpl. split; [|done]. split; [|done].
    split; [done|by rewrite Hsame].
Qed.

Lemma Forall_removelast {A : Type} (P : A → Prop) (l : list A) :
  Forall P l → Forall P (removelast l).
Proof.
  induction 1 as [|x l Hx Hl IH]; [done|]. simpl.
  destruct l; [done|]. by apply Forall_cons.
Qed.

(** Taking the last card back from a hand that is not over 21. *)
Lemma human_discard_sound (i : nat) g (p : Player) :
  sound_table g → players g !! i = Some p → busted p = false →
  sound_table (human_discard i g) ∧ cin (human_discard i g) = cin g.
Proof.
  intros Hs Hp Hb. unfold human_discard. rewrite Hp.
  destruct (last (hand p)) as [top|] eqn:Hlast; [|done].
  split; [|done].
  apply last_Some in Hlast as [h' Hh].
  destruct (sound_lookup g i p Hs Hp) as [Hhand Hfl].
  assert (pack_card top) as Htop.
  { rewrite Hh in Hhand. apply Forall_app in Hhand as [_ Ht]. by apply Forall_cons in Ht as [? _]. }
  destruct (sound_alter i (set_hand (removelast (hand p))) g Hs) as [Hd1 Hp1].
  { intros q Hq _. rewrite Hp in Hq. injection Hq as <-. split.
    - cbn [hand set_hand]. by apply Forall_removelast.
    - unfold flags_agree, hand_value in *. cbn [hand busted set_hand]. rewrite Hb.
      split; [done|]. intros Hov. exfalso.
      apply value_over_iff in Hov.
      assert (¬ 21 < compute_hand_value (hand p)) as Hle
        by (intros Hgt; apply Hfl in Hgt; congruence).
      apply Hle, value_over_iff. pose proof (hard_total_removelast (hand p)). lia. }
  split; [|exact Hp1]. by apply pack_discard_card.
Qed.

(** The loop of [human_turn] reads at least one line in every iteration. *)
Lemma human_turn_good (fuel : nat) (i : nat) g :
  sound_table g → (length (cin g) < fuel)%nat →
  outcome_post (λ g', sound_table g' ∧ (length (cin g') ≤ length (cin g))%nat)
    (human_turn fuel i g)
  ∧ human_turn fuel i g ≠ OutOfFuel.
Proof.
  revert g. induction fuel as [|fuel IH]; intros g Hs Hlen; [lia|].
  cbn [human_turn]. destruct (players g !! i) as [p|] eqn:Hp; [|by simpl].
  destruct (stood p || busted p) eqn:Hflag; [by simpl|].
  apply orb_false_iff in Hflag as [_ Hb].
  destruct (cin g) as [|l0 ls] eqn:Hcin; [done|].
  assert (getline_cin g = (l0, set_cin ls g)) as -> by (unfold getline_cin; by rewrite Hcin).
  assert (∃ line g2,
            (if decide (l0 = EmptyString) then getline_cin (set_cin ls g)
             else (l0, set_cin ls g)) = (line, g2)
            ∧ players g2 = players g ∧ deck g2 = deck g
            ∧ (length (cin g2) ≤ length ls)%nat) as (line & g2 & -> & Hp2 & Hd2 & Hl2).
  { destruct (decide (l0 = EmptyString)).
    - destruct (getline_cin_play (set_cin ls g)) as (E1 & E2 & E3).
      destruct (getline_cin (set_cin ls g)) as [line g2]. by exists line, g2.
    - exists l0, (set_cin ls g). by repeat split. }
  assert (sound_table g2) as Hs2 by (by apply (sound_same g)).
  simpl in Hlen.
  assert (∀ g3, sound_table g3 → (length (cin g3) ≤ length (cin g2))%nat →
            outcome_post (λ g', sound_table g' ∧ (length (cin g') ≤ S (length ls))%nat)
              (human_turn fuel i g3)
            ∧ human_turn fuel i g3 ≠ OutOfFuel) as Hnext.
  { intros g3 Hs3 Hl3. destruct (IH g3 Hs3 ltac:(lia)) as [Hpost Hne]. split; [|done].
    eapply outcome_post_mono; [|exact Hpost]. intros s [? ?]. split; [done|lia]. }
  destruct (Ascii.eqb (first_char line) "h").
  { apply (outcome_post_bind (λ g', sound_table g' ∧ cin g' = cin g2)).
    - by apply human_hit_good.
    - intros s [? Hc]. split; [done|]. rewrite Hc. simpl. lia.
    - intros s [? Hc]. apply Hnext; [done|]. by rewrite Hc. }
  destruct (Ascii.eqb (first_char line) "s").
  { apply Hnext; [|done]. apply sound_alter; [done|]. intros q _ [Hq1 Hq2]. by split. }
  destruct (Ascii.eqb (first_char line) "d").
  { destruct (human_discard_sound i g2 p Hs2 ltac:(by rewrite Hp2) Hb) as [Hs3 Hc3].
    apply Hnext; [done|]. by rewrite Hc3. }
  destruct (Ascii.eqb (first_char line) "v").
  { apply (outcome_post_bind
             (λ g', sound_table g' ∧ (length (cin g') ≤ length (cin g2))%nat)).
    - apply display_profiles_menu_good; [done|lia].
    - intros s [? Hc]. split; [done|simpl; lia].
    - intros s [? Hc]. by apply Hnext. }
  destruct (Ascii.eqb (first_char line) "q").
  { simpl. split; [|done]. split; [by apply (sound_same g2)|simpl; lia]. }
  by apply Hnext.
Qed.

(** [human_turn] returns only through the test of its loop. *)
Lemma human_turn_returns_flagged (fuel : nat) (i : nat) g g' (p' : Player) :
  human_turn fuel i g = Ok g' → players g' !! i = Some p' →
  stood p' = true ∨ busted p' = true.
Proof.
  revert g. induction fuel as [|fuel IH]; intros g Hturn Hp'.
  - simpl in Hturn. destruct (players g !! i) as [p|] eqn:Hp.
    + destruct (stood p || busted p) eqn:Hflag; [|done]. injection Hturn as <-.
      rewrite Hp in Hp'. injection Hp' as <-. by apply orb_true_iff.
    + injection Hturn as <-. congruence.
  - cbn [human_turn] in Hturn. destruct (players g !! i) as [p|] eqn:Hp.
    2: { injection Hturn as <-. congruence. }
    destruct (stood p || busted p) eqn:Hflag.
    { injection Hturn as <-. rewrite Hp in Hp'. injection Hp' as <-. by apply orb_true_iff. }
    destruct (cin g) as [|l0 ls]; [done|].
    destruct (getline_cin g) as [line g1].
    destruct (if decide (line = EmptyString) then getline_cin g1 else (line, g1))
      as [line2 g2].
    destruct (Ascii.eqb (first_char line2) "h").
    { destruct (human_hit i g2) as [g3| | | |]; try done. simpl in Hturn. by eapply IH. }
    destruct (Ascii.eqb (first_char line2) "s"); [by eapply IH|].
    destruct (Ascii.eqb (first_char line2) "d"); [by eapply IH|].
    destruct (Ascii.eqb (first_char line2) "v").
    { destruct (display_profiles_menu fuel g2) as [g3| | | |]; try done.
      simpl in Hturn. by eapply IH. }
    destruct (Ascii.eqb (first_char line2) "q"); [done|]. by eapply IH.
Qed.

End human_turn_facts.

(** ** A whole round *)

Section round_facts.
Context {G : Type} `{!RandomEngine G}.
Implicit Types g : BlackjackGame G.

Lemma fold_left_keeps {A B : Type} (P : B → Prop) (f : B → A → B) (l : list A) (b : B) :
  (∀ b x, P b → P (f b x)) → P b → P (fold_left f l b).
Proof. intros Hf. revert b. induction l as [|x l IH]; intros b Hb; simpl; auto. Qed.

(** After [prepare_round] nobody holds a card and no flag is set. *)
Lemma prepare_round_fresh g :
  pack_deck (deck g) →
  pack_deck (deck (prepare_round g))
  ∧ Forall (λ p, hand p = [] ∧ busted p = false) (players (prepare_round g))
  ∧ cin (prepare_round g) = cin g.
Proof.
  intros Hpack. cbn [prepare_round deck players cin set_turn_queue set_deck set_players set_pot].
  split; [by apply pack_low_card_reshuffle|]. split; [|done].
  apply Forall_fmap, Forall_true. done.
Qed.

Lemma npc_bet_cin (p : Player) g : cin (npc_bet p g).2 = cin g.
Proof.
  unfold npc_bet. destruct (uniform_int 0 99 (game_rng g)) as [roll r].
  assert (cin (npc_extra p roll (set_rng r g)).2 = cin g) as Hc.
  { unfold npc_extra.
    destruct (contains "Cautious" (name p)); [done|].
    destruct (contains "Reckless" (name p)); [done|].
    destruct (contains "Smart" (name p)); [done|].
    by destruct (contains "Chaotic" (name p)). }
  by destruct (npc_extra p roll (set_rng r g)) as [extra g1].
Qed.

Lemma human_bet_cin (p : Player) g : (length (cin (human_bet p g).2) ≤ length (cin g))%nat.
Proof.
  unfold human_bet.
  set (g1 := if in_avail g (cin g) then (getline_cin g).2 else g).
  assert (length (cin g1) ≤ length (cin g))%nat as H1.
  { subst g1. destruct (in_avail g (cin g)); [apply getline_cin_play|done]. }
  destruct (getline_cin_play g1) as (_ & _ & H2).
  destruct (getline_cin g1) as [line g2]. simpl in *. lia.
Qed.

Lemma collect_bet_fresh g (i : nat) :
  pack_deck (deck g) ∧ Forall (λ p, hand p = [] ∧ busted p = false) (players g) →
  (pack_deck (deck (collect_bet g i))
   ∧ Forall (λ p, hand p = [] ∧ busted p = false) (players (collect_bet g i)))
  ∧ (length (cin (collect_bet g i)) ≤ length (cin g))%nat.
Proof.
  intros [Hpack Hall].
  pose proof (collect_bet_shape g i) as Hs. unfold collect_bet in *.
  destruct (players g !! i) as [p|] eqn:Hp; [|done].
  destruct (chips p <=? 0); [done|].
  destruct Hs as (bet & Hpl & _ & _ & Hd & _).
  split.
  - rewrite Hd, Hpl. split; [done|]. apply Forall_alter; [done|]. by intros q _ [? ?].
  - pose proof (human_bet_cin p g) as Hh. pose proof (npc_bet_cin p g) as Hn.
    destruct (is_human p).
    + destruct (human_bet p g) as [b g1]. exact Hh.
    + destruct (npc_bet p g) as [b g1]. simpl in *. by rewrite Hn.
Qed.

Lemma collect_bets_fresh g :
  pack_deck (deck g) ∧ Forall (λ p, hand p = [] ∧ busted p = false) (players g) →
  (pack_deck (deck (collect_bets g))
   ∧ Forall (λ p, hand p = [] ∧ busted p = false) (players (collect_bets g)))
  ∧ (length (cin (collect_bets g)) ≤ length (cin g))%nat.
Proof.
  intros Hfresh. unfold collect_bets.
  apply (fold_left_keeps
           (λ g', (pack_deck (deck g')
                   ∧ Forall (λ p, hand p = [] ∧ busted p = false) (players g'))
                  ∧ (length (cin g') ≤ length (cin g))%nat)); [|done].
  intros g1 i [Hf1 Hl1]. destruct (collect_bet_fresh g1 i Hf1) as [Hf2 Hl2].
  split; [done|lia].
Qed.

(** A pass of the deal keeps pack cards in the shoe and in the hands, and
    reads no input. *)
Lemma deal_fold_pack (l : list nat) g g' :
  pack_deck (deck g) → Forall (λ p, Forall pack_card (hand p)) (players g) →
  fold_left initial_deal_step l (Ok g) = Ok g' →
  pack_deck (deck g') ∧ Forall (λ p, Forall pack_card (hand p)) (players g')
  ∧ cin g' = cin g.
Proof.
  revert g. induction l as [|w l IH]; intros g Hpack Hall Hf.
  - simpl in Hf. by injection Hf as <-.
  - cbn [fold_left] in Hf. destruct (deal_fold_ok _ _ _ Hf) as [g1 Hg1].
    rewrite Hg1 in Hf.
    assert (pack_deck (deck g1) ∧ Forall (λ p, Forall pack_card (hand p)) (players g1)
            ∧ cin g1 = cin g) as (Hpack1 & Hall1 & Hcin1).
    { unfold initial_deal_step in Hg1. simpl in Hg1.
      destruct (players g !! w) as [pw|]; [|by injection Hg1 as <-].
      destruct (chips pw <? 0); [by injection Hg1 as <-|].
      destruct (deal_card_to_sound w g g1 Hpack Hg1) as (c & Hc & Hd1 & Hp1 & Hcin & _).
      split; [done|]. split; [|done]. rewrite Hp1. apply Forall_alter; [done|].
      intros q _ Hq. simpl. apply Forall_app. split; [done|]. by apply Forall_cons. }
    destruct (IH g1 Hpack1 Hall1 Hf) as (H1 & H2 & H3). split; [done|]. split; [done|].
    congruence.
Qed.

(** The table after the initial deal of a fresh table is sound. *)
Lemma initial_deal_sound g g' :
  pack_deck (deck g) → Forall (λ p, hand p = [] ∧ busted p = false) (players g) →
  initial_deal_animated g = Ok g' →
  sound_table g' ∧ cin g' = cin g.
Proof.
  intros Hpack Hfresh Hdeal. unfold initial_deal_animated, deal_pass in Hdeal.
  destruct (fold_left initial_deal_step (roster g) (Ok g)) as [g1| | | |] eqn:H1; try done.
  simpl in Hdeal.
  assert (Forall (λ p, Forall pack_card (hand p)) (players g)) as Hhands.
  { eapply Forall_impl; [exact Hfresh|]. intros p [-> _]. apply Forall_nil_2. }
  destruct (deal_fold_pack _ _ _ Hpack Hhands H1) as (Hpack1 & Hhands1 & Hcin1).
  destruct (deal_fold_pack _ _ _ Hpack1 Hhands1 Hdeal) as (Hpack2 & Hhands2 & Hcin2).
  split; [|congruence]. split; [done|].
  destruct (deal_fold _ _ _ (NoDup_seq 0 _) H1) as [Hl1 Hr1].
  destruct (deal_fold _ _ _ (NoDup_seq 0 _) Hdeal) as [Hl2 Hr2].
  apply Forall_lookup. intros j p2 Hp2.
  destruct (lookup_lt_is_Some_2 (players g) j) as [p Hp].
  { apply lookup_lt_Some in Hp2. lia. }
  destruct (Forall_lookup_1 _ _ _ _ Hfresh Hp) as [Hempty Hb].
  destruct (Hr1 j p Hp) as (p1 & e1 & Hp1 & Hs1 & Hh1 & Hn1).
  destruct (Hr2 j p1 Hp1) as (q & e2 & Hq & Hs2 & Hh2 & Hn2).
  rewrite Hp2 in Hq. injection Hq as <-.
  split; [exact (Forall_lookup_1 _ _ _ _ Hhands2 Hp2)|].
  destruct Hs1 as (_ & _ & _ & _ & Hb1 & _). destruct Hs2 as (_ & _ & _ & _ & Hb2 & _).
  unfold flags_agree. rewrite Hb2, Hb1, Hb. split; [done|]. intros Hov. exfalso.
  assert (hand_value p2 ≤ 21); [|lia].
  apply short_hand_value. rewrite Hh2, Hh1, Hempty, !length_app, Hn1, Hn2. simpl.
  repeat destruct (decide _); lia.
Qed.

Lemma alter_stats_same_play (n : string) (f : PlayerStats → PlayerStats) g :
  same_play g (alter_stats n f g).
Proof. done. Qed.

Lemma detect_blackjacks_sound g :
  sound_table g → sound_table (detect_blackjacks g) ∧ cin (detect_blackjacks g) = cin g.
Proof.
  intros Hs. unfold detect_blackjacks.
  apply (fold_left_keeps (λ g', sound_table g' ∧ cin g' = cin g)); [|done].
  intros g1 i [Hs1 Hc1]. unfold detect_blackjack.
  destruct (players g1 !! i) as [p|]; [|done].
  destruct (chips p <? 0); [done|]. destruct (is_blackjack (hand p)); [|done].
  set (g2 := alter_stats (name p) count_blackjack (alter_player i mark_stood g1)).
  destruct (unlock_if_same_play (is_human p) (name p) "BLACKJACK" g2) as (E1 & E2 & E3).
  split; [|by rewrite E3].
  apply (sound_same _ _ E1 E2). apply (sound_same (alter_player i mark_stood g1)); [done..|].
  apply sound_alter; [done|]. by intros q _ [? ?].
Qed.

(** The action loop. *)
Lemma action_loop_good (fuel : nat) g :
  sound_table g → (22 ≤ fuel)%nat → (length (cin g) < fuel)%nat →
  outcome_post (λ g', sound_table g' ∧ (length (cin g') ≤ length (cin g))%nat)
    (action_loop fuel g)
  ∧ action_loop fuel g ≠ OutOfFuel.
Proof.
  intros Hs Hfuel Hlen. unfold action_loop.
  set (Q := λ g', sound_table g' ∧ (length (cin g') ≤ length (cin g))%nat).
  assert (∀ l o, outcome_post Q o ∧ o ≠ OutOfFuel →
                 outcome_post Q (fold_left (action_step fuel) l o)
                 ∧ fold_left (action_step fuel) l o ≠ OutOfFuel) as Hfold.
  { induction l as [|i l IH]; intros o Ho; [done|]. cbn [fold_left]. apply IH.
    unfold action_step. apply (outcome_post_bind Q); [done|done|].
    intros s [Hs1 Hl1].
    destruct (players s !! i) as [p|]; [|by simpl].
    destruct (chips p <? 0); [by simpl|].
    destruct (is_human p).
    - destruct (negb (stood p || busted p)); [|by simpl].
      destruct (human_turn_good fuel i s Hs1 ltac:(lia)) as [Hpost Hne]. split; [|done].
      eapply outcome_post_mono; [|exact Hpost]. intros s' [? ?]. split; [done|lia].
    - destruct (negb (stood p || busted p)); [|by simpl].
      destruct (npc_turn_good fuel i s Hs1 Hfuel) as [Hpost Hne]. split; [|done].
      eapply outcome_post_mono; [|exact Hpost]. intros s' [? ?]. split; [done|lia]. }
  apply Hfold. simpl. split; [|done]. by split.
Qed.

Lemma initial_deal_cases g :
  initial_deal_animated g = Undefined ∨ ∃ g', initial_deal_animated g = Ok g'.
Proof.
  assert (∀ l o, (o = Undefined ∨ ∃ g', o = Ok g') →
                 fold_left initial_deal_step l o = Undefined
                 ∨ ∃ g', fold_left initial_deal_step l o = Ok g') as Hfold.
  { induction l as [|i l IH]; intros o Ho; [done|]. cbn [fold_left]. apply IH.
    destruct Ho as [->|[g1 ->]]; [by left|]. unfold initial_deal_step. simpl.
    destruct (players g1 !! i) as [p|]; [|by eauto].
    destruct (chips p <? 0); [by eauto|]. apply deal_card_to_cases. }
  unfold initial_deal_animated, deal_pass.
  destruct (Hfold (roster g) (Ok g)) as [->|[g1 ->]]; [by eauto|by left|]. simpl.
  apply Hfold. eauto.
Qed.

Lemma unlock_if_shoe_input b n k g :
  (deck (unlock_if b n k g), cin (unlock_if b n k g)) = (deck g, cin g).
Proof. destruct (unlock_if_same_play b n k g) as (_ & -> & ->). done. Qed.

(** The settlement and the achievements after it touch neither the shoe nor
    the input. *)
Lemma settle_shoe_input g :
  (deck (settle g), cin (settle g)) = (deck g, cin g).
Proof.
  unfold settle. destruct (evaluate_winners (players g)) as [|w ws].
  - apply (fold_left_preserves (λ g, (deck g, cin g))).
    intros g1 p. unfold record_all_bust. by destruct (0 <=? chips p).
  - etransitivity.
    { apply (fold_left_preserves (λ g, (deck g, cin g))).
      intros g1 p. unfold record_loss. by destruct (bool_decide _). }
    etransitivity.
    { instantiate (1 := (deck (resolve_payouts_and_update_stats (w :: ws)
                                 (fold_left record_win (w :: ws) g)),
                         cin (resolve_payouts_and_update_stats (w :: ws)
                                 (fold_left record_win (w :: ws) g)))).
      destruct (human_won _ _).
      - unfold human_win_achievements, you_stats. cbn zeta.
        repeat (rewrite unlock_if_shoe_input; cbn [deck cin set_stats]). done.
      - apply (fold_left_preserves (λ g, (deck g, cin g))).
        intros g1 p. apply unlock_if_shoe_input. }
    etransitivity.
    { unfold resolve_payouts_and_update_stats.
      destruct (pot_total _ <=? 0); [done|].
      apply (fold_left_preserves (λ g, (deck g, cin g))).
      intros g1 w1. unfold pay_winner. by destruct (players g1 !! w1). }
    apply (fold_left_preserves (λ g, (deck g, cin g))).
    intros g1 w1. unfold record_win, record_winner.
    destruct (players g1 !! w1) as [p|]; [|done]. by destruct (is_blackjack (hand p)).
Qed.

Lemma post_round_shoe_input g :
  (deck (post_round_achievements g), cin (post_round_achievements g)) = (deck g, cin g).
Proof.
  unfold post_round_achievements, you_stats. cbn zeta.
  repeat (rewrite unlock_if_shoe_input; cbn [deck cin set_stats]). done.
Qed.


(** X19.  At the settlement of a round the [busted] flags say what the hands
    say: a player is marked busted exactly when the hand is over 21.  So the
    winners of the round are exactly the players whose hand value is the
    highest that is not over 21, whatever the flags: the test on the flag in
    [evaluate_winners] and its test on the value select the same players. *)
Theorem winners_at_settlement (fuel : nat) g g1 g2 :
  pack_deck (deck g) → (22 ≤ fuel)%nat → (length (cin g) < fuel)%nat →
  initial_deal_animated (collect_bets (prepare_round g)) = Ok g1 →
  action_loop fuel (detect_blackjacks g1) = Ok g2 →
  play_round fuel g = Ok (save_stats (post_round_achievements (settle g2)))
  ∧ (∀ p, p ∈ players g2 → (busted p = true ↔ 21 < hand_value p))
  ∧ (∀ i, i ∈ evaluate_winners (players g2) ↔
          ∃ p, players g2 !! i = Some p ∧ hand_value p ≤ 21
               ∧ ∀ q, q ∈ players g2 → hand_value q ≤ 21 → hand_value q ≤ hand_value p).
Proof.
  intros Hpack Hfuel Hlen Hdeal Hact.
  split; [unfold play_round; rewrite Hdeal; simpl; by rewrite Hact|].
  assert (sound_table g2) as [_ Hall].
  { destruct (prepare_round_fresh g Hpack) as (Hp0 & Hf0 & Hc0).
    destruct (collect_bets_fresh (prepare_round g) (conj Hp0 Hf0)) as [[Hp1 Hf1] Hc1].
    rewrite Hc0 in Hc1.
    destruct (initial_deal_sound _ _ Hp1 Hf1 Hdeal) as [Hs2 Hc2].
    destruct (detect_blackjacks_sound g1 Hs2) as [Hs3 Hc3].
    destruct (action_loop_good fuel (detect_blackjacks g1) Hs3 Hfuel) as [Hpost _].
    { rewrite Hc3, Hc2. lia. }
    rewrite Hact in Hpost. apply Hpost. }
  assert (∀ p, p ∈ players g2 → (busted p = true ↔ 21 < hand_value p)) as Hflags.
  { intros p Hp. by apply (proj1 (Forall_forall _ _) Hall p Hp). }
  split; [exact Hflags|].
  intros i. rewrite evaluate_winners_spec. split.
  - intros (p & Hp & Hb & Hle & Hmax). exists p. split; [done|]. split; [done|].
    intros q Hq Hq21. apply Hmax; [done| |done].
    destruct (busted q) eqn:Hbq; [|done]. apply (Hflags q Hq) in Hbq. lia.
  - intros (p & Hp & Hle & Hmax). exists p. split; [done|].
    split; [|split; [done|]].
    + destruct (busted p) eqn:Hbp; [|done].
      apply (Hflags p (list_elem_of_lookup_2 _ _ _ Hp)) in Hbp. lia.
    + intros q Hq _ Hq21. by apply Hmax.
Qed.
End round_facts.

(** The example tables are sound. *)
Ltac pack_cards_tac :=
  repeat (apply Forall_cons; split;
          [unfold pack_card, RankNames; cbn [rank]; set_solver|]);
  apply Forall_nil_2.

Ltac sound_table_tac :=
  split;
  [ split; cbn [deck container discard]; unfold cards; cbn [fmap list_fmap fst snd];
    pack_cards_tac
  | cbn [players];
    repeat (apply Forall_cons; split;
            [split; [cbn [hand new_player]; pack_cards_tac
                    |split; [discriminate|vm_compute; discriminate]]|]);
    apply Forall_nil_2 ].

Lemma npc_turn_ends_witness :
  npc_turn 22 1 blackjack_table = Undefined
  ∨ ∃ g' p', npc_turn 22 1 blackjack_table = Ok g'
             ∧ players g' !! 1%nat = Some p'
             ∧ played_on (new_player "Cautious Carl" false 100) p'
             ∧ (busted p' = true ↔ 21 < hand_value p')
             ∧ sound_table g' ∧ turn_frame 1 blackjack_table g'.
Proof.
  apply (npc_turn_ends 22 1 blackjack_table (new_player "Cautious Carl" false 100));
    [sound_table_tac|lia|reflexivity].
Defined.



Lemma winners_at_settlement_witness :
  ∃ g1 g2,
    initial_deal_animated (collect_bets (prepare_round zero_chip_table)) = Ok g1
    ∧ action_loop 22 (detect_blackjacks g1) = Ok g2
    ∧ play_round 22 zero_chip_table = Ok (save_stats (post_round_achievements (settle g2))).
Proof.
  eexists _, _. split; [vm_compute; reflexivity|]. split; [vm_compute; reflexivity|].
  match goal with
  | |- play_round _ _ = Ok (save_stats (post_round_achievements (settle ?g2))) =>
      refine (proj1 (winners_at_settlement 22 zero_chip_table _ g2 _ _ _ _ _))
  end; [|lia|simpl; lia|vm_compute; reflexivity|vm_compute; reflexivity].
  split; cbn [deck zero_chip_table container discard]; unfold cards;
    cbn [fmap list_fmap fst snd]; pack_cards_tac.
Defined.

(** ** The settlement: who is paid, and what is recorded *)

Section settle_facts.
Context {G : Type} `{!RandomEngine G}.
Implicit Types g : BlackjackGame G.

Lemma payout_of_nonneg (total_pot : Z) (n : nat) (player_bet : Z) (winp : Player) :
  0 < total_pot → 0 ≤ payout_of total_pot n player_bet winp.
Proof.
  intros Hpot. unfold payout_of.
  destruct (Z.leb_spec player_bet 0) as [Hle|Hgt].
  - destruct n as [|n]; [by destruct total_pot|]. apply Z.quot_pos; lia.
  - destruct (is_blackjack (hand winp)); [|lia].
    assert (0 ≤ (player_bet * 3) `quot` 2) by (apply Z.quot_pos; lia). lia.
Qed.

Lemma set_chips_same (p : Player) : set_chips (chips p + 0) p = p.
Proof. destruct p. unfold set_chips. simpl. f_equal. lia. Qed.

(** X20.  The settlement changes nothing about a player but the chips, and
    the chips of winners only: a winner is credited the payout computed from
    the own stake when the pot is positive, and nobody loses chips. *)
Theorem settle_pays_only_winners g (i : nat) (p : Player) :
  players g !! i = Some p →
  ∃ payout,
    players (settle g) !! i = Some (set_chips (chips p + payout) p)
    ∧ 0 ≤ payout
    ∧ (i ∈ evaluate_winners (players g) ∧ 0 < pot_total g →
       payout = payout_of (pot_total g) (length (evaluate_winners (players g)))
                  (default 0 (bet_by_player_of (betting_pot g) !! name p)) p)
    ∧ (i ∉ evaluate_winners (players g) ∨ pot_total g ≤ 0 → payout = 0).
Proof.
  intros Hp. rewrite settle_players.
  set (W := evaluate_winners (players g)).
  destruct (decide (i ∈ W ∧ 0 < pot_total g)) as [[Hi Hpot]|Hno].
  - rewrite resolve_payouts_lookup by (done || apply evaluate_winners_NoDup).
    rewrite Hp. simpl. eexists. split; [reflexivity|].
    split; [by apply payout_of_nonneg|]. split; [done|]. intros [?|?]; [done|lia].
  - exists 0. rewrite set_chips_same. split; [|split; [done|split; [tauto|done]]].
    unfold resolve_payouts_and_update_stats.
    destruct (Z.leb_spec (pot_total g) 0) as [Hle|Hgt]; [done|].
    destruct W as [|w ws] eqn:HW; [done|].
    rewrite pay_fold_lookup by (rewrite <- HW; apply evaluate_winners_NoDup).
    destruct (decide (i ∈ w :: ws)) as [Hi|Hi]; [|done].
    exfalso. apply Hno. split; [done|lia].
Qed.

Lemma counters_count_loss (s s' : PlayerStats) :
  counters s = counters s' → counters (count_loss s) = counters (count_loss s').
Proof. unfold counters. cbn. intros [= H1 H2 H3 H4 H5 H6 H7 H8]. congruence. Qed.

Lemma counters_add_achievement (k : string) (s : PlayerStats) :
  counters (add_achievement k s) = counters s.
Proof. done. Qed.

(** Payouts and achievements leave the counters alone. *)
Lemma settle_middle_counters (ws : list nat) g (n : string) :
  counters (stats_of (persistent_stats
              (let g := resolve_payouts_and_update_stats ws g in
               if human_won ws g then human_win_achievements g
               else fold_left close_call (players g) g)) n)
  = counters (stats_of (persistent_stats g) n).
Proof.
  unfold counters.
  pose proof (λ π Hπ, same_counter_settle_middle π ws g Hπ n) as Hm. cbn zeta in Hm |- *.
  rewrite (Hm wins), (Hm losses), (Hm ties), (Hm best_streak), (Hm current_streak),
    (Hm biggest_win), (Hm total_games), (Hm blackjacks); done.
Qed.

(** The counters of the record under the name of a player after the
    settlement. *)
Lemma settle_record g (i : nat) (p : Player) :
  NoDup (name <$> players g) →
  players g !! i = Some p →
  counters (stats_of (persistent_stats (settle g)) (name p))
  = counters (settle_update g i p (stats_of (persistent_stats g) (name p))).
Proof.
  intros Hnd Hp. unfold settle_update, settle.
  destruct (evaluate_winners (players g)) as [|w ws] eqn:HW.
  - destruct (decide (i ∈ [])) as [Hi|_]; [by apply elem_of_nil in Hi|].
    destruct (fold_per_player record_all_bust bust_update (players g) g
                record_all_bust_stats Hnd) as [_ Hin].
    rewrite (Hin p) by (by eapply list_elem_of_lookup_2).
    unfold bust_update. destruct (Z.leb_spec 0 (chips p)).
    + destruct (decide _) as [[_ ?]|]; [lia|done].
    + destruct (decide _) as [|Hn]; [done|]. exfalso. apply Hn. split; [done|lia].
  - set (W := w :: ws) in *.
    assert (NoDup W) as HWnd by (rewrite <- HW; apply evaluate_winners_NoDup).
    set (g1 := fold_left record_win W g).
    pose proof (settle_middle_counters W g1 (name p)) as Hmid. cbn zeta in Hmid.
    set (g3 := if human_won W (resolve_payouts_and_update_stats W g1)
               then human_win_achievements (resolve_payouts_and_update_stats W g1)
               else fold_left close_call (players (resolve_payouts_and_update_stats W g1))
                      (resolve_payouts_and_update_stats W g1)) in *.
    assert (players g1 = players g) as Hp1
      by apply (fold_left_preserves players), record_win_players.
    assert (name <$> players g3 = name <$> players g) as Hnames.
    { transitivity (name <$> players (resolve_payouts_and_update_stats W g1)).
      - f_equal. subst g3. destruct (human_won _ _).
        + apply human_win_achievements_players.
        + apply (fold_left_preserves players), close_call_players.
      - by rewrite resolve_payouts_names, Hp1. }
    assert (∃ p3, players g3 !! i = Some p3 ∧ name p3 = name p) as (p3 & Hp3 & Hn3).
    { assert ((name <$> players g3) !! i = Some (name p)) as Hl
        by (by rewrite Hnames, list_lookup_fmap, Hp).
      rewrite list_lookup_fmap in Hl.
      destruct (players g3 !! i) as [p3|]; [|done]. exists p3. split; [done|].
      by injection Hl. }
    assert (name p ∈ winner_names W g3 ↔ i ∈ W) as Hwin.
    { unfold winner_names. rewrite list_elem_of_omap. split.
      - intros (w' & Hw' & Hl). replace i with w'; [done|].
        rewrite <- list_lookup_fmap, Hnames in Hl.
        eapply (proj1 (NoDup_alt _) Hnd); [exact Hl|].
        by rewrite list_lookup_fmap, Hp.
      - intros Hi. exists i. split; [done|]. by rewrite Hp3, <- Hn3. }
    destruct (fold_per_player (record_loss (winner_names W g3)) (loss_update (winner_names W g3))
                (players g3) g3 (record_loss_stats _)) as [_ Hloss];
      [by rewrite Hnames|].
    specialize (Hloss p3 (list_elem_of_lookup_2 _ _ _ Hp3)). rewrite Hn3 in Hloss.
    rewrite Hloss. clear Hloss.
    assert (stats_of (persistent_stats g1) (name p)
            = if decide (i ∈ W) then win_update p (stats_of (persistent_stats g) (name p))
              else stats_of (persistent_stats g) (name p)) as Hg1.
    { subst g1. rewrite fold_record_win.
      destruct (fold_per_player record_winner win_update (omap (players g !!.) W) g
                  record_winner_stats (NoDup_names_omap _ _ Hnd HWnd)) as [Hout Hin].
      destruct (decide (i ∈ W)) as [Hi|Hi].
      - apply (Hin p). apply list_elem_of_omap. by exists i.
      - apply Hout. intros (q & Hq & Hqin)%list_elem_of_fmap.
        apply list_elem_of_omap in Hqin as (w' & Hw' & Hl).
        apply Hi. replace i with w'; [done|].
        eapply (proj1 (NoDup_alt _) Hnd); rewrite list_lookup_fmap.
        + by rewrite Hl.
        + rewrite Hp. simpl. by rewrite Hq. }
    rewrite Hg1 in Hmid.
    unfold loss_update. rewrite Hn3.
    destruct (decide (i ∈ W)) as [Hi|Hi].
    + by rewrite bool_decide_eq_true_2 by (by apply Hwin).
    + rewrite bool_decide_eq_false_2 by (by rewrite Hwin).
      destruct (decide (W = [] ∧ chips p < 0)) as [[? _]|_]; [done|].
      by apply counters_count_loss.
Qed.

End settle_facts.

Lemma settle_pays_only_winners_witness :
  ∃ payout,
    players (settle settlement_table) !! 1%nat
    = Some (set_chips (80 + payout) (seated "You" true 80 [("A", Spades); ("K", Hearts)] false))
    ∧ 0 ≤ payout.
Proof.
  destruct (settle_pays_only_winners settlement_table 1
              (seated "You" true 80 [("A", Spades); ("K", Hearts)] false) eq_refl)
    as (payout & H1 & H2 & _).
  exists payout. split; [exact H1|exact H2].
Defined.


(** ** Achievements and the statistics file *)

Section achievement_facts.
Context {G : Type} `{!RandomEngine G}.
Implicit Types g : BlackjackGame G.

Lemma add_achievement_held (k : string) (ps : PlayerStats) :
  k ∈ achievements ps → add_achievement k ps = ps.
Proof.
  intros Hk. destruct ps as [w l t bs cs bw tg bj a]. unfold add_achievement. simpl in *.
  f_equal. apply leibniz_equiv. intros x. rewrite elem_of_union, elem_of_singleton.
  split; [intros [->|?]; done|by right].
Qed.


Lemma achievements_kept_refl g : achievements_kept g g.
Proof. by intros n. Qed.

Lemma achievements_kept_trans g1 g2 g3 :
  achievements_kept g1 g2 → achievements_kept g2 g3 → achievements_kept g1 g3.
Proof. intros H1 H2 n. specialize (H1 n). specialize (H2 n). set_solver. Qed.

Lemma achievements_kept_same g g' :
  persistent_stats g' = persistent_stats g → achievements_kept g g'.
Proof. intros Hs n. by rewrite Hs. Qed.

Lemma achievements_kept_alter (n : string) (f : PlayerStats → PlayerStats) g :
  (∀ s, achievements (f s) = achievements s) → achievements_kept g (alter_stats n f g).
Proof.
  intros Hf n'. cbn [persistent_stats alter_stats set_stats]. rewrite stats_of_update.
  destruct (decide (n = n')) as [<-|]; [by rewrite Hf|done].
Qed.

Lemma achievements_kept_unlock (n k : string) g :
  achievements_kept g (unlock_achievement_for n k g).
Proof.
  unfold unlock_achievement_for. destruct (persistent_stats g !! n) as [ps|] eqn:Hn;
    [|apply achievements_kept_refl].
  destruct (decide _); [apply achievements_kept_refl|].
  intros n'. cbn [persistent_stats save_stats set_file set_stats].
  unfold stats_of. rewrite lookup_insert.
  destruct (decide (n = n')) as [<-|]; [|done]. rewrite Hn. simpl. set_solver.
Qed.

Lemma achievements_kept_unlock_if (b : bool) (n k : string) g :
  achievements_kept g (unlock_if b n k g).
Proof. destruct b; [apply achievements_kept_unlock|apply achievements_kept_refl]. Qed.

Lemma achievements_kept_touch (n : string) g :
  achievements_kept g (set_stats (touch_stats n (persistent_stats g)) g).
Proof. apply (achievements_kept_alter n id). done. Qed.

Lemma achievements_kept_fold {A : Type} (f : BlackjackGame G → A → BlackjackGame G)
    (l : list A) g :
  (∀ g x, achievements_kept g (f g x)) → achievements_kept g (fold_left f l g).
Proof.
  intros Hf. revert g. induction l as [|x l IH]; intros g; simpl;
    [apply achievements_kept_refl|].
  eapply achievements_kept_trans; [apply Hf|apply IH].
Qed.

(** X23.  The settlement and the achievements after it never take an
    achievement away from any record. *)
Theorem settlement_keeps_achievements g :
  achievements_kept g (save_stats (post_round_achievements (settle g))).
Proof.
  eapply achievements_kept_trans; [|by apply achievements_kept_same].
  eapply (achievements_kept_trans _ (settle g)).
  - unfold settle. destruct (evaluate_winners (players g)) as [|w ws].
    + apply achievements_kept_fold. intros g1 p. unfold record_all_bust.
      destruct (0 <=? chips p); [by apply achievements_kept_alter|apply achievements_kept_refl].
    + eapply achievements_kept_trans; [|apply achievements_kept_fold].
      * eapply (achievements_kept_trans _ (fold_left record_win (w :: ws) g)).
        { apply achievements_kept_fold. intros g1 w1. unfold record_win, record_winner.
          destruct (players g1 !! w1) as [p|]; [|apply achievements_kept_refl].
          destruct (is_blackjack (hand p)).
          - eapply achievements_kept_trans; by apply achievements_kept_alter.
          - by apply achievements_kept_alter. }
        eapply (achievements_kept_trans _
                  (resolve_payouts_and_update_stats (w :: ws)
                     (fold_left record_win (w :: ws) g))).
        { apply achievements_kept_same. unfold resolve_payouts_and_update_stats.
          destruct (pot_total (fold_left record_win (w :: ws) g) <=? 0); [done|].
          apply (fold_left_preserves persistent_stats).
          intros g1 w1. unfold pay_winner. by destruct (players g1 !! w1). }
        destruct (human_won _ _).
        -- unfold human_win_achievements, you_stats. cbn zeta.
           repeat first
             [ apply achievements_kept_refl
             | eapply achievements_kept_trans; [|apply achievements_kept_unlock_if]
             | eapply achievements_kept_trans; [|apply achievements_kept_touch] ].
        -- apply achievements_kept_fold. intros g1 p. apply achievements_kept_unlock_if.
      * intros g1 p. unfold record_loss.
        destruct (bool_decide _); [apply achievements_kept_refl|by apply achievements_kept_alter].
  - unfold post_round_achievements, you_stats. cbn zeta.
    repeat first
      [ apply achievements_kept_refl
      | eapply achievements_kept_trans; [|apply achievements_kept_unlock_if]
      | eapply achievements_kept_trans; [|apply achievements_kept_touch] ].
Qed.

(** *** The file at the end of a round *)

Lemma human_hit_no_exit (i : nat) g s : human_hit i g ≠ Exited s.
Proof.
  unfold human_hit. destruct (deal_card_to_cases i g) as [->|[g1 ->]]; [done|].
  simpl. destruct (players g1 !! i) as [p|]; [|done]. by destruct (21 <? hand_value p).
Qed.

Lemma display_profiles_menu_no_exit (fuel : nat) g s :
  display_profiles_menu fuel g ≠ Exited s.
Proof.
  revert g. induction fuel as [|fuel IH]; intros g; simpl; [done|].
  destruct (read_choice (cin g)) as [[[choice|] ls]|]; [| |done].
  - destruct (choice =? 5); [done|]. destruct (choice =? 3).
    { destruct (getline_cin (set_cin ls g)). apply IH. }
    destruct (choice =? 4); [apply IH|].
    destruct ((choice =? 2) || (choice =? 6) || (choice =? 8)); apply IH.
  - apply IH.
Qed.

Lemma npc_turn_no_exit (fuel : nat) (i : nat) g s : npc_turn fuel i g ≠ Exited s.
Proof.
  revert g. induction fuel as [|fuel IH]; intros g; simpl.
  - destruct (players g !! i) as [p|]; [|done]. by destruct (busted p || stood p).
  - destruct (players g !! i) as [p|]; [|done]. destruct (busted p || stood p); [done|].
    destruct (npc_should_hit p g) as [hit g1]. destruct hit; [|done].
    destruct (deal_card_to_cases i g1) as [->|[g2 ->]]; [done|]. simpl.
    destruct (players g2 !! i) as [p2|]; [|done].
    destruct (21 <? hand_value p2); [done|apply IH].
Qed.

(** The turn of the human player leaves the process only after saving. *)
Lemma human_turn_exit_synced (fuel : nat) (i : nat) g s :
  human_turn fuel i g = Exited s → synced s.
Proof.
  revert g. induction fuel as [|fuel IH]; intros g Hturn.
  - simpl in Hturn. destruct (players g !! i) as [p|]; [|done].
    by destruct (stood p || busted p).
  - cbn [human_turn] in Hturn. destruct (players g !! i) as [p|]; [|done].
    destruct (stood p || busted p); [done|].
    destruct (cin g) as [|l0 ls]; [done|].
    destruct (getline_cin g) as [line g1].
    destruct (if decide (line = EmptyString) then getline_cin g1 else (line, g1))
      as [line2 g2].
    destruct (Ascii.eqb (first_char line2) "h").
    { destruct (human_hit i g2) as [g3|s3| | |] eqn:Hhit; try done.
      - simpl in Hturn. by eapply IH.
      - by apply human_hit_no_exit in Hhit. }
    destruct (Ascii.eqb (first_char line2) "s"); [by eapply IH|].
    destruct (Ascii.eqb (first_char line2) "d"); [by eapply IH|].
    destruct (Ascii.eqb (first_char line2) "v").
    { destruct (display_profiles_menu fuel g2) as [g3|s3| | |] eqn:Hmenu; try done.
      - simpl in Hturn. by eapply IH.
      - by apply display_profiles_menu_no_exit in Hmenu. }
    destruct (Ascii.eqb (first_char line2) "q"); [|by eapply IH].
    injection Hturn as <-. done.
Qed.

Lemma action_loop_exit_synced (fuel : nat) g s : action_loop fuel g = Exited s → synced s.
Proof.
  unfold action_loop.
  assert (∀ l o, (∀ s, o = Exited s → synced s) →
                 fold_left (action_step fuel) l o = Exited s → synced s) as Hfold.
  { induction l as [|i l IH]; intros o Ho; [apply Ho|]. cbn [fold_left]. apply IH.
    intros s1 Hs1. unfold action_step in Hs1.
    destruct o as [g1|s0| | |]; simpl in Hs1; try done.
    - destruct (players g1 !! i) as [p|]; [|done].
      destruct (chips p <? 0); [done|]. destruct (is_human p).
      + destruct (negb (stood p || busted p)); [|done]. by eapply human_turn_exit_synced.
      + destruct (negb (stood p || busted p)); [|done]. by apply npc_turn_no_exit in Hs1.
    - apply Ho. by injection Hs1 as ->. }
  apply Hfold. done.
Qed.

End achievement_facts.
